(** * Reflector: workspace initialisation and outcome logging

    A shallow embedding of [scripts/init-reflector.js] and
    [scripts/log-outcome.js].  JavaScript values, strings, the regular
    expression of [parseTime], the Node filesystem calls and the two
    scripts are modelled as executable Rocq definitions; the properties
    of the specification are proved about them below. *)

From Stdlib Require Import ZArith NArith Ascii String List Lia Bool.
From Stdlib Require Import Numbers.DecimalString.
From stdpp Require Import base option gmap strings list.

Local Open Scope string_scope.
Local Open Scope list_scope.
Local Open Scope Z_scope.

(* ===================================================================== *)
(** * JavaScript values and strings *)
(* ===================================================================== *)

Module Js.

(** A JavaScript string is a sequence of code units; the model keeps the
    code units below 256, one [ascii] each. *)

(** JavaScript numbers, restricted to the integers and [NaN]. *)
Inductive jsnum :=
| NaN
| Num (z : Z).

(** The primitive values the option objects of the scripts can hold. *)
Inductive jsval :=
| JUndefined
| JNull
| JBool (b : bool)
| JNumber (n : jsnum)
| JStr (s : string).

(** The double quote character, written by its code. *)
Definition dquote : string := String (ascii_of_nat 34) EmptyString.

(** [String(n)] for an integer: decimal digits, a minus sign when
    negative, no padding. *)
Definition string_of_Z (z : Z) : string :=
  NilZero.string_of_int (Z.to_int z).

Definition string_of_jsnum (n : jsnum) : string :=
  match n with
  | NaN => "NaN"
  | Num z => string_of_Z z
  end.

(** [ToString], as template literals apply it. *)
Definition to_string (v : jsval) : string :=
  match v with
  | JUndefined => "undefined"
  | JNull => "null"
  | JBool true => "true"
  | JBool false => "false"
  | JNumber n => string_of_jsnum n
  | JStr s => s
  end.

(** [ToBoolean]. *)
Definition truthy (v : jsval) : bool :=
  match v with
  | JUndefined | JNull => false
  | JBool b => b
  | JNumber NaN => false
  | JNumber (Num z) => negb (z =? 0)
  | JStr s => negb (String.eqb s "")
  end.

(** [a || b]: the left operand when truthy, else the right one. *)
Definition js_or (a b : jsval) : jsval :=
  if truthy a then a else b.

(** [a === b] on primitives ([NaN] differs from itself). *)
Definition strict_eq (a b : jsval) : bool :=
  match a, b with
  | JUndefined, JUndefined => true
  | JNull, JNull => true
  | JBool x, JBool y => Bool.eqb x y
  | JNumber (Num x), JNumber (Num y) => x =? y
  | JStr x, JStr y => String.eqb x y
  | _, _ => false
  end.

(** [typeof v !== 'string'] is [negb (is_string v)]. *)
Definition is_string (v : jsval) : bool :=
  match v with JStr _ => true | _ => false end.

(** [x || d] for an optional string option: absent and empty are falsy. *)
Definition str_or (x : option string) (d : string) : string :=
  match x with
  | Some s => if String.eqb s "" then d else s
  | None => d
  end.

(** ** Characters *)

Definition code (c : ascii) : N := N_of_ascii c.

(** [\d]: the ASCII digits. *)
Definition is_digit (c : ascii) : bool :=
  ((48 <=? code c) && (code c <=? 57))%N.

Definition digit_value (c : ascii) : Z := Z.of_N (code c) - 48.

(** White space and line terminators of [String.prototype.trim], among
    the code units below 256: TAB, LF, VT, FF, CR, SPACE, NBSP. *)
Definition is_space (c : ascii) : bool :=
  let n := code c in
  ((n =? 9) || (n =? 10) || (n =? 11) || (n =? 12) || (n =? 13)
   || (n =? 32) || (n =? 160))%N.

Fixpoint trim_start (s : string) : string :=
  match s with
  | String c s' => if is_space c then trim_start s' else s
  | EmptyString => EmptyString
  end.

(** Drops trailing white space: a character is kept when something that
    is kept follows it or when it is not white space itself. *)
Fixpoint trim_end (s : string) : string :=
  match s with
  | String c s' =>
      match trim_end s' with
      | EmptyString => if is_space c then EmptyString else String c EmptyString
      | t => String c t
      end
  | EmptyString => EmptyString
  end.

(** [s.trim()]. *)
Definition trim (s : string) : string := trim_end (trim_start s).

(** [parts.join(sep)]. *)
Fixpoint join (sep : string) (parts : list string) : string :=
  match parts with
  | [] => ""
  | [p] => p
  | p :: rest => p +:+ sep +:+ join sep rest
  end.

(** ** [parseInt(s, 10)] *)

(** Value of the longest prefix of decimal digits; [None] when the
    prefix is empty. *)
Fixpoint digits_prefix (s : string) (acc : option Z) : option Z :=
  match s with
  | String c s' =>
      if is_digit c
      then digits_prefix s' (Some (10 * default 0 acc + digit_value c))
      else acc
  | EmptyString => acc
  end.

Definition parseInt (s : string) : jsnum :=
  let t := trim_start s in
  let sb :=
    match t with
    | String c r =>
        if Ascii.eqb c "-" then (true, r)
        else if Ascii.eqb c "+" then (false, r)
        else (false, t)
    | EmptyString => (false, t)
    end in
  match digits_prefix sb.2 None with
  | Some z => Num (if sb.1 then - z else z)
  | None => NaN
  end.

(** [a < b] and [a > b] on numbers: false as soon as one side is [NaN]. *)
Definition num_lt (a b : jsnum) : bool :=
  match a, b with
  | Num x, Num y => x <? y
  | _, _ => false
  end.

Definition num_gt (a b : jsnum) : bool := num_lt b a.

(** ** Regular expressions

    The fragment used by the scripts: digit class, literal character,
    sequence, bounded greedy repetition and capturing group.  Matching
    is by backtracking with a continuation, as the language specifies
    it; captures are collected in the order the groups close. *)

Inductive regex :=
| ReDigit
| ReChar (c : ascii)
| ReSeq (r1 r2 : regex)
| ReRepeat (lo hi : nat) (r : regex)
| ReGroup (r : regex).

Definition consumed (s rest : string) : string :=
  substring 0 (String.length s - String.length rest) s.

Fixpoint re_match (r : regex) (s : string) (caps : list string)
    (k : string -> list string -> option (list string))
    : option (list string) :=
  match r with
  | ReDigit =>
      match s with
      | String c s' => if is_digit c then k s' caps else None
      | EmptyString => None
      end
  | ReChar a =>
      match s with
      | String c s' => if Ascii.eqb c a then k s' caps else None
      | EmptyString => None
      end
  | ReSeq r1 r2 =>
      re_match r1 s caps (fun s' caps' => re_match r2 s' caps' k)
  | ReRepeat lo hi r' =>
      (fix rep (lo hi : nat) (s : string) (caps : list string) {struct hi} :=
         match hi with
         | O => if Nat.eqb lo 0 then k s caps else None
         | S hi' =>
             match re_match r' s caps
                     (fun s' caps' => rep (Nat.pred lo) hi' s' caps') with
             | Some res => Some res
             | None => if Nat.eqb lo 0 then k s caps else None
             end
         end) lo hi s caps
  | ReGroup r' =>
      re_match r' s caps (fun s' caps' => k s' (caps' ++ [consumed s s'])%list)
  end.

(** [/^r$/.exec(s)] without flags: the match must start at the first
    code unit and end at the last one.  The result array holds the whole
    match at index 0 and the captures after it; [None] is [null]. *)
Definition exec_anchored (r : regex) (s : string) : option (list string) :=
  re_match r s []
    (fun rest caps =>
       match rest with
       | EmptyString => Some (s :: caps)
       | _ => None
       end).

Definition group (m : list string) (i : nat) : string := nth i m "".

End Js.

(* ===================================================================== *)
(** * Failures *)
(* ===================================================================== *)

(** A path is the list of its segments from the filesystem root. *)
Definition path := list string.

Inductive errno := ENOENT | ENOTDIR | EEXIST | EISDIR.

(** One constructor per [throw] of the scripts, plus the errors raised
    by the filesystem calls.  [error_message] is the [message] of the
    thrown [Error]. *)
Inductive error :=
| InvalidFormat (str : string)
| InvalidHour (h : Js.jsnum)
| InvalidMinute (m : Js.jsnum)
| MissingTask
| InvalidQuality (valid : list string) (got : string)
| StorageFailure (code : errno) (p : path).

Definition errno_name (c : errno) : string :=
  match c with
  | ENOENT => "ENOENT"
  | ENOTDIR => "ENOTDIR"
  | EEXIST => "EEXIST"
  | EISDIR => "EISDIR"
  end.

Definition error_message (e : error) : string :=
  match e with
  | InvalidFormat str =>
      "Invalid time format: " +:+ Js.dquote +:+ str +:+ Js.dquote
      +:+ " (expected HH:MM)"
  | InvalidHour h =>
      "Invalid hour: " +:+ Js.string_of_jsnum h +:+ " (expected 0-23)"
  | InvalidMinute m =>
      "Invalid minute: " +:+ Js.string_of_jsnum m +:+ " (expected 0-59)"
  | MissingTask => "--task is required and must be a non-empty string"
  | InvalidQuality valid got =>
      "--quality must be one of: " +:+ Js.join ", " valid
      +:+ " (got: " +:+ Js.dquote +:+ got +:+ Js.dquote +:+ ")"
  | StorageFailure c p => errno_name c +:+ ": " +:+ Js.join "/" p
  end.

Inductive result (A : Type) :=
| Returns (a : A)
| Throws (e : error).
Arguments Returns {A} a.
Arguments Throws {A} e.

(* ===================================================================== *)
(** * Time parsing and cron expressions (init-reflector.js) *)
(* ===================================================================== *)

Module Time.
Import Js.

(** [/^(\d{1,2}):(\d{2})$/] *)
Definition time_re : regex :=
  ReSeq (ReGroup (ReRepeat 1 2 ReDigit))
        (ReSeq (ReChar ":") (ReGroup (ReRepeat 2 2 ReDigit))).

Definition parseTime (str : string) : result (jsnum * jsnum) :=
  match exec_anchored time_re str with
  | None => Throws (InvalidFormat str)
  | Some m =>
      let h := parseInt (group m 1) in
      let mi := parseInt (group m 2) in
      if num_lt h (Num 0) || num_gt h (Num 23) then Throws (InvalidHour h)
      else if num_lt mi (Num 0) || num_gt mi (Num 59) then Throws (InvalidMinute mi)
      else Returns (h, mi)
  end.

Definition timeToCron (time freq : string) : result string :=
  match parseTime time with
  | Throws e => Throws e
  | Returns (h, m) =>
      if String.eqb freq "weekly"
      then Returns (string_of_jsnum m +:+ " " +:+ string_of_jsnum h +:+ " * * 0")
      else Returns (string_of_jsnum m +:+ " " +:+ string_of_jsnum h +:+ " * * *")
  end.

End Time.

(* ===================================================================== *)
(** * The filesystem *)
(* ===================================================================== *)

Module Fs.

(** A filesystem is a tree: a regular file with its content, or a
    directory with its named entries. *)
#[warnings="-register-all"] Inductive node :=
| File (content : string)
| Dir (entries : gmap string node).

(** What [stat] reports about an existing path. *)
Inductive kind :=
| IsFile (content : string)
| IsDir.

Definition kind_of (n : node) : kind :=
  match n with
  | File c => IsFile c
  | Dir _ => IsDir
  end.

Fixpoint lookup_path (p : path) (n : node) : option node :=
  match p with
  | [] => Some n
  | seg :: p' =>
      match n with
      | Dir es => es !! seg ≫= lookup_path p'
      | File _ => None
      end
  end.

Definition stat (p : path) (n : node) : option kind :=
  kind_of <$> lookup_path p n.

(** [fs.existsSync(p)] *)
Definition exists_path (p : path) (n : node) : bool :=
  bool_decide (is_Some (stat p n)).

(** [fs.mkdirSync(p, { recursive: true })]: creates [p] and its missing
    ancestors; a directory already there is accepted; a regular file on
    the way is an error, and nothing is created then. *)
Fixpoint mkdir_p (p : path) (n : node) : errno + node :=
  match p with
  | [] =>
      match n with
      | Dir _ => inr n
      | File _ => inl EEXIST
      end
  | seg :: p' =>
      match n with
      | File _ => inl ENOTDIR
      | Dir es =>
          match mkdir_p p' (default (Dir ∅) (es !! seg)) with
          | inr child => inr (Dir (<[seg := child]> es))
          | inl e => inl e
          end
      end
  end.

(** Writing to the file at [p]: [f] maps the previous content ([None]
    when the file is created) to the new content.  The parent directory
    must exist. *)
Fixpoint put_file (f : option string -> string) (p : path) (n : node)
    : errno + node :=
  match p with
  | [] =>
      match n with
      | File c => inr (File (f (Some c)))
      | Dir _ => inl EISDIR
      end
  | seg :: p' =>
      match n with
      | File _ => inl ENOTDIR
      | Dir es =>
          match es !! seg with
          | Some child =>
              match put_file f p' child with
              | inr child' => inr (Dir (<[seg := child']> es))
              | inl e => inl e
              end
          | None =>
              match p' with
              | [] => inr (Dir (<[seg := File (f None)]> es))
              | _ :: _ => inl ENOENT
              end
          end
      end
  end.

(** [fs.writeFileSync(p, data)] replaces the content. *)
Definition write_file (p : path) (data : string) : node -> errno + node :=
  put_file (fun _ => data) p.

(** [fs.appendFileSync(p, data)] adds [data] after the content. *)
Definition append_file (p : path) (data : string) : node -> errno + node :=
  put_file (fun old => default "" old +:+ data) p.

(** The content of the regular file at [p], if there is one. *)
Definition content_at (p : path) (n : node) : option string :=
  match stat p n with
  | Some (IsFile c) => Some c
  | _ => None
  end.

(** [fs.readFileSync(p, 'utf8')] *)
Definition read_file (p : path) (n : node) : errno + string :=
  match stat p n with
  | Some (IsFile c) => inr c
  | Some IsDir => inl EISDIR
  | None => inl ENOENT
  end.

(** ** Paths *)

(** Splits at each [sep]. *)
Fixpoint split_on (sep : ascii) (s : string) : list string :=
  match s with
  | EmptyString => [""]
  | String c s' =>
      if Ascii.eqb c sep then "" :: split_on sep s'
      else match split_on sep s' with
           | w :: ws => String c w :: ws
           | [] => [String c ""]
           end
  end.

(** Normalisation of [path.join]: empty and [.] segments vanish, [..]
    removes the segment before it. *)
Definition push_segment (p : path) (seg : string) : path :=
  if String.eqb seg "" || String.eqb seg "." then p
  else if String.eqb seg ".." then removelast p
  else (p ++ [seg])%list.

(** [path.join(base, ...parts)] for an absolute [base]. *)
Definition path_join (base : path) (parts : list string) : path :=
  fold_left push_segment (flat_map (split_on "/") parts) base.

(** [path.dirname(p)] *)
Definition dirname (p : path) : path := removelast p.

End Fs.

(* ===================================================================== *)
(** * The world and the effect monad *)
(* ===================================================================== *)

(** What a script can change: the filesystem, and the lines it has
    logged. *)
Record world := World {
  fs : Fs.node;
  console : list string;
}.

(** What a script reads from its process. *)
Record env := Env {
  cwd : path;                       (* process.cwd() *)
  script_dir : path;                (* __dirname of init-reflector.js *)
  intl_timeZone : option string;    (* None: Intl throws *)
  now_iso : string;                 (* new Date().toISOString() *)
}.

(** A computation runs in a world and either returns or throws; the
    world it leaves is kept in both cases. *)
Definition M (A : Type) : Type := world -> result A * world.

Definition ret {A} (a : A) : M A := fun w => (Returns a, w).

Definition throw {A} (e : error) : M A := fun w => (Throws e, w).

Definition bind {A B} (m : M A) (k : A -> M B) : M B :=
  fun w =>
    match m w with
    | (Returns a, w') => k a w'
    | (Throws e, w') => (Throws e, w')
    end.

Declare Scope fx_scope.
Delimit Scope fx_scope with fx.
Notation "x <- c1 ;; c2" := (bind c1 (fun x => c2))
  (at level 100, c1 at next level, right associativity) : fx_scope.
Notation "c1 ;; c2" := (bind c1 (fun _ => c2))
  (at level 100, right associativity) : fx_scope.

(** A pure step that can throw. *)
Definition lift {A} (r : result A) : M A :=
  match r with
  | Returns a => ret a
  | Throws e => throw e
  end.

(** [when c m]: [if (c) m]. *)
Definition when (c : bool) (m : M unit) : M unit :=
  if c then m else ret tt.

(** [for (const x of l) acc = body(acc, x)]: the loop body updates the
    locals it pushes to. *)
Fixpoint for_of {A S} (l : list A) (body : S -> A -> M S) (acc : S) : M S :=
  match l with
  | [] => ret acc
  | x :: l' => bind (body acc x) (for_of l' body)
  end.

(** The filesystem calls, as effects. *)
Definition fs_step (p : path) (op : Fs.node -> errno + Fs.node) : M unit :=
  fun w =>
    match op (fs w) with
    | inr n => (Returns tt, World n (console w))
    | inl e => (Throws (StorageFailure e p), w)
    end.

Definition existsSync (p : path) : M bool :=
  fun w => (Returns (Fs.exists_path p (fs w)), w).

Definition mkdirSync_recursive (p : path) : M unit :=
  fs_step p (Fs.mkdir_p p).

Definition writeFileSync (p : path) (data : string) : M unit :=
  fs_step p (Fs.write_file p data).

Definition appendFileSync (p : path) (data : string) : M unit :=
  fs_step p (Fs.append_file p data).

Definition readFileSync (p : path) : M string :=
  fun w =>
    match Fs.read_file p (fs w) with
    | inr c => (Returns c, w)
    | inl e => (Throws (StorageFailure e p), w)
    end.

(** [console.log(line)], or the caller's [log] sink. *)
Definition log_line (line : string) : M unit :=
  fun w => (Returns tt, World (fs w) (console w ++ [line])%list).

Local Open Scope fx_scope.

(** The line feed, [\n] in the scripts. *)
Definition nl : string := String (ascii_of_nat 10) EmptyString.

(* ===================================================================== *)
(** * scripts/init-reflector.js *)
(* ===================================================================== *)

Module InitReflector.
Import Js Time Fs.

Module DEFAULTS.
Definition dailyTime : string := "03:30".
Definition weeklyTime : string := "03:00".
End DEFAULTS.

(** [path.join(__dirname, '..', 'prompts')] *)
Definition PROMPTS_DIR (E : env) : path :=
  path_join (script_dir E) [".."; "prompts"].

Definition principlesTemplate : string :=
"# PRINCIPLES.md - Decision-Making Framework

*Principles are earned through experience and validated by outcomes.*
*Add them when evidence supports them. Retire them when they stop being useful.*

---

## How This File Works

Each principle should:
1. **Guide decisions** when multiple good options conflict
2. **Be specific enough** to change observable behavior
3. **Include its origin** - what happened that created it
4. **Show evidence** - what outcomes support it

A principle that doesn't change how you act isn't a principle. It's a platitude.

---

<!-- Add your first principle after your first meaningful correction or insight.

Template:

## [Principle Name]

[What this principle means and why it matters. 2-3 sentences.]

**Origin:** [What happened that led to this principle]

**In practice:** [Concrete behavioral guidance - when and how to apply it]

---

-->

*This file evolves. The weekly review process proposes changes based on*
*outcome data. Every addition, modification, and retirement is logged in*
*memory/reflector/principles-history.jsonl.*
".

Definition loadPrompt (E : env) (name : string) : M string :=
  let file := path_join (PROMPTS_DIR E) [name] in
  readFileSync file.

Definition detectTimezone (E : env) : string :=
  match intl_timeZone E with
  | Some tz => tz
  | None => "UTC"
  end.

(** The options object of [init]; an absent property is [None] (or
    [false] for the two flags). *)
Module Opts.
Record t := Make {
  root : option path;
  dryRun : bool;
  skipCron : bool;
  timezone : option string;
  dailyTime : option string;
  weeklyTime : option string;
}.
End Opts.

Record schedule := Schedule {
  cron : string;
  sched_timezone : string;
  prompt : string;
}.

Record prompts_t := Prompts {
  daily : schedule;
  weekly : schedule;
}.

Record report := Report {
  root : path;
  timezone : string;
  dailyTime : string;
  weeklyTime : string;
  dryRun : bool;
  created : list string;
  existed : list string;
  prompts : option prompts_t;         (* None: the empty object *)
}.

(** The two lists the loops push to. *)
Definition lists : Type := list string * list string.

Definition dirs : list string :=
  [ "memory";
    "memory/reflector";
    "memory/reflector/weekly-summaries" ].

Definition files : list (string * string) :=
  [ ("PRINCIPLES.md", principlesTemplate);
    ("memory/reflector/outcomes.jsonl", "");
    ("memory/reflector/principles-history.jsonl", "") ].

(** Body of the loop over [dirs]. *)
Definition ensure_dir (root : path) (dryRun : bool) (acc : lists) (rel : string)
    : M lists :=
  let abs := path_join root [rel] in
  ex <- existsSync abs ;;
  if ex then
    log_line ("  exists  " +:+ rel +:+ "/") ;;
    ret (acc.1, (acc.2 ++ [rel +:+ "/"])%list)
  else
    log_line ("  create  " +:+ rel +:+ "/") ;;
    when (negb dryRun) (mkdirSync_recursive abs) ;;
    ret ((acc.1 ++ [rel +:+ "/"])%list, acc.2).

(** Body of the loop over [files]. *)
Definition ensure_file (root : path) (dryRun : bool) (acc : lists)
    (item : string * string) : M lists :=
  let rel := item.1 in
  let content := item.2 in
  let abs := path_join root [rel] in
  ex <- existsSync abs ;;
  if ex then
    log_line ("  exists  " +:+ rel) ;;
    ret (acc.1, (acc.2 ++ [rel])%list)
  else
    log_line ("  create  " +:+ rel) ;;
    when (negb dryRun) (writeFileSync abs content) ;;
    ret ((acc.1 ++ [rel])%list, acc.2).

(** The block guarded by [if (!skipCron)]. *)
Definition cron_prompts (E : env) (skipCron : bool)
    (timezone dailyTime weeklyTime : string) : M (option prompts_t) :=
  if negb skipCron then
    dailyPrompt <- loadPrompt E "daily-review.txt" ;;
    weeklyPrompt <- loadPrompt E "weekly-refinement.txt" ;;
    dailyCron <- lift (timeToCron dailyTime "daily") ;;
    weeklyCron <- lift (timeToCron weeklyTime "weekly") ;;
    let p := Prompts (Schedule dailyCron timezone dailyPrompt)
                     (Schedule weeklyCron timezone weeklyPrompt) in
    log_line (nl +:+ "Cron configuration:") ;;
    log_line ("  Daily review:  " +:+ dailyTime +:+ " " +:+ timezone
              +:+ " (" +:+ dailyCron +:+ ")") ;;
    log_line ("  Weekly review: " +:+ weeklyTime +:+ " Sunday " +:+ timezone
              +:+ " (" +:+ weeklyCron +:+ ")") ;;
    log_line (nl +:+ "  Prompts loaded from prompts/daily-review.txt and prompts/weekly-refinement.txt") ;;
    log_line "  Create cron jobs via OpenClaw's cron tool using the prompts above." ;;
    log_line "  Daily: sessionTarget=isolated, delivery=none (silent unless important)" ;;
    log_line "  Weekly: sessionTarget=isolated, delivery=announce (sends summary)" ;;
    ret (Some p)
  else
    log_line (nl +:+ "Skipping cron setup (--skip-cron)") ;;
    ret None.

Definition init (E : env) (opts : Opts.t) : M report :=
  let dryRun := Opts.dryRun opts in
  let skipCron := Opts.skipCron opts in
  let timezone := str_or (Opts.timezone opts) (detectTimezone E) in
  let dailyTime := str_or (Opts.dailyTime opts) DEFAULTS.dailyTime in
  let weeklyTime := str_or (Opts.weeklyTime opts) DEFAULTS.weeklyTime in
  let root := default (cwd E) (Opts.root opts) in
  (* Validate times early, before any file operations. *)
  _ <- lift (parseTime dailyTime) ;;
  _ <- lift (parseTime weeklyTime) ;;
  log_line ("Initializing Reflector system..." +:+ nl) ;;
  when dryRun (log_line ("(dry run - no changes will be written)" +:+ nl)) ;;
  acc <- for_of dirs (ensure_dir root dryRun) ([], []) ;;
  acc <- for_of files (ensure_file root dryRun) acc ;;
  prompts <- cron_prompts E skipCron timezone dailyTime weeklyTime ;;
  log_line (nl +:+ "Done.") ;;
  log_line (nl +:+ "Next steps:") ;;
  log_line "  1. Create the cron jobs via OpenClaw's cron tool" ;;
  log_line "  2. Open PRINCIPLES.md and add your first principle" ;;
  log_line "  3. Start logging outcomes after significant tasks" ;;
  ret (Report root timezone dailyTime weeklyTime dryRun acc.1 acc.2 prompts).

End InitReflector.

(* ===================================================================== *)
(** * JSON.stringify *)
(* ===================================================================== *)

Module Json.
Import Js.

Definition hex_digit (n : N) : ascii :=
  if (n <? 10)%N then ascii_of_N (48 + n) else ascii_of_N (87 + n).

(** [\u00XX] for a code unit below 256. *)
Definition unicode_escape (c : ascii) : string :=
  "\u00" +:+ String (hex_digit (code c / 16)) (String (hex_digit (code c mod 16)) "").

(** One code unit inside a JSON string literal. *)
Definition quote_char (c : ascii) : string :=
  let n := code c in
  if (n =? 8)%N then "\b"
  else if (n =? 9)%N then "\t"
  else if (n =? 10)%N then "\n"
  else if (n =? 12)%N then "\f"
  else if (n =? 13)%N then "\r"
  else if (n =? 34)%N then "\" +:+ dquote
  else if (n =? 92)%N then "\\"
  else if (n <? 32)%N then unicode_escape c
  else String c "".

Fixpoint quote_body (s : string) : string :=
  match s with
  | EmptyString => ""
  | String c s' => quote_char c +:+ quote_body s'
  end.

Definition quote (s : string) : string :=
  dquote +:+ quote_body s +:+ dquote.

(** The text of a primitive value; [None] for [undefined], which has
    no JSON text. *)
Definition stringify_value (v : jsval) : option string :=
  match v with
  | JUndefined => None
  | JNull => Some "null"
  | JBool true => Some "true"
  | JBool false => Some "false"
  | JNumber NaN => Some "null"
  | JNumber (Num z) => Some (string_of_Z z)
  | JStr s => Some (quote s)
  end.

Definition stringify_property (kv : string * jsval) : option string :=
  match stringify_value kv.2 with
  | Some t => Some (quote kv.1 +:+ ":" +:+ t)
  | None => None
  end.

(** An object of primitive properties, in insertion order; properties
    holding [undefined] are left out. *)
Definition stringify_object (props : list (string * jsval)) : string :=
  "{" +:+ join "," (omap stringify_property props) +:+ "}".

End Json.

(* ===================================================================== *)
(** * JSON.parse *)
(* ===================================================================== *)

(** The fragment of [JSON.parse] that reads back what the logger
    writes: one object whose properties hold strings, integers,
    [true], [false] or [null].  The text is cut into tokens one code
    unit at a time, and the tokens are read as an object. *)
Module JsonParse.
Import Js.

Inductive token :=
| TLBrace
| TRBrace
| TColon
| TComma
| TString (s : string)
| TWord (w : string).        (* a literal or a number, not yet read *)

(** Where the tokenizer is. *)
Inductive mode :=
| Outside
| InWord (w : string)
| InString (acc : string)
| InEscape (acc : string)
| InUnicode (acc : string) (hex : list N).

Definition snoc (s : string) (c : ascii) : string := s +:+ String c "".

(** JSON white space: space, TAB, LF, CR. *)
Definition is_json_space (c : ascii) : bool :=
  let n := code c in
  ((n =? 32) || (n =? 9) || (n =? 10) || (n =? 13))%N.

(** The code unit a one-letter escape stands for. *)
Definition unescape (c : ascii) : option ascii :=
  let n := code c in
  if (n =? 98)%N then Some (ascii_of_N 8)             (* \b *)
  else if (n =? 102)%N then Some (ascii_of_N 12)      (* \f *)
  else if (n =? 110)%N then Some (ascii_of_N 10)      (* \n *)
  else if (n =? 114)%N then Some (ascii_of_N 13)      (* \r *)
  else if (n =? 116)%N then Some (ascii_of_N 9)       (* \t *)
  else if (n =? 34)%N then Some c                     (* quote *)
  else if (n =? 92)%N then Some c                     (* backslash *)
  else if (n =? 47)%N then Some c                     (* slash *)
  else None.

Definition hex_value (c : ascii) : option N :=
  let n := code c in
  if ((48 <=? n) && (n <=? 57))%N then Some (n - 48)%N
  else if ((97 <=? n) && (n <=? 102))%N then Some (n - 87)%N
  else if ((65 <=? n) && (n <=? 70))%N then Some (n - 55)%N
  else None.

(** A code unit met outside strings and words. *)
Definition punctuation (c : ascii) (toks : list token)
    : option (mode * list token) :=
  let n := code c in
  if is_json_space c then Some (Outside, toks)
  else if (n =? 123)%N then Some (Outside, toks ++ [TLBrace])
  else if (n =? 125)%N then Some (Outside, toks ++ [TRBrace])
  else if (n =? 58)%N then Some (Outside, toks ++ [TColon])
  else if (n =? 44)%N then Some (Outside, toks ++ [TComma])
  else if (n =? 34)%N then Some (InString "", toks)
  else if (n =? 91)%N || (n =? 93)%N then None        (* arrays: not modelled *)
  else Some (InWord (String c ""), toks).

(** The code units that end a word. *)
Definition is_delimiter (c : ascii) : bool :=
  let n := code c in
  is_json_space c
  || ((n =? 123) || (n =? 125) || (n =? 58) || (n =? 44) || (n =? 34)
      || (n =? 91) || (n =? 93))%N.

Definition lex_step (st : mode * list token) (c : ascii)
    : option (mode * list token) :=
  let toks := st.2 in
  match st.1 with
  | Outside => punctuation c toks
  | InWord w =>
      if is_delimiter c then punctuation c (toks ++ [TWord w])
      else Some (InWord (snoc w c), toks)
  | InString acc =>
      if (code c =? 34)%N then Some (Outside, toks ++ [TString acc])
      else if (code c =? 92)%N then Some (InEscape acc, toks)
      else if (code c <? 32)%N then None
      else Some (InString (snoc acc c), toks)
  | InEscape acc =>
      match unescape c with
      | Some ch => Some (InString (snoc acc ch), toks)
      | None =>
          if (code c =? 117)%N then Some (InUnicode acc [], toks) else None
      end
  | InUnicode acc hex =>
      match hex_value c with
      | None => None
      | Some h =>
          match hex with
          | [h1; h2; h3] =>
              let n := (((h1 * 16 + h2) * 16 + h3) * 16 + h)%N in
              if (n <? 256)%N then Some (InString (snoc acc (ascii_of_N n)), toks)
              else None                   (* beyond the modelled code units *)
          | _ => Some (InUnicode acc (hex ++ [h]), toks)
          end
      end
  end.

Fixpoint lex_run (st : mode * list token) (s : string)
    : option (mode * list token) :=
  match s with
  | EmptyString => Some st
  | String c s' =>
      match lex_step st c with
      | Some st' => lex_run st' s'
      | None => None
      end
  end.

(** The tokens of a text; a string left open is an error. *)
Definition tokens (s : string) : option (list token) :=
  match lex_run (Outside, []) s with
  | Some (Outside, toks) => Some toks
  | Some (InWord w, toks) => Some (toks ++ [TWord w])
  | _ => None
  end.

(** An integer literal: an optional minus sign, then [0] or digits not
    starting with [0]. *)
Definition read_integer (w : string) : option Z :=
  let sb :=
    match w with
    | String c r => if Ascii.eqb c "-" then (true, r) else (false, w)
    | EmptyString => (false, w)
    end in
  let body := sb.2 in
  let well_formed :=
    match body with
    | EmptyString => false
    | String c r =>
        forallb is_digit (list_ascii_of_string body)
        && (negb (Ascii.eqb c "0") || String.eqb r "")
    end in
  if well_formed then
    match digits_prefix body None with
    | Some z => Some (if sb.1 then - z else z)
    | None => None
    end
  else None.

(** The value a token stands for. *)
Definition value_of (t : token) : option jsval :=
  match t with
  | TString s => Some (JStr s)
  | TWord w =>
      if String.eqb w "null" then Some JNull
      else if String.eqb w "true" then Some (JBool true)
      else if String.eqb w "false" then Some (JBool false)
      else match read_integer w with
           | Some z => Some (JNumber (Num z))
           | None => None
           end
  | _ => None
  end.

(** The members of an object, up to and including its closing brace. *)
Fixpoint members (toks : list token) : option (list (string * jsval)) :=
  match toks with
  | TString k :: TColon :: t :: rest =>
      match value_of t with
      | Some v =>
          match rest with
          | [TRBrace] => Some [(k, v)]
          | TComma :: rest' =>
              match members rest' with
              | Some ms => Some ((k, v) :: ms)
              | None => None
              end
          | _ => None
          end
      | None => None
      end
  | _ => None
  end.

(** [JSON.parse(text)] for an object: its properties in order. *)
Definition parse_object (text : string) : option (list (string * jsval)) :=
  match tokens text with
  | Some [TLBrace; TRBrace] => Some []
  | Some (TLBrace :: rest) => members rest
  | _ => None
  end.

End JsonParse.

(* ===================================================================== *)
(** * scripts/log-outcome.js *)
(* ===================================================================== *)

Module LogOutcome.
Import Js Fs.

(** A [Set] keeps insertion order; [has] is membership. *)
Definition QUALITY_TYPES : list string :=
  ["correction"; "edit"; "praise"; "silence"; "unknown"].

Definition QUALITY_TYPES_has (v : jsval) : bool :=
  match v with
  | JStr s => existsb (String.eqb s) QUALITY_TYPES
  | _ => false
  end.

Definition DEFAULT_LOG_DIR : string := "memory/reflector".
Definition LOG_FILENAME : string := "outcomes.jsonl".

(** The options object of [buildEntry] and [log]; an absent property is
    [JUndefined]. *)
Module Opts.
Record t := Make {
  task : jsval;
  quality : jsval;
  timestamp : jsval;
  channel : jsval;
  delta : jsval;
  lesson : jsval;
  principleCandidate : jsval;
  root : option path;
}.
End Opts.

Record entry := Entry {
  timestamp : jsval;
  task : jsval;
  channel : jsval;
  outputQuality : jsval;
  delta : jsval;
  lesson : jsval;
  principleCandidate : jsval;
}.

(** [v.trim()] on a string value. *)
Definition method_trim (v : jsval) : jsval :=
  match v with
  | JStr s => JStr (trim s)
  | _ => JUndefined
  end.

Definition buildEntry (E : env) (opts : Opts.t) : result entry :=
  if negb (truthy (Opts.task opts))
     || negb (is_string (Opts.task opts))
     || negb (truthy (method_trim (Opts.task opts)))
  then Throws MissingTask
  else if negb (truthy (Opts.quality opts))
          || negb (QUALITY_TYPES_has (Opts.quality opts))
  then Throws (InvalidQuality QUALITY_TYPES
                 (to_string (js_or (Opts.quality opts) (JStr ""))))
  else Returns {|
    timestamp := js_or (Opts.timestamp opts) (JStr (now_iso E));
    task := method_trim (Opts.task opts);
    channel := js_or (Opts.channel opts) JNull;
    outputQuality := Opts.quality opts;
    delta := js_or (Opts.delta opts) JNull;
    lesson := js_or (Opts.lesson opts) JNull;
    principleCandidate :=
      js_or (Opts.principleCandidate opts)
            (JBool (strict_eq (Opts.quality opts) (JStr "correction")));
  |}.

(** The own properties of an entry, in the order the literal lists
    them. *)
Definition properties (e : entry) : list (string * jsval) :=
  [ ("timestamp", timestamp e);
    ("task", task e);
    ("channel", channel e);
    ("outputQuality", outputQuality e);
    ("delta", delta e);
    ("lesson", lesson e);
    ("principleCandidate", principleCandidate e) ].

Definition JSON_stringify (e : entry) : string :=
  Json.stringify_object (properties e).

(** [path.join(root, DEFAULT_LOG_DIR, LOG_FILENAME)] *)
Definition log_path (root : path) : path :=
  path_join root [DEFAULT_LOG_DIR; LOG_FILENAME].

Definition appendEntry (E : env) (e : entry) (opts_root : option path) : M path :=
  let root := default (cwd E) opts_root in
  let logPath := log_path root in
  let dir := dirname logPath in
  ex <- existsSync dir ;;
  when (negb ex) (mkdirSync_recursive dir) ;;
  appendFileSync logPath (JSON_stringify e +:+ nl) ;;
  ret logPath.

Definition log (E : env) (opts : Opts.t) : M entry :=
  e <- lift (buildEntry E opts) ;;
  _ <- appendEntry E e (Opts.root opts) ;;
  ret e.

End LogOutcome.

(* ===================================================================== *)
(** * Vocabulary of the specification *)
(* ===================================================================== *)

Module Vocabulary.
Import Js Fs.

Definition chars (s : string) : list ascii := list_ascii_of_string s.

(** Every code unit is a decimal digit. *)
Definition all_digits (s : string) : Prop :=
  Forall (fun c => is_digit c = true) (chars s).

(** The number a digit string denotes. *)
Definition decimal_value (s : string) : Z :=
  fold_left (fun acc c => 10 * acc + digit_value c) (chars s) 0.

(** [s] is [hs], a colon, [ms], with one or two digits in [hs] and
    exactly two in [ms]. *)
Definition time_pattern (s hs ms : string) : Prop :=
  s = hs +:+ ":" +:+ ms
  /\ (String.length hs = 1 \/ String.length hs = 2)%nat
  /\ String.length ms = 2%nat
  /\ all_digits hs /\ all_digits ms.

(** Empty or made of white space only. *)
Definition blank (s : string) : Prop :=
  Forall (fun c => is_space c = true) (chars s).

(** A time string [parseTime] rejects. *)
Definition invalid_time (s : string) : Prop :=
  exists e, Time.parseTime s = Throws e.

(** A task the entry builder rejects: not a string (missing included),
    or a blank string. *)
Definition task_rejected (v : jsval) : Prop :=
  match v with
  | JStr s => blank s
  | _ => True
  end.

(** A task the entry builder accepts: a string that is not blank. *)
Definition task_accepted (v : jsval) : Prop :=
  exists s, v = JStr s /\ ~ blank s.

(** One of the five quality values. *)
Definition quality_known (v : jsval) : Prop :=
  exists q, v = JStr q /\ In q LogOutcome.QUALITY_TYPES.

(** ** The outcome log *)

Definition is_newline (c : ascii) : bool := Ascii.eqb c (ascii_of_nat 10).

(** No line feed inside. *)
Definition one_line (s : string) : Prop :=
  Forall (fun c => is_newline c = false) (chars s).

(** The lines of a log, as the tests read them:
    [content.split('\n').filter(Boolean)]. *)
Definition log_lines (content : string) : list string :=
  List.filter (fun l => negb (String.eqb l "")) (split_on (ascii_of_nat 10) content).

(** The text of the log under [root]; empty when there is no log. *)
Definition log_text (root : path) (n : node) : string :=
  default "" (content_at (LogOutcome.log_path root) n).

(** A root that is an existing directory without a [memory] entry. *)
Definition fresh_root (root : path) (n : node) : Prop :=
  stat root n = Some IsDir /\ stat (root ++ ["memory"]) n = None.

(** A root whose log directory is there and whose log, if any, is a
    regular file. *)
Definition ready_root (root : path) (n : node) : Prop :=
  stat (dirname (LogOutcome.log_path root)) n = Some IsDir
  /\ stat (LogOutcome.log_path root) n <> Some IsDir.

(** Appending the entries one after the other; the paths returned. *)
Definition append_all (E : env) (root : option path)
    (es : list LogOutcome.entry) : M (list path) :=
  for_of es
    (fun acc e => bind (LogOutcome.appendEntry E e root)
                       (fun p => ret (acc ++ [p])))
    [].

(** An entry that follows the record layout of the log: strings where
    strings are due, [null] allowed for the optional fields, one of
    the five qualities, a boolean flag. *)
Definition is_text (v : jsval) : Prop := exists s, v = JStr s.

Definition text_or_null (v : jsval) : Prop := v = JNull \/ is_text v.

Definition is_flag (v : jsval) : Prop := exists b, v = JBool b.

Definition valid_entry (e : LogOutcome.entry) : Prop :=
  is_text (LogOutcome.timestamp e)
  /\ is_text (LogOutcome.task e)
  /\ text_or_null (LogOutcome.channel e)
  /\ quality_known (LogOutcome.outputQuality e)
  /\ text_or_null (LogOutcome.delta e)
  /\ text_or_null (LogOutcome.lesson e)
  /\ is_flag (LogOutcome.principleCandidate e).

(** The values whose JSON text reads back as the same value. *)
Definition plain (v : jsval) : Prop :=
  match v with
  | JNull | JBool _ | JStr _ => True
  | _ => False
  end.

(** The token a plain value is written as. *)
Definition value_token (v : jsval) : JsonParse.token :=
  match v with
  | JStr s => JsonParse.TString s
  | JBool true => JsonParse.TWord "true"
  | JBool false => JsonParse.TWord "false"
  | _ => JsonParse.TWord "null"
  end.

(** The tokens of the members of an object, closing brace included. *)
Fixpoint member_tokens (props : list (string * jsval)) : list JsonParse.token :=
  match props with
  | [] => []
  | kv :: rest =>
      [JsonParse.TString kv.1; JsonParse.TColon; value_token kv.2]
      ++ match rest with
         | [] => [JsonParse.TRBrace]
         | _ :: _ => JsonParse.TComma :: member_tokens rest
         end
  end.

(** [JSON.parse(line)] gives back the entry. *)
Definition parses_to (line : string) (e : LogOutcome.entry) : Prop :=
  JsonParse.parse_object line = Some (LogOutcome.properties e).

(** The first guard of [buildEntry], on [opts.task]. *)
Definition task_guard (v : jsval) : bool :=
  negb (truthy v) || negb (is_string v) || negb (truthy (LogOutcome.method_trim v)).

(** The second guard of [buildEntry], on [opts.quality]. *)
Definition quality_guard (v : jsval) : bool :=
  negb (truthy v) || negb (LogOutcome.QUALITY_TYPES_has v).

End Vocabulary.

(* ===================================================================== *)
(** * Reasoning about effects *)
(* ===================================================================== *)

Module Logic.
Import Fs.

(** [hoare P m Q R]: run from a world satisfying [P], the computation
    [m] leaves a world satisfying [Q a] when it returns [a], and one
    satisfying [R] when it throws. *)
Definition hoare {A} (P : world -> Prop) (m : M A)
    (Q : A -> world -> Prop) (R : world -> Prop) : Prop :=
  forall w, P w ->
    match m w with
    | (Returns a, w') => Q a w'
    | (Throws _, w') => R w'
    end.

(** [grows news n n']: every path of [n] is in [n'] with the same kind
    and content, and the paths [n'] adds satisfy [news]. *)
Definition grows (news : path -> kind -> Prop) (n n' : node) : Prop :=
  (forall q k, stat q n = Some k -> stat q n' = Some k)
  /\ (forall q k, stat q n = None -> stat q n' = Some k -> news q k).

(** A path the initialiser tracks under its root: the name the report
    gives it, and where it is. *)
Definition dir_entry (root : path) (rel : string) : string * path :=
  (rel +:+ "/", path_join root [rel]).

Definition file_entry (root : path) (item : string * string) : string * path :=
  (item.1, path_join root [item.1]).

Definition tracked (root : path) : list (string * path) :=
  map (dir_entry root) InitReflector.dirs
  ++ map (file_entry root) InitReflector.files.

(** The names of the entries that are missing from, or present in, a
    filesystem. *)
Definition absent_names (n : node) (es : list (string * path)) : list string :=
  map fst (List.filter (fun e => negb (exists_path e.2 n)) es).

Definition present_names (n : node) (es : list (string * path)) : list string :=
  map fst (List.filter (fun e => exists_path e.2 n) es).

(** What initialisation may add once it has handled the directories
    [ds] and the files [fls]: directories on the way to one of [ds], and
    the files of [fls] with their default content. *)
Definition init_news (root : path) (ds : list string)
    (fls : list (string * string)) (q : path) (k : kind) : Prop :=
  (k = IsDir /\ exists d, In d ds /\ q `prefix_of` path_join root [d])
  \/ (exists item, In item fls /\ q = path_join root [item.1]
                  /\ k = IsFile item.2).

(** Every entry of a list exists. *)
Definition all_present (n : node) (es : list (string * path)) : Prop :=
  Forall (fun e => is_Some (stat e.2 n)) es.

(** The state of a run of [init] that started on the filesystem [n0],
    once it has handled the entries [es] and may have added [news]:
    the two lists sort the names of [es] by their presence in [n0]; a
    real run has made all of [es] present, a dry run has changed
    nothing. *)
Definition run_inv (n0 : node) (dry : bool) (news : path -> kind -> Prop)
    (es : list (string * path)) (acc : list string * list string)
    (w : world) : Prop :=
  grows news n0 (fs w)
  /\ acc.1 = absent_names n0 es
  /\ acc.2 = present_names n0 es
  /\ (dry = false -> all_present (fs w) es)
  /\ (dry = true -> fs w = n0).

(** The state of such a run when it throws. *)
Definition run_fail (n0 : node) (dry : bool) (news : path -> kind -> Prop)
    (w : world) : Prop :=
  grows news n0 (fs w) /\ (dry = true -> fs w = n0).

(** The common shape of the two loop bodies of [init]: [e] is the entry
    at hand, [op] creates it, [seen] and [made] are the lines logged. *)
Definition ensure_generic (e : string * path) (op : node -> errno + node)
    (seen made : string) (dry : bool) (acc : list string * list string)
    : M (list string * list string) :=
  fun w =>
    if exists_path e.2 (fs w)
    then (Returns (acc.1, acc.2 ++ [e.1]), World (fs w) (console w ++ [seen]))
    else if dry
    then (Returns (acc.1 ++ [e.1], acc.2), World (fs w) (console w ++ [made]))
    else match op (fs w) with
         | inr n' =>
             (Returns (acc.1 ++ [e.1], acc.2), World n' (console w ++ [made]))
         | inl err =>
             (Throws (StorageFailure err e.2), World (fs w) (console w ++ [made]))
         end.

(** The phases of [init], named: the lines logged first, the two
    loops, the lines logged last. *)
Definition prologue (dry : bool) : M unit :=
  log_line ("Initializing Reflector system..." +:+ nl) ;;
  when dry (log_line ("(dry run - no changes will be written)" +:+ nl)).

Definition loops (root : path) (dry : bool) : M (list string * list string) :=
  acc <- for_of InitReflector.dirs (InitReflector.ensure_dir root dry) ([], []) ;;
  for_of InitReflector.files (InitReflector.ensure_file root dry) acc.

Definition epilogue : M unit :=
  log_line (nl +:+ "Done.") ;;
  log_line (nl +:+ "Next steps:") ;;
  log_line "  1. Create the cron jobs via OpenClaw's cron tool" ;;
  log_line "  2. Open PRINCIPLES.md and add your first principle" ;;
  log_line "  3. Start logging outcomes after significant tasks".

(** The options of [init], resolved as its first lines do. *)
Definition resolved_root (E : env) (opts : InitReflector.Opts.t) : path :=
  default (cwd E) (InitReflector.Opts.root opts).

Definition resolved_timezone (E : env) (opts : InitReflector.Opts.t) : string :=
  Js.str_or (InitReflector.Opts.timezone opts) (InitReflector.detectTimezone E).

Definition resolved_daily (opts : InitReflector.Opts.t) : string :=
  Js.str_or (InitReflector.Opts.dailyTime opts) InitReflector.DEFAULTS.dailyTime.

Definition resolved_weekly (opts : InitReflector.Opts.t) : string :=
  Js.str_or (InitReflector.Opts.weeklyTime opts) InitReflector.DEFAULTS.weeklyTime.

(** [init], phase by phase. *)
Definition init_phases (E : env) (opts : InitReflector.Opts.t)
    : M InitReflector.report :=
  let dry := InitReflector.Opts.dryRun opts in
  _ <- lift (Time.parseTime (resolved_daily opts)) ;;
  _ <- lift (Time.parseTime (resolved_weekly opts)) ;;
  _ <- prologue dry ;;
  acc <- loops (resolved_root E opts) dry ;;
  p <- InitReflector.cron_prompts E (InitReflector.Opts.skipCron opts)
         (resolved_timezone E opts) (resolved_daily opts) (resolved_weekly opts) ;;
  _ <- epilogue ;;
  ret (InitReflector.Report (resolved_root E opts) (resolved_timezone E opts)
         (resolved_daily opts) (resolved_weekly opts) dry acc.1 acc.2 p).

(** The same options with another dry-run flag. *)
Definition set_dryRun (b : bool) (opts : InitReflector.Opts.t)
    : InitReflector.Opts.t :=
  InitReflector.Opts.Make
    (InitReflector.Opts.root opts) b (InitReflector.Opts.skipCron opts)
    (InitReflector.Opts.timezone opts) (InitReflector.Opts.dailyTime opts)
    (InitReflector.Opts.weeklyTime opts).

(** The two files [init] loads its prompts from. *)
Definition prompt_file (E : env) (name : string) : path :=
  path_join (InitReflector.PROMPTS_DIR E) [name].

Definition prompt_name (name : string) : Prop :=
  name = "daily-review.txt" \/ name = "weekly-refinement.txt".

End Logic.

(* ===================================================================== *)
(** * Sample inputs *)
(* ===================================================================== *)

Module Samples.
Import Js Fs.

(** A process running in the empty directory [/tmp/w]. *)
Definition sample_env : env :=
  Env ["tmp"; "w"] ["opt"; "reflector"; "scripts"] (Some "Asia/Bangkok")
      "2026-01-15T10:00:00.000Z".

Definition empty_workspace : node :=
  Dir {[ "tmp" := Dir {[ "w" := Dir ∅ ]} ]}.

Definition fresh_world : world := World empty_workspace [].

(** [{ task: 'test', quality: 'correction', principleCandidate: false }] *)
Definition correction_not_candidate : LogOutcome.Opts.t :=
  LogOutcome.Opts.Make (JStr "test") (JStr "correction") JUndefined
    JUndefined JUndefined JUndefined (JBool false) None.

(** [{ task: 'test', quality: 'edit', principleCandidate: true }] *)
Definition edit_candidate : LogOutcome.Opts.t :=
  LogOutcome.Opts.Make (JStr "test") (JStr "edit") JUndefined
    JUndefined JUndefined JUndefined (JBool true) None.

(** [{ task: 'test', quality: 'praise', timestamp: '', channel: '',
       delta: '', lesson: '' }] *)
Definition empty_optionals : LogOutcome.Opts.t :=
  LogOutcome.Opts.Make (JStr "test") (JStr "praise") (JStr "")
    (JStr "") (JStr "") (JStr "") JUndefined None.

(** [{ task: '  ', quality: 'praise' }] *)
Definition blank_task : LogOutcome.Opts.t :=
  LogOutcome.Opts.Make (JStr "  ") (JStr "praise") JUndefined
    JUndefined JUndefined JUndefined JUndefined None.

(** [{ task: 'test', quality: 'great' }] *)
Definition great_quality : LogOutcome.Opts.t :=
  LogOutcome.Opts.Make (JStr "test") (JStr "great") JUndefined
    JUndefined JUndefined JUndefined JUndefined None.

(** The skill installed under [/opt/reflector], with its two prompt
    files, next to the empty directory [/tmp/w]. *)
Definition installed : node :=
  Dir {[ "tmp" := Dir {[ "w" := Dir ∅ ]};
         "opt" := Dir {[ "reflector" := Dir {[
           "scripts" := Dir ∅;
           "prompts" := Dir {[ "daily-review.txt" := File "Reflector daily review";
                               "weekly-refinement.txt" := File "Reflector weekly refinement" ]} ]} ]} ]}.

Definition installed_world : world := World installed [].

(** The same, where [/tmp/w/memory] is there already. *)
Definition started : node :=
  Dir {[ "tmp" := Dir {[ "w" := Dir {[ "memory" := Dir ∅ ]} ]};
         "opt" := Dir {[ "reflector" := Dir {[
           "scripts" := Dir ∅;
           "prompts" := Dir {[ "daily-review.txt" := File "Reflector daily review";
                               "weekly-refinement.txt" := File "Reflector weekly refinement" ]} ]} ]} ]}.

Definition started_world : world := World started [].

(** The same as [installed], where the user has rewritten
    [/tmp/w/PRINCIPLES.md]. *)
Definition customised : node :=
  Dir {[ "tmp" := Dir {[ "w" := Dir {[ "PRINCIPLES.md" := File "# My Custom Principles" ]} ]};
         "opt" := Dir {[ "reflector" := Dir {[
           "scripts" := Dir ∅;
           "prompts" := Dir {[ "daily-review.txt" := File "Reflector daily review";
                               "weekly-refinement.txt" := File "Reflector weekly refinement" ]} ]} ]} ]}.

Definition customised_world : world := World customised [].

(** [init()] with no option, and with [dryRun], [dailyTime: '25:00'],
    [dailyTime: ''] in turn. *)
Definition no_options : InitReflector.Opts.t :=
  InitReflector.Opts.Make None false false None None None.

Definition dry_run : InitReflector.Opts.t :=
  InitReflector.Opts.Make None true false None None None.

Definition daily_at_25 : InitReflector.Opts.t :=
  InitReflector.Opts.Make None false false None (Some "25:00") None.

Definition daily_empty : InitReflector.Opts.t :=
  InitReflector.Opts.Make None false false None (Some "") None.

(** Two entries, as [buildEntry] makes them. *)
Definition first_entry : LogOutcome.entry :=
  LogOutcome.Entry (JStr "2026-01-15T10:00:00.000Z") (JStr "first") JNull
    (JStr "praise") JNull JNull (JBool false).

Definition second_entry : LogOutcome.entry :=
  LogOutcome.Entry (JStr "2026-01-15T10:05:00.000Z") (JStr "second")
    (JStr "telegram") (JStr "correction") (JStr "Wrong day") JNull (JBool true).

End Samples.

(* ===================================================================== *)
(** * The command lines of the two scripts *)
(* ===================================================================== *)

Module Cli.
Import Js.

(** What a script run from the shell reads besides [env]. *)
Record shell := Shell {
  process_argv : list string;          (* process.argv.slice(2) *)
  OPENCLAW_CHANNEL : option string;    (* process.env.OPENCLAW_CHANNEL *)
}.

(** A running process: the world, where [console.log] writes, and the
    error stream, where [console.error] writes. *)
Record process := Process {
  proc_world : world;
  stderr : list string;
}.

(** How a piece of a script ends: with a value, by [process.exit], or
    by an exception nobody catches. *)
Inductive step (A : Type) :=
| Value (a : A)
| Exit (code : Z)
| Uncaught (e : error).
Arguments Value {A} a.
Arguments Exit {A} code.
Arguments Uncaught {A} e.

Definition C (A : Type) : Type := process -> step A * process.

Definition console_log (line : string) : C unit :=
  fun p => (Value tt,
            Process (World (fs (proc_world p)) (console (proc_world p) ++ [line]))
                    (stderr p)).

Definition console_error (line : string) : C unit :=
  fun p => (Value tt, Process (proc_world p) (stderr p ++ [line])).

Definition process_exit {A} (code : Z) : C A :=
  fun p => (Exit code, p).

Definition cbind {A B} (m : C A) (k : A -> C B) : C B :=
  fun p =>
    match m p with
    | (Value a, p') => k a p'
    | (Exit c, p') => (Exit c, p')
    | (Uncaught e, p') => (Uncaught e, p')
    end.

Definition cret {A} (a : A) : C A := fun p => (Value a, p).

(** [args[++i]]: the next argument, [undefined] past the end. *)
Definition next_value (rest : list string) : jsval :=
  match rest with
  | v :: _ => JStr v
  | [] => JUndefined
  end.

Definition next_string (rest : list string) : option string :=
  match rest with
  | v :: _ => Some v
  | [] => None
  end.

(** ** log-outcome.js *)

Module LogOutcomeCli.

Definition help : string :=
"
Outcome Logger

Usage: node log-outcome.js --task <desc> --quality <type> [options]

Required:
  --task <description>    What was done
  --quality <type>        correction | edit | praise | silence | unknown

Optional:
  --delta <change>        What changed between output and final result
  --lesson <insight>      What this teaches about effectiveness
  --channel <name>        Communication channel (defaults to OPENCLAW_CHANNEL)
  --principle-candidate   Flag for principle extraction (auto-set for corrections)
".

Definition no_options : LogOutcome.Opts.t :=
  LogOutcome.Opts.Make JUndefined JUndefined JUndefined JUndefined JUndefined
    JUndefined JUndefined None.

(** The assignments of the [switch]. *)
Definition set_task (v : jsval) (o : LogOutcome.Opts.t) : LogOutcome.Opts.t :=
  LogOutcome.Opts.Make v (LogOutcome.Opts.quality o) (LogOutcome.Opts.timestamp o)
    (LogOutcome.Opts.channel o) (LogOutcome.Opts.delta o) (LogOutcome.Opts.lesson o)
    (LogOutcome.Opts.principleCandidate o) (LogOutcome.Opts.root o).

Definition set_quality (v : jsval) (o : LogOutcome.Opts.t) : LogOutcome.Opts.t :=
  LogOutcome.Opts.Make (LogOutcome.Opts.task o) v (LogOutcome.Opts.timestamp o)
    (LogOutcome.Opts.channel o) (LogOutcome.Opts.delta o) (LogOutcome.Opts.lesson o)
    (LogOutcome.Opts.principleCandidate o) (LogOutcome.Opts.root o).

Definition set_channel (v : jsval) (o : LogOutcome.Opts.t) : LogOutcome.Opts.t :=
  LogOutcome.Opts.Make (LogOutcome.Opts.task o) (LogOutcome.Opts.quality o)
    (LogOutcome.Opts.timestamp o) v (LogOutcome.Opts.delta o)
    (LogOutcome.Opts.lesson o) (LogOutcome.Opts.principleCandidate o)
    (LogOutcome.Opts.root o).

Definition set_delta (v : jsval) (o : LogOutcome.Opts.t) : LogOutcome.Opts.t :=
  LogOutcome.Opts.Make (LogOutcome.Opts.task o) (LogOutcome.Opts.quality o)
    (LogOutcome.Opts.timestamp o) (LogOutcome.Opts.channel o) v
    (LogOutcome.Opts.lesson o) (LogOutcome.Opts.principleCandidate o)
    (LogOutcome.Opts.root o).

Definition set_lesson (v : jsval) (o : LogOutcome.Opts.t) : LogOutcome.Opts.t :=
  LogOutcome.Opts.Make (LogOutcome.Opts.task o) (LogOutcome.Opts.quality o)
    (LogOutcome.Opts.timestamp o) (LogOutcome.Opts.channel o)
    (LogOutcome.Opts.delta o) v (LogOutcome.Opts.principleCandidate o)
    (LogOutcome.Opts.root o).

Definition set_principleCandidate (v : jsval) (o : LogOutcome.Opts.t)
    : LogOutcome.Opts.t :=
  LogOutcome.Opts.Make (LogOutcome.Opts.task o) (LogOutcome.Opts.quality o)
    (LogOutcome.Opts.timestamp o) (LogOutcome.Opts.channel o)
    (LogOutcome.Opts.delta o) (LogOutcome.Opts.lesson o) v
    (LogOutcome.Opts.root o).

(** The [for] loop over the arguments from index [i] on: [args] is what
    is left at [i].  An option that takes a value reads [args[++i]] and
    the loop goes on after it. *)
Fixpoint parse_loop (args : list string) (opts : LogOutcome.Opts.t)
    : C LogOutcome.Opts.t :=
  match args with
  | [] => cret opts
  | a :: rest =>
      let after := match rest with _ :: r => parse_loop r | [] => cret end in
      if String.eqb a "--task" then after (set_task (next_value rest) opts)
      else if String.eqb a "--quality" then after (set_quality (next_value rest) opts)
      else if String.eqb a "--delta" then after (set_delta (next_value rest) opts)
      else if String.eqb a "--lesson" then after (set_lesson (next_value rest) opts)
      else if String.eqb a "--channel" then after (set_channel (next_value rest) opts)
      else if String.eqb a "--principle-candidate"
      then parse_loop rest (set_principleCandidate (JBool true) opts)
      else if String.eqb a "--help" || String.eqb a "-h"
      then cbind (console_log help) (fun _ => process_exit 0)
      else cbind (console_error ("Unknown option: " +:+ a))
                 (fun _ => process_exit 1)
  end.

Definition parseArgs (S : shell) (argv : option (list string))
    : C LogOutcome.Opts.t :=
  let args := default (process_argv S) argv in
  cbind (parse_loop args no_options) (fun opts =>
  (* Fall back to environment variable for channel. *)
  if negb (truthy (LogOutcome.Opts.channel opts))
     && negb (String.eqb (default "" (OPENCLAW_CHANNEL S)) "")
  then cret (set_channel (JStr (default "" (OPENCLAW_CHANNEL S))) opts)
  else cret opts).

(** The body run when the file is the main module. *)
Definition main (E : env) (S : shell) : C unit :=
  cbind (parseArgs S None) (fun opts p =>
    match LogOutcome.log E opts (proc_world p) with
    | (Returns entry, w') =>
        cbind (console_log "Outcome logged.") (fun _ =>
          if truthy (LogOutcome.principleCandidate entry)
          then console_log "Flagged as principle candidate."
          else cret tt)
          (Process w' (stderr p))
    | (Throws err, w') =>
        cbind (console_error ("Error: " +:+ error_message err))
              (fun _ => process_exit 1)
              (Process w' (stderr p))
    end).

End LogOutcomeCli.

(** ** init-reflector.js *)

Module InitReflectorCli.

Definition help : string :=
"
Reflector System Initialization

Usage: node init-reflector.js [options]

Options:
  --dry-run           Preview without writing
  --timezone <tz>     Cron timezone (default: auto-detect)
  --daily-time HH:MM  Daily review time (default: 03:30)
  --weekly-time HH:MM Weekly review time (default: 03:00)
  --skip-cron         Skip cron prompt setup
  --help              Show this message
".

Definition no_options : InitReflector.Opts.t :=
  InitReflector.Opts.Make None false false None None None.

Definition set_dryRun (o : InitReflector.Opts.t) : InitReflector.Opts.t :=
  InitReflector.Opts.Make (InitReflector.Opts.root o) true
    (InitReflector.Opts.skipCron o) (InitReflector.Opts.timezone o)
    (InitReflector.Opts.dailyTime o) (InitReflector.Opts.weeklyTime o).

Definition set_skipCron (o : InitReflector.Opts.t) : InitReflector.Opts.t :=
  InitReflector.Opts.Make (InitReflector.Opts.root o)
    (InitReflector.Opts.dryRun o) true (InitReflector.Opts.timezone o)
    (InitReflector.Opts.dailyTime o) (InitReflector.Opts.weeklyTime o).

Definition set_timezone (v : option string) (o : InitReflector.Opts.t)
    : InitReflector.Opts.t :=
  InitReflector.Opts.Make (InitReflector.Opts.root o)
    (InitReflector.Opts.dryRun o) (InitReflector.Opts.skipCron o) v
    (InitReflector.Opts.dailyTime o) (InitReflector.Opts.weeklyTime o).

Definition set_dailyTime (v : option string) (o : InitReflector.Opts.t)
    : InitReflector.Opts.t :=
  InitReflector.Opts.Make (InitReflector.Opts.root o)
    (InitReflector.Opts.dryRun o) (InitReflector.Opts.skipCron o)
    (InitReflector.Opts.timezone o) v (InitReflector.Opts.weeklyTime o).

Definition set_weeklyTime (v : option string) (o : InitReflector.Opts.t)
    : InitReflector.Opts.t :=
  InitReflector.Opts.Make (InitReflector.Opts.root o)
    (InitReflector.Opts.dryRun o) (InitReflector.Opts.skipCron o)
    (InitReflector.Opts.timezone o) (InitReflector.Opts.dailyTime o) v.

Fixpoint parse_loop (args : list string) (opts : InitReflector.Opts.t)
    : C InitReflector.Opts.t :=
  match args with
  | [] => cret opts
  | a :: rest =>
      let after := match rest with _ :: r => parse_loop r | [] => cret end in
      if String.eqb a "--dry-run" then parse_loop rest (set_dryRun opts)
      else if String.eqb a "--skip-cron" then parse_loop rest (set_skipCron opts)
      else if String.eqb a "--timezone"
      then after (set_timezone (next_string rest) opts)
      else if String.eqb a "--daily-time"
      then after (set_dailyTime (next_string rest) opts)
      else if String.eqb a "--weekly-time"
      then after (set_weeklyTime (next_string rest) opts)
      else if String.eqb a "--help" || String.eqb a "-h"
      then cbind (console_log help) (fun _ => process_exit 0)
      else cbind (console_error ("Unknown option: " +:+ a))
                 (fun _ => process_exit 1)
  end.

Definition parseArgs (S : shell) (argv : option (list string))
    : C InitReflector.Opts.t :=
  parse_loop (default (process_argv S) argv) no_options.

(** [init(parseArgs())]: nothing catches what [init] throws. *)
Definition main (E : env) (S : shell) : C InitReflector.report :=
  cbind (parseArgs S None) (fun opts p =>
    match InitReflector.init E opts (proc_world p) with
    | (Returns rep, w') => (Value rep, Process w' (stderr p))
    | (Throws err, w') => (Uncaught err, Process w' (stderr p))
    end).

End InitReflectorCli.

End Cli.

(* ===================================================================== *)
(** * More vocabulary: whole runs *)
(* ===================================================================== *)

Module RunVocabulary.
Import Js Fs Logic.

(** Where a tracked directory or file is. *)
Definition dir_path (root : path) (rel : string) : path := path_join root [rel].

Definition file_path (root : path) (item : string * string) : path :=
  path_join root [item.1].

(** No regular file lies on the way from the filesystem root to
    [root/memory/reflector]. *)
Definition unobstructed (root : path) (n : node) : Prop :=
  forall q c, q `prefix_of` (root ++ ["memory"; "reflector"]) ->
              stat q n <> Some (IsFile c).

(** The two directories the tracked files are written in are there. *)
Definition parents_ready (root : path) (n : node) : Prop :=
  stat root n = Some IsDir
  /\ stat (root ++ ["memory"; "reflector"]) n = Some IsDir.


(** Both resolved times are valid. *)
Definition times_valid (opts : InitReflector.Opts.t) : Prop :=
  (exists a, Time.parseTime (resolved_daily opts) = Returns a)
  /\ (exists a, Time.parseTime (resolved_weekly opts) = Returns a).

End RunVocabulary.

(* ===================================================================== *)
(** * More sample inputs *)
(* ===================================================================== *)

Module MoreSamples.
Import Js Fs.


(** [Samples.sample_env] with the scripts installed elsewhere, where
    there are no prompt files. *)
Definition no_prompts_env : env :=
  Env ["tmp"; "w"] ["usr"; "lib"; "reflector"; "scripts"] None
      "2026-01-15T10:00:00.000Z".



(** [{ task: '  Draft email ', quality: 'praise', channel: 'telegram',
       lesson: 'Keep it shorter' }] *)
Definition praise_options : LogOutcome.Opts.t :=
  LogOutcome.Opts.Make (JStr "  Draft email ") (JStr "praise") JUndefined
    (JStr "telegram") JUndefined (JStr "Keep it shorter") JUndefined None.

End MoreSamples.

(* ===================================================================== *)
(** * More vocabulary: the outcome log *)
(* ===================================================================== *)

Module LogVocabulary.
Import Js Fs Vocabulary.

Definition text_or_absent (v : jsval) : Prop := v = JUndefined \/ is_text v.

Definition flag_or_absent (v : jsval) : Prop := v = JUndefined \/ is_flag v.

(** Options whose optional properties are absent or of the type the
    record layout gives them, as a command line produces them.  The
    task and the quality are left to [buildEntry] to check. *)
Definition textual (opts : LogOutcome.Opts.t) : Prop :=
  text_or_absent (LogOutcome.Opts.timestamp opts)
  /\ text_or_absent (LogOutcome.Opts.channel opts)
  /\ text_or_absent (LogOutcome.Opts.delta opts)
  /\ text_or_absent (LogOutcome.Opts.lesson opts)
  /\ flag_or_absent (LogOutcome.Opts.principleCandidate opts).

(** A log that is empty or ends with a line feed. *)
Definition terminated (text : string) : Prop :=
  text = "" \/ exists t, text = t +:+ nl.

(** Null, or a value [||] keeps. *)
Definition null_or_truthy (v : jsval) : Prop :=
  v = JNull \/ truthy v = true.

End LogVocabulary.

(* ===================================================================== *)
(** * More vocabulary: command lines *)
(* ===================================================================== *)

Module CliVocabulary.
Import Js Cli.

(** ** log-outcome.js *)

(** The options of log-outcome.js that take a value. *)
Inductive log_option := OTask | OQuality | ODelta | OLesson | OChannel.

Definition log_option_word (o : log_option) : string :=
  match o with
  | OTask => "--task"
  | OQuality => "--quality"
  | ODelta => "--delta"
  | OLesson => "--lesson"
  | OChannel => "--channel"
  end.

Definition log_option_eqb (a b : log_option) : bool :=
  match a, b with
  | OTask, OTask | OQuality, OQuality | ODelta, ODelta
  | OLesson, OLesson | OChannel, OChannel => true
  | _, _ => false
  end.

(** The property of the options object an option sets. *)
Definition log_field (o : log_option) (opts : LogOutcome.Opts.t) : jsval :=
  match o with
  | OTask => LogOutcome.Opts.task opts
  | OQuality => LogOutcome.Opts.quality opts
  | ODelta => LogOutcome.Opts.delta opts
  | OLesson => LogOutcome.Opts.lesson opts
  | OChannel => LogOutcome.Opts.channel opts
  end.

(** A piece of a well-formed command line: an option with the word
    that follows it, whatever that word is, or the flag. *)
Inductive log_arg :=
| Valued (o : log_option) (v : string)
| Candidate.

Definition log_arg_words (a : log_arg) : list string :=
  match a with
  | Valued o v => [log_option_word o; v]
  | Candidate => ["--principle-candidate"]
  end.

Definition log_words (items : list log_arg) : list string :=
  flat_map log_arg_words items.

(** The value given last for an option; [undefined] when the option
    is not given. *)
Definition given (o : log_option) (items : list log_arg) : jsval :=
  fold_left (fun acc a =>
               match a with
               | Valued o' v => if log_option_eqb o o' then JStr v else acc
               | Candidate => acc
               end) items JUndefined.

(** What a well-formed piece assigns: the [case] of its option. *)
Definition log_assign (opts : LogOutcome.Opts.t) (a : log_arg)
    : LogOutcome.Opts.t :=
  match a with
  | Valued OTask v => LogOutcomeCli.set_task (JStr v) opts
  | Valued OQuality v => LogOutcomeCli.set_quality (JStr v) opts
  | Valued ODelta v => LogOutcomeCli.set_delta (JStr v) opts
  | Valued OLesson v => LogOutcomeCli.set_lesson (JStr v) opts
  | Valued OChannel v => LogOutcomeCli.set_channel (JStr v) opts
  | Candidate => LogOutcomeCli.set_principleCandidate (JBool true) opts
  end.

Definition flagged (items : list log_arg) : bool :=
  existsb (fun a => match a with Candidate => true | Valued _ _ => false end)
          items.

(** The words the [switch] of log-outcome.js knows. *)
Definition log_known_words : list string :=
  ["--task"; "--quality"; "--delta"; "--lesson"; "--channel";
   "--principle-candidate"; "--help"; "-h"].

(** ** init-reflector.js *)

Inductive init_option := OTimezone | ODailyTime | OWeeklyTime.

Definition init_option_word (o : init_option) : string :=
  match o with
  | OTimezone => "--timezone"
  | ODailyTime => "--daily-time"
  | OWeeklyTime => "--weekly-time"
  end.

Definition init_option_eqb (a b : init_option) : bool :=
  match a, b with
  | OTimezone, OTimezone | ODailyTime, ODailyTime
  | OWeeklyTime, OWeeklyTime => true
  | _, _ => false
  end.

Definition init_field (o : init_option) (opts : InitReflector.Opts.t)
    : option string :=
  match o with
  | OTimezone => InitReflector.Opts.timezone opts
  | ODailyTime => InitReflector.Opts.dailyTime opts
  | OWeeklyTime => InitReflector.Opts.weeklyTime opts
  end.

Inductive init_arg :=
| Setting (o : init_option) (v : string)
| DryRun
| SkipCron.

Definition init_arg_words (a : init_arg) : list string :=
  match a with
  | Setting o v => [init_option_word o; v]
  | DryRun => ["--dry-run"]
  | SkipCron => ["--skip-cron"]
  end.

Definition init_words (items : list init_arg) : list string :=
  flat_map init_arg_words items.

Definition setting (o : init_option) (items : list init_arg) : option string :=
  fold_left (fun acc a =>
               match a with
               | Setting o' v => if init_option_eqb o o' then Some v else acc
               | _ => acc
               end) items None.

(** What a well-formed piece assigns: the [case] of its option. *)
Definition init_assign (opts : InitReflector.Opts.t) (a : init_arg)
    : InitReflector.Opts.t :=
  match a with
  | Setting OTimezone v => InitReflectorCli.set_timezone (Some v) opts
  | Setting ODailyTime v => InitReflectorCli.set_dailyTime (Some v) opts
  | Setting OWeeklyTime v => InitReflectorCli.set_weeklyTime (Some v) opts
  | DryRun => InitReflectorCli.set_dryRun opts
  | SkipCron => InitReflectorCli.set_skipCron opts
  end.


Definition asks_dry_run (items : list init_arg) : bool :=
  existsb (fun a => match a with DryRun => true | _ => false end) items.

Definition asks_skip_cron (items : list init_arg) : bool :=
  existsb (fun a => match a with SkipCron => true | _ => false end) items.

Definition init_known_words : list string :=
  ["--dry-run"; "--skip-cron"; "--timezone"; "--daily-time"; "--weekly-time";
   "--help"; "-h"].

(** What a process has printed: standard output, then standard error. *)
Definition stdout (p : process) : list string := console (proc_world p).

Definition disk (p : process) : Fs.node := fs (proc_world p).

(** The process after [console.log(line)], after [console.error(line)]. *)
Definition printed (line : string) (p : process) : process :=
  Process (World (disk p) (stdout p ++ [line])) (stderr p).

Definition complained (line : string) (p : process) : process :=
  Process (proc_world p) (stderr p ++ [line]).

(** How a part of a script that reads the command line may end. *)
Definition parse_outcome {A} (known : list string) (help : string)
    (args : list string) (p : process) (good : A -> Prop)
    (r : step A) (p' : process) : Prop :=
  match r with
  | Value o => p' = p /\ good o
  | Exit c =>
      (c = 0 /\ p' = printed help p)
      \/ (c = 1 /\ exists a, In a args /\ ~ In a known
                             /\ p' = complained ("Unknown option: " +:+ a) p)
  | Uncaught _ => False
  end.

End CliVocabulary.

(* ===================================================================== *)
(** * More vocabulary: what [init] prints *)
(* ===================================================================== *)

Module OutputVocabulary.
Import Js Fs Logic.

(** The line printed for a tracked entry, given the filesystem the run
    started on. *)
Definition path_line (n : node) (e : string * path) : string :=
  (if exists_path e.2 n then "  exists  " else "  create  ") +:+ e.1.

(** The first lines. *)
Definition banner (dry : bool) : list string :=
  ("Initializing Reflector system..." +:+ nl)
  :: (if dry then ["(dry run - no changes will be written)" +:+ nl] else []).

(** The last lines. *)
Definition closing : list string :=
  [ nl +:+ "Done.";
    nl +:+ "Next steps:";
    "  1. Create the cron jobs via OpenClaw's cron tool";
    "  2. Open PRINCIPLES.md and add your first principle";
    "  3. Start logging outcomes after significant tasks" ].

End OutputVocabulary.

(* ===================================================================== *)
(** * Time parsing: proofs *)
(* ===================================================================== *)

Module TimeProofs.
Import Js Time Vocabulary.

Lemma digit_not_minus c : is_digit c = true -> Ascii.eqb c "-" = false.
Proof.
  intros Hd. destruct (Ascii.eqb_spec c "-") as [->|]; [discriminate Hd|reflexivity].
Qed.

Lemma digit_not_plus c : is_digit c = true -> Ascii.eqb c "+" = false.
Proof.
  intros Hd. destruct (Ascii.eqb_spec c "+") as [->|]; [discriminate Hd|reflexivity].
Qed.

Lemma digit_not_space c : is_digit c = true -> is_space c = false.
Proof.
  unfold is_digit, is_space. intros Hd.
  apply andb_true_iff in Hd as [H1 H2].
  apply N.leb_le in H1. apply N.leb_le in H2.
  repeat (apply orb_false_iff; split); apply N.eqb_neq; lia.
Qed.

Lemma digit_value_range c : is_digit c = true -> 0 <= digit_value c <= 9.
Proof.
  unfold is_digit, digit_value. intros Hd.
  apply andb_true_iff in Hd as [H1 H2].
  apply N.leb_le in H1. apply N.leb_le in H2. lia.
Qed.

(** On a non-empty string of digits [parseInt] is the decimal value. *)
Lemma digits_prefix_all s acc :
  all_digits s ->
  digits_prefix s (Some acc)
  = Some (fold_left (fun a c => 10 * a + digit_value c) (chars s) acc).
Proof.
  revert acc. induction s as [|c s IH]; intros acc Hs; [reflexivity|].
  inversion Hs as [|? ? Hc Hs']; subst. simpl. rewrite Hc. simpl.
  apply IH. exact Hs'.
Qed.

Lemma parseInt_digits s :
  all_digits s -> s <> "" -> parseInt s = Num (decimal_value s).
Proof.
  intros Hs Hne. destruct s as [|c s]; [congruence|].
  inversion Hs as [|? ? Hc Hs']; subst.
  unfold parseInt. simpl. rewrite (digit_not_space _ Hc).
  rewrite (digit_not_minus _ Hc), (digit_not_plus _ Hc). simpl.
  rewrite Hc. simpl. rewrite (digits_prefix_all _ _ Hs'). reflexivity.
Qed.

Lemma fold_digits_nonneg l a :
  Forall (fun c => is_digit c = true) l -> 0 <= a ->
  0 <= fold_left (fun a c => 10 * a + digit_value c) l a.
Proof.
  revert a. induction l as [|c l IH]; intros a Hl Ha; simpl; [exact Ha|].
  inversion Hl as [|? ? Hc Hl']; subst. apply IH; [exact Hl'|].
  pose proof (digit_value_range c Hc). lia.
Qed.

Lemma decimal_value_nonneg s : all_digits s -> 0 <= decimal_value s.
Proof. intros Hs. apply fold_digits_nonneg; [exact Hs|lia]. Qed.

(** The shape of the strings the pattern accepts. *)
Lemma time_pattern_shape s hs ms :
  time_pattern s hs ms ->
  (exists h1 m1 m2,
      hs = String h1 "" /\ ms = String m1 (String m2 "")
      /\ s = String h1 (String ":" (String m1 (String m2 "")))
      /\ is_digit h1 = true /\ is_digit m1 = true /\ is_digit m2 = true)
  \/ (exists h1 h2 m1 m2,
      hs = String h1 (String h2 "") /\ ms = String m1 (String m2 "")
      /\ s = String h1 (String h2 (String ":" (String m1 (String m2 ""))))
      /\ is_digit h1 = true /\ is_digit h2 = true
      /\ is_digit m1 = true /\ is_digit m2 = true).
Proof.
  intros (Hs & Hh & Hm & Dh & Dm).
  destruct ms as [|m1 [|m2 [|? ?]]]; try discriminate Hm.
  inversion Dm as [|? ? Dm1 Dm']; subst. inversion Dm' as [|? ? Dm2 _]; subst.
  destruct Hh as [Hh|Hh].
  - destruct hs as [|h1 [|? ?]]; try discriminate Hh.
    inversion Dh as [|? ? Dh1 _]; subst.
    left. exists h1, m1, m2. auto 10.
  - destruct hs as [|h1 [|h2 [|? ?]]]; try discriminate Hh.
    inversion Dh as [|? ? Dh1 Dh']; subst. inversion Dh' as [|? ? Dh2 _]; subst.
    right. exists h1, h2, m1, m2. auto 10.
Qed.

Lemma exec_time_re_match s hs ms :
  time_pattern s hs ms -> exec_anchored time_re s = Some [s; hs; ms].
Proof.
  intros H. apply time_pattern_shape in H
    as [(h1 & m1 & m2 & -> & -> & -> & D1 & D2 & D3)
       |(h1 & h2 & m1 & m2 & -> & -> & -> & D1 & D2 & D3 & D4)].
  - unfold exec_anchored, time_re. cbn. rewrite D1. cbn. rewrite D2. cbn.
    rewrite D3. cbn. reflexivity.
  - unfold exec_anchored, time_re. cbn. rewrite D1. cbn. rewrite D2. cbn.
    rewrite D3. cbn. rewrite D4. cbn. 
    reflexivity.
Qed.

(** Case analysis on the tests the matcher performs. *)
Ltac split_tests H :=
  repeat match type of H with
  | context [is_digit ?c] =>
      let D := fresh "D" in destruct (is_digit c) eqn:D; cbn in H
  | context [Ascii.eqb ?c ?a] =>
      let Q := fresh "Q" in
      destruct (Ascii.eqb_spec c a) as [Q|Q]; [try subst c|]; cbn in H
  end.

Lemma exec_time_re_inv s m :
  exec_anchored time_re s = Some m ->
  exists hs ms, time_pattern s hs ms /\ m = [s; hs; ms].
Proof.
  unfold exec_anchored, time_re. intros H.
  destruct s as [|c1 [|c2 [|c3 [|c4 [|c5 [|c6 s]]]]]]; cbn in H;
    split_tests H; try discriminate H.
  all: injection H as <-.
  all: try (eexists (String _ ""), (String _ (String _ ""));
            split; [|reflexivity];
            unfold time_pattern, all_digits; cbn;
            repeat split; auto; fail).
  all: try (eexists (String _ (String _ "")), (String _ (String _ ""));
            split; [|reflexivity];
            unfold time_pattern, all_digits; cbn;
            repeat split; auto; fail).
Qed.

(** C7. For every string: when it is a one- or two-digit hour, a colon
    and a two-digit minute, [parseTime] returns exactly the pair (hour,
    minute) if the hour is in 0..23 and the minute in 0..59, throws the
    invalid-hour error if the hour exceeds 23, and the invalid-minute
    error if the hour is in range and the minute exceeds 59; when the
    string has no such shape it throws the invalid-format error. *)
Theorem parseTime_spec (s : string) :
  (forall hs ms, time_pattern s hs ms ->
     let h := decimal_value hs in
     let m := decimal_value ms in
     (0 <= h <= 23 -> 0 <= m <= 59 -> parseTime s = Returns (Num h, Num m))
     /\ (23 < h -> parseTime s = Throws (InvalidHour (Num h)))
     /\ (0 <= h <= 23 -> 59 < m -> parseTime s = Throws (InvalidMinute (Num m))))
  /\ ((forall hs ms, ~ time_pattern s hs ms) ->
      parseTime s = Throws (InvalidFormat s)).
Proof.
  split.
  - intros hs ms Hp h m.
    assert (Hh : parseInt hs = Num h).
    { apply parseInt_digits; [apply Hp|].
      destruct Hp as (_ & [L|L] & _); intros ->; discriminate L. }
    assert (Hm : parseInt ms = Num m).
    { apply parseInt_digits; [apply Hp|].
      destruct Hp as (_ & _ & L & _); intros ->; discriminate L. }
    unfold parseTime. rewrite (exec_time_re_match _ _ _ Hp).
    unfold group. cbn [nth]. rewrite Hh, Hm.
    unfold num_gt, num_lt.
    repeat split.
    + intros [H0 H23] [M0 M59].
      destruct (h <? 0) eqn:A; [apply Z.ltb_lt in A; lia|].
      destruct (23 <? h) eqn:B; [apply Z.ltb_lt in B; lia|].
      destruct (m <? 0) eqn:C; [apply Z.ltb_lt in C; lia|].
      destruct (59 <? m) eqn:D; [apply Z.ltb_lt in D; lia|].
      reflexivity.
    + intros H23.
      destruct (23 <? h) eqn:B; [|apply Z.ltb_ge in B; lia].
      rewrite orb_true_r. reflexivity.
    + intros [H0 H23] M59.
      destruct (h <? 0) eqn:A; [apply Z.ltb_lt in A; lia|].
      destruct (23 <? h) eqn:B; [apply Z.ltb_lt in B; lia|].
      destruct (59 <? m) eqn:D; [|apply Z.ltb_ge in D; lia].
      cbn. rewrite orb_true_r. reflexivity.
  - intros Hno. unfold parseTime.
    destruct (exec_anchored time_re s) as [m|] eqn:Hx; [|reflexivity].
    apply exec_time_re_inv in Hx as (hs & ms & Hp & _).
    destruct (Hno hs ms Hp).
Qed.

Lemma parseTime_spec_witness :
  parseTime "03:30" = Returns (Num 3, Num 30)
  /\ parseTime "25:00" = Throws (InvalidHour (Num 25))
  /\ parseTime "12:60" = Throws (InvalidMinute (Num 60))
  /\ parseTime "abc" = Throws (InvalidFormat "abc").
Proof.
  assert (P : forall a b c d,
             is_digit a = true -> is_digit b = true ->
             is_digit c = true -> is_digit d = true ->
             time_pattern (String a (String b (String ":" (String c (String d "")))))
                          (String a (String b "")) (String c (String d ""))).
  { intros a b c d Da Db Dc Dd. unfold time_pattern, all_digits. cbn.
    repeat split; auto. }
  split; [|split; [|split]].
  - apply (proj1 (parseTime_spec "03:30") "03" "30");
      [apply P; reflexivity | vm_compute; split; discriminate
      | vm_compute; split; discriminate].
  - apply (proj1 (parseTime_spec "25:00") "25" "00");
      [apply P; reflexivity | reflexivity].
  - apply (proj1 (parseTime_spec "12:60") "12" "60");
      [apply P; reflexivity | vm_compute; split; discriminate | reflexivity].
  - apply (proj2 (parseTime_spec "abc")).
    intros hs ms H. apply time_pattern_shape in H
      as [(? & ? & ? & _ & _ & Q & _)|(? & ? & ? & ? & _ & _ & Q & _)];
      discriminate Q.
Defined.

(** A successful parse yields two integers in range. *)
Lemma parseTime_returns s h m :
  parseTime s = Returns (h, m) ->
  exists H M, h = Num H /\ m = Num M /\ 0 <= H <= 23 /\ 0 <= M <= 59.
Proof.
  unfold parseTime. intros Hr.
  destruct (exec_anchored time_re s) as [g|] eqn:Hx; [|discriminate Hr].
  apply exec_time_re_inv in Hx as (hs & ms & Hp & ->).
  unfold group in Hr. cbn [nth] in Hr.
  assert (Hh : parseInt hs = Num (decimal_value hs)).
  { apply parseInt_digits; [apply Hp|].
    destruct Hp as (_ & [L|L] & _); intros ->; discriminate L. }
  assert (Hm : parseInt ms = Num (decimal_value ms)).
  { apply parseInt_digits; [apply Hp|].
    destruct Hp as (_ & _ & L & _); intros ->; discriminate L. }
  rewrite Hh, Hm in Hr. unfold num_gt, num_lt in Hr.
  pose proof (decimal_value_nonneg hs ltac:(apply Hp)) as N1.
  pose proof (decimal_value_nonneg ms ltac:(apply Hp)) as N2.
  destruct (decimal_value hs <? 0) eqn:A; [discriminate Hr|].
  destruct (23 <? decimal_value hs) eqn:B; [discriminate Hr|].
  destruct (decimal_value ms <? 0) eqn:C; [discriminate Hr|].
  destruct (59 <? decimal_value ms) eqn:D; [discriminate Hr|].
  cbn in Hr. injection Hr as <- <-.
  apply Z.ltb_ge in B. apply Z.ltb_ge in D.
  eexists _, _. repeat split; try reflexivity; lia.
Qed.

(** C8. For every time string that parses to hour [H] and minute [M],
    [timeToCron] returns [M H * * *] for the daily frequency and
    [M H * * 0] for the weekly one, the two numbers in decimal. *)
Theorem timeToCron_spec (time : string) (h m : jsnum) :
  parseTime time = Returns (h, m) ->
  exists H M,
    h = Num H /\ m = Num M
    /\ timeToCron time "daily"
       = Returns (string_of_Z M +:+ " " +:+ string_of_Z H +:+ " * * *")
    /\ timeToCron time "weekly"
       = Returns (string_of_Z M +:+ " " +:+ string_of_Z H +:+ " * * 0").
Proof.
  intros Hr. destruct (parseTime_returns _ _ _ Hr) as (H & M & -> & -> & _).
  exists H, M. unfold timeToCron. rewrite Hr. cbn. auto.
Qed.

Lemma timeToCron_spec_witness :
  timeToCron "03:30" "daily" = Returns "30 3 * * *"
  /\ timeToCron "03:00" "weekly" = Returns "0 3 * * 0".
Proof.
  split.
  - destruct (timeToCron_spec "03:30" (Num 3) (Num 30) eq_refl)
      as (H & M & EH & EM & D & _).
    injection EH as <-. injection EM as <-. exact D.
  - destruct (timeToCron_spec "03:00" (Num 3) (Num 0) eq_refl)
      as (H & M & EH & EM & _ & W).
    injection EH as <-. injection EM as <-. exact W.
Defined.

End TimeProofs.

(* ===================================================================== *)
(** * Entry construction: proofs *)
(* ===================================================================== *)

Module EntryProofs.
Import Js Vocabulary LogOutcome.

Lemma trim_start_blank s : blank s -> trim_start s = "".
Proof.
  induction s as [|c s IH]; intros Hb; [reflexivity|].
  inversion Hb as [|? ? Hc Hs]; subst. simpl. rewrite Hc. apply IH, Hs.
Qed.

Lemma trim_start_not_blank s :
  ~ blank s -> exists c t, trim_start s = String c t /\ is_space c = false.
Proof.
  induction s as [|c s IH]; intros Hn.
  - destruct Hn. constructor.
  - simpl. destruct (is_space c) eqn:Hc.
    + apply IH. intros Hs. apply Hn. constructor; assumption.
    + exists c, s. auto.
Qed.

Lemma trim_end_keeps_head c t :
  is_space c = false -> trim_end (String c t) <> "".
Proof.
  intros Hc. simpl. destruct (trim_end t); [rewrite Hc|]; discriminate.
Qed.

(** [s.trim()] is empty exactly when [s] is blank. *)
Lemma trim_empty_iff s : trim s = "" <-> blank s.
Proof.
  unfold trim. split.
  - intros Ht. destruct (decide (Forall (fun c => is_space c = true) (chars s)))
      as [Hb|Hn]; [exact Hb|].
    destruct (trim_start_not_blank s Hn) as (c & t & E & Hc).
    rewrite E in Ht. destruct (trim_end_keeps_head c t Hc Ht).
  - intros Hb. rewrite (trim_start_blank s Hb). reflexivity.
Qed.

Lemma truthy_str s : truthy (JStr s) = true <-> s <> "".
Proof.
  simpl. destruct (String.eqb_spec s ""); simpl; split; congruence.
Qed.

Lemma task_guard_rejected v : task_rejected v -> task_guard v = true.
Proof.
  unfold task_guard. destruct v as [| | b | n | s]; simpl; intros H;
    try reflexivity; try (destruct b; reflexivity);
    try (destruct n as [|z]; [reflexivity|destruct (z =? 0); reflexivity]).
  apply trim_empty_iff in H. rewrite H. simpl. apply orb_true_r.
Qed.

Lemma task_guard_accepted v : task_accepted v -> task_guard v = false.
Proof.
  intros (s & -> & Hn). unfold task_guard. cbn [is_string method_trim negb orb].
  assert (Ht : trim s <> "") by (intros Ht; apply Hn, trim_empty_iff, Ht).
  assert (Hs : s <> "") by (intros ->; apply Ht; reflexivity).
  apply truthy_str in Ht. apply truthy_str in Hs. rewrite Ht, Hs. reflexivity.
Qed.

Lemma quality_guard_known v : quality_known v -> quality_guard v = false.
Proof.
  intros (q & -> & Hq). unfold quality_guard.
  repeat (destruct Hq as [<-|Hq]; [reflexivity|]). destruct Hq.
Qed.

Lemma quality_guard_unknown v : ~ quality_known v -> quality_guard v = true.
Proof.
  intros Hn. unfold quality_guard.
  destruct (QUALITY_TYPES_has v) eqn:Hh; [|apply orb_true_r].
  destruct Hn. destruct v as [| | | |s]; try discriminate Hh.
  exists s. split; [reflexivity|].
  unfold QUALITY_TYPES_has in Hh. apply existsb_exists in Hh as (x & Hx & E).
  apply String.eqb_eq in E. subst x. exact Hx.
Qed.

(** What [buildEntry] returns on an accepted input. *)
Lemma buildEntry_accepted E opts :
  task_accepted (Opts.task opts) -> quality_known (Opts.quality opts) ->
  buildEntry E opts = Returns {|
    timestamp := js_or (Opts.timestamp opts) (JStr (now_iso E));
    task := method_trim (Opts.task opts);
    channel := js_or (Opts.channel opts) JNull;
    outputQuality := Opts.quality opts;
    delta := js_or (Opts.delta opts) JNull;
    lesson := js_or (Opts.lesson opts) JNull;
    principleCandidate :=
      js_or (Opts.principleCandidate opts)
            (JBool (strict_eq (Opts.quality opts) (JStr "correction")));
  |}.
Proof.
  intros Ht Hq. unfold buildEntry.
  fold (task_guard (Opts.task opts)). rewrite (task_guard_accepted _ Ht).
  fold (quality_guard (Opts.quality opts)). rewrite (quality_guard_known _ Hq).
  reflexivity.
Qed.

Lemma task_accepted_test : task_accepted (JStr "test").
Proof.
  exists "test". split; [reflexivity|].
  intros Hb. inversion Hb as [|? ? Hc _]. discriminate Hc.
Qed.

Lemma quality_known_of q :
  In q QUALITY_TYPES -> quality_known (JStr q).
Proof. intros Hq. exists q. auto. Qed.

(** C1, as the code has it. For every input with an accepted task and
    a quality among the five values, the built entry's
    [principleCandidate] is the caller's value when that value is truthy
    (an explicit [true]); otherwise, the property being absent or an
    explicit [false], it is [true] exactly when the quality is
    [correction]. *)
Theorem buildEntry_principleCandidate (E : env) (opts : Opts.t) :
  task_accepted (Opts.task opts) ->
  quality_known (Opts.quality opts) ->
  exists e,
    buildEntry E opts = Returns e
    /\ (truthy (Opts.principleCandidate opts) = true ->
        principleCandidate e = Opts.principleCandidate opts)
    /\ (truthy (Opts.principleCandidate opts) = false ->
        (Opts.quality opts = JStr "correction" ->
         principleCandidate e = JBool true)
        /\ (Opts.quality opts <> JStr "correction" ->
            principleCandidate e = JBool false)).
Proof.
  intros Ht Hq. eexists. split; [apply buildEntry_accepted; assumption|].
  cbn [principleCandidate]. unfold js_or. split.
  - intros ->. reflexivity.
  - intros ->. split.
    + intros ->. reflexivity.
    + intros Hne. destruct Hq as (q & Eq & _). rewrite Eq in Hne |- *.
      cbn. destruct (String.eqb_spec q "correction") as [->|]; congruence.
Qed.

Lemma buildEntry_principleCandidate_witness :
  exists e,
    buildEntry Samples.sample_env Samples.edit_candidate = Returns e
    /\ principleCandidate e = JBool true.
Proof.
  destruct (buildEntry_principleCandidate Samples.sample_env
              Samples.edit_candidate task_accepted_test
              (quality_known_of "edit" ltac:(simpl; auto)))
    as (e & He & Ht & _).
  exists e. split; [exact He|]. apply Ht. reflexivity.
Defined.

(** C1 as stated fails: an explicit [false] together with the quality
    [correction] gives an entry flagged [true]. *)
Lemma explicit_false_is_overridden :
  Opts.principleCandidate Samples.correction_not_candidate = JBool false
  /\ Opts.quality Samples.correction_not_candidate = JStr "correction"
  /\ exists e,
       buildEntry Samples.sample_env Samples.correction_not_candidate = Returns e
       /\ principleCandidate e = JBool true
       /\ principleCandidate e
          <> Opts.principleCandidate Samples.correction_not_candidate.
Proof.
  split; [reflexivity|]. split; [reflexivity|].
  eexists. split; [reflexivity|]. split; [reflexivity|]. discriminate.
Qed.

(** C10. For every accepted input, a [channel], [delta] or [lesson]
    given as the empty string is stored as [null], as when the property
    is missing, and a [timestamp] given as the empty string is replaced
    by the current instant, as when it is missing. *)
Theorem buildEntry_empty_string_is_missing (E : env) (opts : Opts.t) :
  task_accepted (Opts.task opts) ->
  quality_known (Opts.quality opts) ->
  exists e,
    buildEntry E opts = Returns e
    /\ (Opts.channel opts = JStr "" \/ Opts.channel opts = JUndefined ->
        channel e = JNull)
    /\ (Opts.delta opts = JStr "" \/ Opts.delta opts = JUndefined ->
        delta e = JNull)
    /\ (Opts.lesson opts = JStr "" \/ Opts.lesson opts = JUndefined ->
        lesson e = JNull)
    /\ (Opts.timestamp opts = JStr "" \/ Opts.timestamp opts = JUndefined ->
        timestamp e = JStr (now_iso E)).
Proof.
  intros Ht Hq. eexists. split; [apply buildEntry_accepted; assumption|].
  cbn [channel delta lesson timestamp].
  repeat split; intros [->| ->]; reflexivity.
Qed.

Lemma buildEntry_empty_string_is_missing_witness :
  exists e,
    buildEntry Samples.sample_env Samples.empty_optionals = Returns e
    /\ channel e = JNull /\ delta e = JNull /\ lesson e = JNull
    /\ timestamp e = JStr "2026-01-15T10:00:00.000Z".
Proof.
  destruct (buildEntry_empty_string_is_missing Samples.sample_env
              Samples.empty_optionals task_accepted_test
              (quality_known_of "praise" ltac:(simpl; auto)))
    as (e & He & Hc & Hd & Hl & Hts).
  exists e. split; [exact He|].
  split; [apply Hc; left; reflexivity|].
  split; [apply Hd; left; reflexivity|].
  split; [apply Hl; left; reflexivity|].
  apply Hts. left. reflexivity.
Defined.

(** Every task is either accepted or rejected. *)
Lemma task_accepted_or_rejected v : task_accepted v \/ task_rejected v.
Proof.
  destruct v as [| | | |s]; try (right; exact I).
  destruct (decide (Forall (fun c => is_space c = true) (chars s))) as [Hb|Hn].
  - right. exact Hb.
  - left. exists s. auto.
Qed.

(** The text shown for the offending quality is the quality itself when
    it is a string. *)
Lemma shown_quality_string s : to_string (js_or (JStr s) (JStr "")) = s.
Proof.
  unfold js_or. cbn. destruct (String.eqb_spec s "") as [->|]; reflexivity.
Qed.

(** C5. For every input whose task is missing, not a string, empty or
    blank, the combined [log] throws the missing-task error; for every
    input with an accepted task whose quality is not one of the five
    values it throws the invalid-quality error, whose message lists the
    five values and the offending value.  In both cases nothing was
    appended: the world, and so the outcome log, is as it was. *)
Theorem log_rejects_invalid_input (E : env) (opts : Opts.t) (w : world) :
  (task_rejected (Opts.task opts) ->
     log E opts w = (Throws MissingTask, w))
  /\ (task_accepted (Opts.task opts) ->
      ~ quality_known (Opts.quality opts) ->
      let got := to_string (js_or (Opts.quality opts) (JStr "")) in
      log E opts w = (Throws (InvalidQuality QUALITY_TYPES got), w)
      /\ error_message (InvalidQuality QUALITY_TYPES got)
         = "--quality must be one of: correction, edit, praise, silence, unknown (got: "
           +:+ dquote +:+ got +:+ dquote +:+ ")"
      /\ (forall s, Opts.quality opts = JStr s -> got = s)).
Proof.
  split.
  - intros Hr. unfold log, bind, buildEntry.
    fold (task_guard (Opts.task opts)). rewrite (task_guard_rejected _ Hr).
    reflexivity.
  - intros Ha Hq got. split; [|split].
    + unfold log, bind, buildEntry.
      fold (task_guard (Opts.task opts)). rewrite (task_guard_accepted _ Ha).
      fold (quality_guard (Opts.quality opts)).
      rewrite (quality_guard_unknown _ Hq). reflexivity.
    + reflexivity.
    + intros s Hs. subst got. rewrite Hs. apply shown_quality_string.
Qed.

Lemma log_rejects_invalid_input_witness :
  log Samples.sample_env Samples.blank_task Samples.fresh_world
    = (Throws MissingTask, Samples.fresh_world)
  /\ log Samples.sample_env Samples.great_quality Samples.fresh_world
    = (Throws (InvalidQuality QUALITY_TYPES "great"), Samples.fresh_world).
Proof.
  split.
  - apply (proj1 (log_rejects_invalid_input Samples.sample_env
                    Samples.blank_task Samples.fresh_world)).
    repeat constructor.
  - apply (proj2 (log_rejects_invalid_input Samples.sample_env
                    Samples.great_quality Samples.fresh_world)
             task_accepted_test).
    intros (q & Eq & Hq). injection Eq as <-.
    repeat (destruct Hq as [Hq|Hq]; [discriminate Hq|]). destruct Hq.
Defined.

End EntryProofs.

(* ===================================================================== *)
(** * The filesystem: proofs *)
(* ===================================================================== *)

Module FsProofs.
Import Fs.

Lemma stat_cons_dir seg p es :
  stat (seg :: p) (Dir es) = es !! seg ≫= stat p.
Proof. unfold stat. simpl. destruct (es !! seg); reflexivity. Qed.

Lemma stat_empty_dir q k :
  stat q (Dir ∅) = Some k -> q = [] /\ k = IsDir.
Proof.
  destruct q as [|seg q]; [intros [= <-]; auto|].
  rewrite stat_cons_dir, lookup_empty. discriminate.
Qed.

Lemma exists_path_true p n : exists_path p n = true <-> is_Some (stat p n).
Proof. unfold exists_path. apply bool_decide_eq_true. Qed.

Lemma exists_path_false p n : exists_path p n = false <-> stat p n = None.
Proof.
  unfold exists_path. rewrite bool_decide_eq_false, <- eq_None_not_Some.
  reflexivity.
Qed.

(** ** Recursive directory creation *)

(** What exists keeps its kind and content. *)
Lemma mkdir_p_keeps p : forall n n' q k,
  mkdir_p p n = inr n' -> stat q n = Some k -> stat q n' = Some k.
Proof.
  induction p as [|seg p IH]; intros n n' q k Hm Hq.
  - destruct n; simplify_eq/=. assumption.
  - destruct n as [c|es]; [discriminate Hm|]. simpl in Hm.
    destruct (mkdir_p p (default (Dir ∅) (es !! seg))) as [e|child] eqn:Hc;
      [discriminate Hm|]. injection Hm as <-.
    destruct q as [|s q]; [exact Hq|].
    rewrite stat_cons_dir in Hq |- *.
    destruct (decide (seg = s)) as [->|Hne].
    + rewrite lookup_insert_eq. simpl.
      destruct (es !! s) as [c0|] eqn:Hs; [|discriminate Hq]. simpl in Hq, Hc.
      eapply IH; eassumption.
    + rewrite lookup_insert_ne by exact Hne. exact Hq.
Qed.

(** What appears is a directory on the way to [p]. *)
Lemma mkdir_p_new p : forall n n' q k,
  mkdir_p p n = inr n' -> stat q n = None -> stat q n' = Some k ->
  k = IsDir /\ q `prefix_of` p.
Proof.
  induction p as [|seg p IH]; intros n n' q k Hm Hq Hq'.
  - destruct n; simplify_eq/=.
  - destruct n as [c|es]; [discriminate Hm|]. simpl in Hm.
    destruct (mkdir_p p (default (Dir ∅) (es !! seg))) as [e|child] eqn:Hc;
      [discriminate Hm|]. injection Hm as <-.
    destruct q as [|s q]; [discriminate Hq|].
    rewrite stat_cons_dir in Hq, Hq'.
    destruct (decide (seg = s)) as [->|Hne].
    + rewrite lookup_insert_eq in Hq'. simpl in Hq'.
      assert (G : k = IsDir /\ q `prefix_of` p).
      { destruct (stat q (default (Dir ∅) (es !! s))) as [k0|] eqn:H0.
        - pose proof (mkdir_p_keeps _ _ _ _ _ Hc H0) as H1.
          rewrite H1 in Hq'. injection Hq' as <-.
          destruct (es !! s) as [c0|] eqn:Hs; simpl in *.
          + congruence.
          + apply stat_empty_dir in H0 as [-> ->].
            split; [reflexivity|apply prefix_nil].
        - eapply IH; eassumption. }
      destruct G as [-> G]. split; [reflexivity|].
      apply prefix_cons, G.
    + rewrite lookup_insert_ne in Hq' by exact Hne. congruence.
Qed.

(** Afterwards [p] is a directory. *)
Lemma mkdir_p_made p : forall n n',
  mkdir_p p n = inr n' -> stat p n' = Some IsDir.
Proof.
  induction p as [|seg p IH]; intros n n' Hm.
  - destruct n; simplify_eq/=. reflexivity.
  - destruct n as [c|es]; [discriminate Hm|]. simpl in Hm.
    destruct (mkdir_p p (default (Dir ∅) (es !! seg))) as [e|child] eqn:Hc;
      [discriminate Hm|]. injection Hm as <-.
    rewrite stat_cons_dir, lookup_insert_eq. simpl. eapply IH, Hc.
Qed.

(** In an empty directory every path can be created. *)
Lemma mkdir_p_in_empty p : exists n', mkdir_p p (Dir ∅) = inr n'.
Proof.
  induction p as [|seg p [n' IH]]; [eexists; reflexivity|].
  simpl. rewrite lookup_empty. simpl. rewrite IH. eexists; reflexivity.
Qed.

(** Below an existing directory [r] with no entry [seg], the path
    [r/seg/rest] can be created. *)
Lemma mkdir_p_below r seg rest : forall n,
  stat r n = Some IsDir -> stat (r ++ [seg]) n = None ->
  exists n', mkdir_p (r ++ seg :: rest) n = inr n'.
Proof.
  induction r as [|s r IH]; intros n Hr Hs.
  - destruct n as [c|es]; [discriminate Hr|]. simpl in *.
    rewrite stat_cons_dir in Hs.
    destruct (es !! seg) as [c0|] eqn:E; [discriminate Hs|]. simpl.
    destruct (mkdir_p_in_empty rest) as [n' ->]. eexists; reflexivity.
  - destruct n as [c|es]; [discriminate Hr|]. simpl in *.
    rewrite stat_cons_dir in Hr, Hs.
    destruct (es !! s) as [c0|] eqn:E; [|discriminate Hr]. simpl in *.
    destruct (IH c0 Hr Hs) as [n' ->]. eexists; reflexivity.
Qed.

(** ** Writing a file *)

Lemma put_file_other f p : forall n n' q,
  put_file f p n = inr n' -> q <> p -> stat q n' = stat q n.
Proof.
  induction p as [|seg p IH]; intros n n' q Hp Hne.
  - destruct n; simplify_eq/=. destruct q as [|s q]; [congruence|reflexivity].
  - destruct n as [c|es]; [discriminate Hp|]. simpl in Hp.
    assert (Hn' : exists child, n' = Dir (<[seg := child]> es)
                   /\ (forall q', q' <> p ->
                         stat q' child = es !! seg ≫= stat q')).
    { destruct (es !! seg) as [c0|] eqn:E.
      - destruct (put_file f p c0) as [e|c1] eqn:Hc; [discriminate Hp|].
        injection Hp as <-. exists c1. split; [reflexivity|].
        intros q' Hq'. simpl. eapply IH; eassumption.
      - destruct p as [|? ?]; [|discriminate Hp]. injection Hp as <-.
        eexists. split; [reflexivity|].
        intros [|? ?] Hq'; [congruence|reflexivity]. }
    destruct Hn' as (child & -> & Hchild).
    destruct q as [|s q]; [reflexivity|].
    rewrite !stat_cons_dir.
    destruct (decide (seg = s)) as [->|Hs].
    + rewrite lookup_insert_eq. simpl. apply Hchild. congruence.
    + rewrite lookup_insert_ne by exact Hs. reflexivity.
Qed.

Lemma put_file_at f p : forall n n',
  put_file f p n = inr n' ->
  stat p n <> Some IsDir
  /\ stat p n' = Some (IsFile (f (content_at p n))).
Proof.
  unfold content_at.
  induction p as [|seg p IH]; intros n n' Hp.
  - destruct n; simplify_eq/=. split; [discriminate|reflexivity].
  - destruct n as [c|es]; [discriminate Hp|]. simpl in Hp.
    destruct (es !! seg) as [c0|] eqn:E.
    + destruct (put_file f p c0) as [e|c1] eqn:Hc; [discriminate Hp|].
      injection Hp as <-. rewrite !stat_cons_dir, E, lookup_insert_eq. simpl.
      eapply IH, Hc.
    + destruct p as [|? ?]; [|discriminate Hp]. injection Hp as <-.
      rewrite !stat_cons_dir, E, lookup_insert_eq. simpl.
      split; [discriminate|reflexivity].
Qed.

(** A file is written in an existing directory only. *)
Lemma put_file_parent f d name : forall n n',
  put_file f (d ++ [name]) n = inr n' -> stat d n = Some IsDir.
Proof.
  induction d as [|s d IH]; intros n n' Hp.
  - destruct n as [c|es]; [discriminate Hp|reflexivity].
  - destruct n as [c|es]; [discriminate Hp|]. cbn [app put_file] in Hp.
    rewrite stat_cons_dir.
    destruct (es !! s) as [c0|] eqn:Es.
    + destruct (put_file f (d ++ [name]) c0) as [|c1] eqn:Hc1;
        [discriminate Hp|]. cbn. eapply IH, Hc1.
    + destruct d; discriminate Hp.
Qed.

(** A file can be written in an existing directory, unless its name is
    that of a directory. *)
Lemma put_file_in_dir f d name : forall n,
  stat d n = Some IsDir -> stat (d ++ [name]) n <> Some IsDir ->
  exists n', put_file f (d ++ [name]) n = inr n'.
Proof.
  induction d as [|s d IH]; intros n Hd Hn.
  - destruct n as [c|es]; [discriminate Hd|]. simpl in *.
    rewrite stat_cons_dir in Hn.
    destruct (es !! name) as [[c0|es0]|] eqn:E; simpl in *;
      try (eexists; reflexivity). exfalso. apply Hn. reflexivity.
  - destruct n as [c|es]; [discriminate Hd|]. simpl in *.
    rewrite stat_cons_dir in Hd, Hn.
    destruct (es !! s) as [c0|] eqn:E; [|discriminate Hd]. simpl in *.
    destruct (IH c0 Hd Hn) as [n' ->]. eexists; reflexivity.
Qed.

End FsProofs.

(* ===================================================================== *)
(** * Effects: proofs *)
(* ===================================================================== *)

Module LogicProofs.
Import Fs Logic FsProofs.

Lemma hoare_ret {A} (a : A) (Q : A -> world -> Prop) R :
  hoare (Q a) (ret a) Q R.
Proof. intros w H. exact H. Qed.

Lemma hoare_bind {A B} P (m : M A) (k : A -> M B) Q Q' R :
  hoare P m Q R -> (forall a, hoare (Q a) (k a) Q' R) ->
  hoare P (bind m k) Q' R.
Proof.
  intros Hm Hk w Hw. unfold bind. specialize (Hm w Hw).
  destruct (m w) as [[a|e] w1]; [apply Hk, Hm|exact Hm].
Qed.

Lemma hoare_conseq {A} (P P' : world -> Prop) (m : M A)
    (Q Q' : A -> world -> Prop) (R R' : world -> Prop) :
  hoare P m Q R ->
  (forall w, P' w -> P w) -> (forall a w, Q a w -> Q' a w) ->
  (forall w, R w -> R' w) ->
  hoare P' m Q' R'.
Proof.
  intros H HP HQ HR w Hw. specialize (H w (HP w Hw)).
  destruct (m w) as [[a|e] w1]; auto.
Qed.

(** The loop rule: the invariant is indexed by the items already
    handled. *)
Lemma hoare_for_of {A S} (Inv : list A -> S -> world -> Prop)
    (R : world -> Prop) (body : S -> A -> M S) (l : list A) :
  (forall done x rest acc, l = done ++ x :: rest ->
     hoare (Inv done acc) (body acc x) (Inv (done ++ [x])) R) ->
  forall acc, hoare (Inv [] acc) (for_of l body acc) (Inv l) R.
Proof.
  intros Hbody.
  assert (G : forall rest done, l = done ++ rest -> forall acc,
             hoare (Inv done acc) (for_of rest body acc) (Inv l) R).
  { induction rest as [|x rest IH]; intros done Hl acc.
    - rewrite app_nil_r in Hl. subst done. apply hoare_ret.
    - simpl. eapply hoare_bind; [apply (Hbody done x rest acc Hl)|].
      intros acc'. apply IH. rewrite <- app_assoc. exact Hl. }
  intros acc. apply (G l []). reflexivity.
Qed.

Lemma hoare_ext {A} P (m m' : M A) Q R :
  (forall w, m w = m' w) -> hoare P m' Q R -> hoare P m Q R.
Proof. intros E H w Hw. rewrite E. apply H, Hw. Qed.

Lemma lift_fs {A} (r : result A) w : fs (lift r w).2 = fs w.
Proof. destruct r; reflexivity. Qed.

Lemma log_line_fs l w : fs (log_line l w).2 = fs w.
Proof. reflexivity. Qed.

Lemma readFileSync_fs p w : fs (readFileSync p w).2 = fs w.
Proof. unfold readFileSync. destruct (read_file p (fs w)); reflexivity. Qed.

Lemma bind_fs {A B} (m : M A) (k : A -> M B) :
  (forall w, fs (m w).2 = fs w) ->
  (forall a w, fs (k a w).2 = fs w) ->
  forall w, fs (bind m k w).2 = fs w.
Proof.
  intros Hm Hk w. unfold bind. specialize (Hm w).
  destruct (m w) as [[a|e] w1]; cbn in *; [rewrite Hk|]; exact Hm.
Qed.

Lemma bind_assoc {A B C} (m : M A) (k : A -> M B) (h : B -> M C) w :
  bind (bind m k) h w = bind m (fun a => bind (k a) h) w.
Proof.
  unfold bind. destruct (m w) as [[a|e] w1]; [|reflexivity].
  destruct (k a w1) as [[b|e] w2]; reflexivity.
Qed.

Lemma bind_cong {A B} (m : M A) (k k' : A -> M B) w :
  (forall a w1, k a w1 = k' a w1) -> bind m k w = bind m k' w.
Proof.
  intros H. unfold bind. destruct (m w) as [[a|e] w1]; [apply H|reflexivity].
Qed.

(** ** Growth *)

Lemma grows_refl news n : grows news n n.
Proof. split; [auto|]. intros q k H1 H2. congruence. Qed.

Lemma grows_trans news n1 n2 n3 :
  grows news n1 n2 -> grows news n2 n3 -> grows news n1 n3.
Proof.
  intros [K1 N1] [K2 N2]. split.
  - intros q k H. apply K2, K1, H.
  - intros q k H1 H3. destruct (stat q n2) as [k2|] eqn:H2.
    + pose proof (K2 _ _ H2) as H3'. rewrite H3' in H3. injection H3 as <-.
      eapply N1; eassumption.
    + eapply N2; eassumption.
Qed.

Lemma grows_weaken (news news' : path -> kind -> Prop) n n' :
  (forall q k, news q k -> news' q k) -> grows news n n' -> grows news' n n'.
Proof. intros Hw [K N]. split; [exact K|]. intros q k H1 H2. eauto. Qed.

Lemma grows_mkdir p n n' :
  mkdir_p p n = inr n' ->
  grows (fun q k => k = IsDir /\ q `prefix_of` p) n n'.
Proof.
  intros Hm. split.
  - intros q k. eapply mkdir_p_keeps, Hm.
  - intros q k. eapply mkdir_p_new, Hm.
Qed.

Lemma grows_put_new f p n n' :
  put_file f p n = inr n' -> stat p n = None ->
  grows (fun q k => q = p /\ k = IsFile (f None)) n n'.
Proof.
  intros Hp Hn. split.
  - intros q k Hq. rewrite (put_file_other _ _ _ _ _ Hp); [exact Hq|].
    intros ->. congruence.
  - intros q k Hq Hq'. destruct (decide (q = p)) as [->|Hne].
    + split; [reflexivity|].
      destruct (put_file_at _ _ _ _ Hp) as [_ Hat].
      unfold content_at in Hat. rewrite Hn in Hat. congruence.
    + rewrite (put_file_other _ _ _ _ _ Hp) in Hq' by exact Hne. congruence.
Qed.

End LogicProofs.

(* ===================================================================== *)
(** * Initialisation: proofs *)
(* ===================================================================== *)

Module InitProofs.
Import Js Time Fs Logic FsProofs LogicProofs InitReflector.

(** ** Where the tracked paths are *)

Lemma dir1_path root : path_join root ["memory"] = root ++ ["memory"].
Proof. reflexivity. Qed.

Lemma dir2_path root :
  path_join root ["memory/reflector"] = root ++ ["memory"; "reflector"].
Proof. unfold path_join. cbn. rewrite <- app_assoc. reflexivity. Qed.

Lemma dir3_path root :
  path_join root ["memory/reflector/weekly-summaries"]
  = root ++ ["memory"; "reflector"; "weekly-summaries"].
Proof. unfold path_join. cbn. rewrite <- !app_assoc. reflexivity. Qed.

Lemma file1_path root :
  path_join root ["PRINCIPLES.md"] = root ++ ["PRINCIPLES.md"].
Proof. reflexivity. Qed.

Lemma file2_path root :
  path_join root ["memory/reflector/outcomes.jsonl"]
  = root ++ ["memory"; "reflector"; "outcomes.jsonl"].
Proof. unfold path_join. cbn. rewrite <- !app_assoc. reflexivity. Qed.

Lemma file3_path root :
  path_join root ["memory/reflector/principles-history.jsonl"]
  = root ++ ["memory"; "reflector"; "principles-history.jsonl"].
Proof. unfold path_join. cbn. rewrite <- !app_assoc. reflexivity. Qed.

(** ** The loop bodies *)

Lemma ensure_dir_shape root dry acc rel w :
  ensure_dir root dry acc rel w
  = ensure_generic (dir_entry root rel) (mkdir_p (path_join root [rel]))
      ("  exists  " +:+ rel +:+ "/") ("  create  " +:+ rel +:+ "/") dry acc w.
Proof.
  unfold ensure_dir, ensure_generic, bind, existsSync, dir_entry.
  generalize (path_join root [rel]). intros abs. cbn.
  destruct (exists_path abs (fs w)); [reflexivity|].
  destruct dry; cbn; [reflexivity|].
  unfold mkdirSync_recursive, fs_step. cbn.
  destruct (mkdir_p abs (fs w)); reflexivity.
Qed.

Lemma ensure_file_shape root dry acc item w :
  ensure_file root dry acc item w
  = ensure_generic (file_entry root item)
      (write_file (path_join root [item.1]) item.2)
      ("  exists  " +:+ item.1) ("  create  " +:+ item.1) dry acc w.
Proof.
  unfold ensure_file, ensure_generic, bind, existsSync, file_entry.
  generalize (path_join root [item.1]). intros abs. cbn.
  destruct (exists_path abs (fs w)); [reflexivity|].
  destruct dry; cbn; [reflexivity|].
  unfold writeFileSync, fs_step. cbn.
  destruct (write_file abs item.2 (fs w)); reflexivity.
Qed.

Lemma absent_names_snoc n es e :
  absent_names n (es ++ [e])
  = absent_names n es ++ (if exists_path e.2 n then [] else [e.1]).
Proof.
  unfold absent_names. rewrite List.filter_app, map_app. cbn.
  destruct (exists_path e.2 n); reflexivity.
Qed.

Lemma present_names_snoc n es e :
  present_names n (es ++ [e])
  = present_names n es ++ (if exists_path e.2 n then [e.1] else []).
Proof.
  unfold present_names. rewrite List.filter_app, map_app. cbn.
  destruct (exists_path e.2 n); reflexivity.
Qed.

Lemma all_present_grows news n n' es :
  grows news n n' -> all_present n es -> all_present n' es.
Proof.
  intros [K _] H. unfold all_present in *. eapply Forall_impl; [exact H|].
  intros e [k Hk]. exists k. apply K, Hk.
Qed.

(** One step of either loop keeps the invariant of the run, provided
    the entry at hand is none of the paths added so far. *)
Lemma ensure_generic_hoare n0 dry (news news_e news' : path -> kind -> Prop)
    es e op seen made acc :
  (forall k, ~ news e.2 k) ->
  (forall q k, news q k -> news' q k) ->
  (forall q k, news_e q k -> news' q k) ->
  (forall n n', stat e.2 n = None -> op n = inr n' ->
     grows news_e n n' /\ is_Some (stat e.2 n')) ->
  hoare (run_inv n0 dry news es acc)
        (ensure_generic e op seen made dry acc)
        (run_inv n0 dry news' (es ++ [e]))
        (run_fail n0 dry news').
Proof.
  intros Hfresh Hw He Hop w (G & A1 & A2 & Hall & Hdry).
  assert (Hsame : exists_path e.2 (fs w) = exists_path e.2 n0).
  { destruct (exists_path e.2 n0) eqn:H0.
    - apply exists_path_true in H0 as [k Hk]. apply exists_path_true.
      exists k. apply G, Hk.
    - apply exists_path_false in H0. apply exists_path_false.
      destruct (stat e.2 (fs w)) as [k|] eqn:Hk; [|reflexivity].
      destruct (Hfresh k). eapply G; eassumption. }
  assert (G' : grows news' n0 (fs w)) by exact (grows_weaken _ _ _ _ Hw G).
  unfold ensure_generic. rewrite Hsame.
  destruct (exists_path e.2 n0) eqn:H0.
  - (* already there *)
    unfold run_inv. cbn. rewrite absent_names_snoc, present_names_snoc, H0.
    rewrite app_nil_r, A1, A2. repeat split; try apply G'; auto.
    intros Hd. apply Forall_app. split; [apply Hall, Hd|].
    constructor; [|constructor]. apply exists_path_true, Hsame.
  - destruct dry.
    + (* dry run *)
      unfold run_inv. cbn. rewrite absent_names_snoc, present_names_snoc, H0.
      rewrite app_nil_r, A1, A2. repeat split; try apply G'; auto.
      discriminate.
    + destruct (op (fs w)) as [err|n'] eqn:Hn.
      * (* creation fails *)
        split; [exact G'|discriminate].
      * (* created *)
        apply exists_path_false in Hsame.
        destruct (Hop _ _ Hsame Hn) as [Gn Hmade].
        unfold run_inv. cbn.
        rewrite absent_names_snoc, present_names_snoc, H0.
        rewrite app_nil_r, A1, A2.
        split; [|split; [reflexivity|split; [reflexivity|split; [|discriminate]]]].
        -- eapply grows_trans; [exact G'|]. exact (grows_weaken _ _ _ _ He Gn).
        -- intros _. apply Forall_app. split.
           ++ eapply all_present_grows; [exact Gn|]. apply Hall. reflexivity.
           ++ constructor; [exact Hmade|constructor].
Qed.

(** ** The two loops *)

Ltac split_list :=
  repeat match goal with
  | H : _ :: _ = ?l ++ _ :: _ |- _ => destruct l; simplify_eq/=
  | H : [] = ?l ++ _ :: _ |- _ => destruct l; discriminate H
  end.

Ltac no_prefix H :=
  rewrite ?dir1_path, ?dir2_path, ?dir3_path,
          ?file1_path, ?file2_path, ?file3_path in H;
  first [ apply prefix_app_inv in H; destruct H as [? H]; discriminate H
        | apply app_inv_head in H; discriminate H ].

(** A directory is never on the way to one listed before it. *)
Lemma dirs_fresh root done x rest k :
  dirs = done ++ x :: rest ->
  ~ init_news root done [] (path_join root [x]) k.
Proof.
  unfold dirs. intros Hl [(_ & d & Hd & Hp)|(item & [] & _)].
  split_list; cbn in Hd; intuition (subst; no_prefix Hp).
Qed.

(** A file is neither on the way to a directory nor listed twice. *)
Lemma files_fresh root done x rest k :
  files = done ++ x :: rest ->
  ~ init_news root dirs done (path_join root [x.1]) k.
Proof.
  unfold files, dirs. intros Hl [(_ & d & Hd & Hp)|(item & Hi & Hp & _)].
  - split_list; cbn in Hd; intuition (subst; cbn [fst] in Hp; no_prefix Hp).
  - split_list; cbn in Hi; intuition (subst; cbn [fst] in Hp; no_prefix Hp).
Qed.

Lemma init_news_mono root ds ds' fls fls' q k :
  (forall d, In d ds -> In d ds') ->
  (forall i, In i fls -> In i fls') ->
  init_news root ds fls q k -> init_news root ds' fls' q k.
Proof.
  intros Hd Hf [(-> & d & H & Hp)|(item & H & Hp)].
  - left. split; [reflexivity|]. exists d. auto.
  - right. exists item. auto.
Qed.

Lemma run_fail_mono n0 dry (news news' : path -> kind -> Prop) w :
  (forall q k, news q k -> news' q k) ->
  run_fail n0 dry news w -> run_fail n0 dry news' w.
Proof. intros H [G D]. split; [eapply grows_weaken; eassumption|exact D]. Qed.

Lemma dirs_loop_hoare n0 dry root :
  hoare (fun w => fs w = n0)
        (for_of dirs (ensure_dir root dry) ([], []))
        (run_inv n0 dry (init_news root dirs []) (map (dir_entry root) dirs))
        (run_fail n0 dry (init_news root dirs files)).
Proof.
  eapply hoare_conseq;
    [apply (hoare_for_of
              (fun done => run_inv n0 dry (init_news root done [])
                             (map (dir_entry root) done))
              (run_fail n0 dry (init_news root dirs files)))| | |].
  - intros done x rest acc Hl.
    eapply hoare_ext; [intros w; apply ensure_dir_shape|].
    rewrite map_app. cbn [map].
    eapply hoare_conseq;
      [eapply (ensure_generic_hoare n0 dry (init_news root done [])
                 (fun q k => k = IsDir /\ q `prefix_of` path_join root [x])
                 (init_news root (done ++ [x]) []))
      |intros w H; exact H|intros a w H; exact H|].
    + intros k. eapply dirs_fresh, Hl.
    + intros q k. apply init_news_mono; [|auto].
      intros d Hd. apply in_or_app. auto.
    + intros q k [-> Hp]. left. split; [reflexivity|]. exists x.
      split; [apply in_or_app; right; left; reflexivity|exact Hp].
    + intros n n' _ Hm. split; [apply grows_mkdir, Hm|].
      exists IsDir. cbn. eapply mkdir_p_made, Hm.
    + intros w. apply run_fail_mono. intros q k. apply init_news_mono.
      * intros d Hd. rewrite Hl. apply in_app_or in Hd as [Hd|[<-|[]]];
          apply in_or_app; [left|right; left]; auto.
      * intros i [].
  - intros w <-. split; [apply grows_refl|].
    split; [reflexivity|]. split; [reflexivity|].
    split; [intros _; constructor|reflexivity].
  - auto.
  - auto.
Qed.

Lemma files_loop_hoare n0 dry root acc :
  hoare (run_inv n0 dry (init_news root dirs []) (map (dir_entry root) dirs) acc)
        (for_of files (ensure_file root dry) acc)
        (run_inv n0 dry (init_news root dirs files) (tracked root))
        (run_fail n0 dry (init_news root dirs files)).
Proof.
  eapply hoare_conseq;
    [apply (hoare_for_of
              (fun done => run_inv n0 dry (init_news root dirs done)
                             (map (dir_entry root) dirs
                              ++ map (file_entry root) done))
              (run_fail n0 dry (init_news root dirs files)))| | |].
  - intros done x rest acc' Hl.
    eapply hoare_ext; [intros w; apply ensure_file_shape|].
    rewrite map_app, app_assoc. cbn [map].
    eapply hoare_conseq;
      [eapply (ensure_generic_hoare n0 dry (init_news root dirs done)
                 (fun q k => q = path_join root [x.1] /\ k = IsFile x.2)
                 (init_news root dirs (done ++ [x])))
      |intros w H; exact H|intros a w H; exact H|].
    + intros k. eapply files_fresh, Hl.
    + intros q k. apply init_news_mono; [auto|].
      intros d Hd. apply in_or_app. auto.
    + intros q k [-> ->]. right. exists x.
      split; [apply in_or_app; right; left; reflexivity|auto].
    + intros n n' Hn Hm. split; [apply (grows_put_new _ _ _ _ Hm Hn)|].
      destruct (put_file_at _ _ _ _ Hm) as [_ Hat]. eexists. exact Hat.
    + intros w. apply run_fail_mono. intros q k. apply init_news_mono; [auto|].
      intros d Hd. rewrite Hl. apply in_app_or in Hd as [Hd|[<-|[]]];
        apply in_or_app; [left|right; left]; auto.
  - cbn [map]. rewrite app_nil_r. auto.
  - auto.
  - auto.
Qed.

(** ** The run, phase by phase *)

Lemma init_as_phases E opts w : init E opts w = init_phases E opts w.
Proof.
  unfold init, init_phases, prologue, loops, epilogue.
  fold (resolved_daily opts). fold (resolved_weekly opts).
  fold (resolved_root E opts). fold (resolved_timezone E opts).
  apply bind_cong. intros _ w1. apply bind_cong. intros _ w2.
  rewrite bind_assoc. apply bind_cong. intros _ w3. apply bind_cong.
  intros _ w4. rewrite bind_assoc. apply bind_cong. intros acc w5.
  apply bind_cong. intros acc' w6. apply bind_cong. intros p w7.
  rewrite !bind_assoc. reflexivity.
Qed.

Lemma prologue_fs dry w : fs (prologue dry w).2 = fs w.
Proof. unfold prologue, bind. cbn. destruct dry; reflexivity. Qed.

Lemma prologue_returns dry w : (prologue dry w).1 = Returns tt.
Proof. unfold prologue, bind. cbn. destruct dry; reflexivity. Qed.

Lemma epilogue_fs w : fs (epilogue w).2 = fs w.
Proof. reflexivity. Qed.

Lemma cron_prompts_fs E skip tz d wk w :
  fs (cron_prompts E skip tz d wk w).2 = fs w.
Proof.
  unfold cron_prompts. destruct skip; cbn [negb]; [reflexivity|].
  unfold loadPrompt.
  repeat (apply bind_fs;
          [intros ?; first [apply readFileSync_fs|apply lift_fs|apply log_line_fs]
          |intros ? ?]).
  reflexivity.
Qed.

Lemma loops_hoare n0 dry root :
  hoare (fun w => fs w = n0) (loops root dry)
        (run_inv n0 dry (init_news root dirs files) (tracked root))
        (run_fail n0 dry (init_news root dirs files)).
Proof.
  unfold loops. eapply hoare_bind; [apply dirs_loop_hoare|].
  intros acc. apply files_loop_hoare.
Qed.

(** The outcome of [init] in terms of its phases. *)
Lemma init_result E opts w :
  init E opts w =
    match parseTime (resolved_daily opts) with
    | Throws e => (Throws e, w)
    | Returns _ =>
        match parseTime (resolved_weekly opts) with
        | Throws e => (Throws e, w)
        | Returns _ =>
            match loops (resolved_root E opts) (Opts.dryRun opts)
                    (prologue (Opts.dryRun opts) w).2 with
            | (Throws e, w') => (Throws e, w')
            | (Returns acc, wc) =>
                match cron_prompts E (Opts.skipCron opts)
                        (resolved_timezone E opts) (resolved_daily opts)
                        (resolved_weekly opts) wc with
                | (Throws e, w') => (Throws e, w')
                | (Returns p, wd) =>
                    (Returns (Report (resolved_root E opts)
                                (resolved_timezone E opts) (resolved_daily opts)
                                (resolved_weekly opts) (Opts.dryRun opts)
                                acc.1 acc.2 p),
                     (epilogue wd).2)
                end
            end
        end
    end.
Proof.
  rewrite init_as_phases. unfold init_phases, bind.
  destruct (parseTime (resolved_daily opts)); cbn [lift ret throw];
    [|reflexivity].
  destruct (parseTime (resolved_weekly opts)); cbn [lift ret throw];
    [|reflexivity].
  pose proof (prologue_returns (Opts.dryRun opts) w) as Hp.
  destruct (prologue (Opts.dryRun opts) w) as [r wa].
  cbn [fst snd] in Hp |- *. subst r.
  destruct (loops _ _ wa) as [[acc|e] wc]; [|reflexivity].
  destruct (cron_prompts _ _ _ _ _ wc) as [[p|e] wd]; reflexivity.
Qed.

Lemma run_inv_fs n0 dry news es acc w w' :
  fs w' = fs w -> run_inv n0 dry news es acc w -> run_inv n0 dry news es acc w'.
Proof. unfold run_inv. intros ->. auto. Qed.

Lemma run_inv_fail n0 dry news es acc w w' :
  fs w' = fs w -> run_inv n0 dry news es acc w -> run_fail n0 dry news w'.
Proof. unfold run_inv, run_fail. intros -> (G & _ & _ & _ & D). auto. Qed.

(** What every run of [init] guarantees. *)
Lemma init_hoare E opts n0 :
  hoare (fun w => fs w = n0) (init E opts)
    (fun rep w =>
       run_inv n0 (Opts.dryRun opts)
         (init_news (resolved_root E opts) dirs files)
         (tracked (resolved_root E opts)) (created rep, existed rep) w)
    (run_fail n0 (Opts.dryRun opts)
       (init_news (resolved_root E opts) dirs files)).
Proof.
  intros w Hw. rewrite init_result.
  assert (R0 : run_fail n0 (Opts.dryRun opts)
                 (init_news (resolved_root E opts) dirs files) w).
  { split; [rewrite Hw; apply grows_refl|auto]. }
  destruct (parseTime (resolved_daily opts)); [|exact R0].
  destruct (parseTime (resolved_weekly opts)); [|exact R0].
  assert (HP : fs (prologue (Opts.dryRun opts) w).2 = n0)
    by (rewrite prologue_fs; exact Hw).
  pose proof (loops_hoare n0 (Opts.dryRun opts) (resolved_root E opts) _ HP)
    as HL.
  destruct (loops _ _ _) as [[acc|e] wc]; [|exact HL].
  pose proof (cron_prompts_fs E (Opts.skipCron opts) (resolved_timezone E opts)
                (resolved_daily opts) (resolved_weekly opts) wc) as HC.
  destruct (cron_prompts _ _ _ _ _ wc) as [[p|e] wd]; cbn in HC.
  - destruct acc as [cr ex]. eapply run_inv_fs; [|exact HL].
    rewrite epilogue_fs. exact HC.
  - eapply run_inv_fail; eassumption.
Qed.

Lemma init_returns_inv E opts w rep w1 :
  init E opts w = (Returns rep, w1) ->
  exists acc wc p,
    (exists a, parseTime (resolved_daily opts) = Returns a)
    /\ (exists a, parseTime (resolved_weekly opts) = Returns a)
    /\ loops (resolved_root E opts) (Opts.dryRun opts)
         (prologue (Opts.dryRun opts) w).2 = (Returns acc, wc)
    /\ (cron_prompts E (Opts.skipCron opts) (resolved_timezone E opts)
          (resolved_daily opts) (resolved_weekly opts) wc).1 = Returns p
    /\ fs w1 = fs wc
    /\ rep = Report (resolved_root E opts) (resolved_timezone E opts)
               (resolved_daily opts) (resolved_weekly opts)
               (Opts.dryRun opts) acc.1 acc.2 p.
Proof.
  rewrite init_result. intros H.
  destruct (parseTime (resolved_daily opts)) as [a|]; [|discriminate H].
  destruct (parseTime (resolved_weekly opts)) as [a'|]; [|discriminate H].
  destruct (loops _ _ _) as [[acc|e] wc]; [|discriminate H].
  pose proof (cron_prompts_fs E (Opts.skipCron opts) (resolved_timezone E opts)
                (resolved_daily opts) (resolved_weekly opts) wc) as HC.
  destruct (cron_prompts _ _ _ _ _ wc) as [[p|e] wd] eqn:Hcp;
    [|discriminate H].
  injection H as <- <-. exists acc, wc, p.
  split; [eauto|]. split; [eauto|]. split; [reflexivity|].
  rewrite Hcp. split; [reflexivity|]. split; [exact HC|reflexivity].
Qed.

Lemma init_returns_intro E opts w a a' acc wc p :
  parseTime (resolved_daily opts) = Returns a ->
  parseTime (resolved_weekly opts) = Returns a' ->
  loops (resolved_root E opts) (Opts.dryRun opts)
    (prologue (Opts.dryRun opts) w).2 = (Returns acc, wc) ->
  (cron_prompts E (Opts.skipCron opts) (resolved_timezone E opts)
     (resolved_daily opts) (resolved_weekly opts) wc).1 = Returns p ->
  exists w1,
    init E opts w
    = (Returns (Report (resolved_root E opts) (resolved_timezone E opts)
                  (resolved_daily opts) (resolved_weekly opts)
                  (Opts.dryRun opts) acc.1 acc.2 p), w1)
    /\ fs w1 = fs wc.
Proof.
  intros H1 H2 HL HC. rewrite init_result, H1, H2, HL.
  pose proof (cron_prompts_fs E (Opts.skipCron opts) (resolved_timezone E opts)
                (resolved_daily opts) (resolved_weekly opts) wc) as HF.
  destruct (cron_prompts _ _ _ _ _ wc) as [[p'|e] wd]; cbn in HC, HF;
    [|discriminate HC].
  injection HC as ->. eexists. split; [reflexivity|]. exact HF.
Qed.

(** ** The prompts *)

(** The prompts depend on the filesystem through the two prompt files
    only. *)
Lemma cron_prompts_transfer E skip tz d wk w w2 p :
  (forall name c, prompt_name name ->
     read_file (prompt_file E name) (fs w) = inr c ->
     read_file (prompt_file E name) (fs w2) = inr c) ->
  (cron_prompts E skip tz d wk w).1 = Returns p ->
  (cron_prompts E skip tz d wk w2).1 = Returns p.
Proof.
  intros Hr. unfold cron_prompts. destruct skip; cbn [negb]; [auto|].
  unfold bind, loadPrompt, readFileSync. fold (prompt_file E "daily-review.txt").
  fold (prompt_file E "weekly-refinement.txt").
  destruct (read_file (prompt_file E "daily-review.txt") (fs w)) as [|c1] eqn:R1;
    [discriminate|].
  rewrite (Hr _ _ (or_introl eq_refl) R1).
  destruct (read_file (prompt_file E "weekly-refinement.txt") (fs w))
    as [|c2] eqn:R2; [discriminate|].
  rewrite (Hr _ _ (or_intror eq_refl) R2).
  destruct (timeToCron d "daily"); cbn; [|discriminate].
  destruct (timeToCron wk "weekly"); cbn; [|discriminate].
  auto.
Qed.

Lemma prompt_file_last E name :
  prompt_name name -> prompt_file E name = PROMPTS_DIR E ++ [name].
Proof. intros [-> | ->]; reflexivity. Qed.

(** No prompt file is a file [init] creates. *)
Lemma prompt_not_tracked E root name item :
  prompt_name name -> In item files ->
  prompt_file E name <> path_join root [item.1].
Proof.
  intros Hn Hi. rewrite (prompt_file_last _ _ Hn). unfold files in Hi.
  cbn in Hi. destruct Hi as [<-|[<-|[<-|[]]]]; cbn [fst];
    rewrite ?file1_path, ?file2_path, ?file3_path; intros Heq.
  - apply app_inj_tail in Heq as [_ Heq]. destruct Hn; subst; discriminate.
  - change (root ++ ["memory"; "reflector"; "outcomes.jsonl"])
      with (root ++ ["memory"; "reflector"] ++ ["outcomes.jsonl"]) in Heq.
    rewrite app_assoc in Heq.
    apply app_inj_tail in Heq as [_ Heq]. destruct Hn; subst; discriminate.
  - change (root ++ ["memory"; "reflector"; "principles-history.jsonl"])
      with (root ++ ["memory"; "reflector"] ++ ["principles-history.jsonl"])
      in Heq.
    rewrite app_assoc in Heq.
    apply app_inj_tail in Heq as [_ Heq]. destruct Hn; subst; discriminate.
Qed.

(** A prompt that can be read after a run could be read before it. *)
Lemma prompt_read_back E root ds n0 n1 name c :
  grows (init_news root ds files) n0 n1 -> prompt_name name ->
  read_file (prompt_file E name) n1 = inr c ->
  read_file (prompt_file E name) n0 = inr c.
Proof.
  intros [K N] Hn. unfold read_file.
  destruct (stat (prompt_file E name) n1) as [[c1|]|] eqn:H1; try discriminate.
  intros [= ->].
  destruct (stat (prompt_file E name) n0) as [k0|] eqn:H0.
  - rewrite (K _ _ H0) in H1. injection H1 as ->. reflexivity.
  - destruct (N _ _ H0 H1) as [(Hk & _)|(item & Hi & Hp & _)];
      [discriminate Hk|].
    destruct (prompt_not_tracked E root name item Hn Hi Hp).
Qed.

(** ** Runs that cannot throw *)

Lemma for_of_returns {A S} (l : list A) (body : S -> A -> M S) :
  (forall acc x w, exists acc' w', body acc x w = (Returns acc', w')) ->
  forall acc w, exists acc' w', for_of l body acc w = (Returns acc', w').
Proof.
  intros Hb. induction l as [|x l IH]; intros acc w; [eexists _, _; reflexivity|].
  simpl. unfold bind. destruct (Hb acc x w) as (acc1 & w1 & ->). apply IH.
Qed.

Lemma ensure_generic_dry e op seen made acc w :
  exists acc' w', ensure_generic e op seen made true acc w = (Returns acc', w').
Proof.
  unfold ensure_generic. destruct (exists_path e.2 (fs w)); eexists _, _; reflexivity.
Qed.

(** A dry run gets through both loops. *)
Lemma loops_dry_returns root w :
  exists acc wc, loops root true w = (Returns acc, wc).
Proof.
  unfold loops, bind.
  destruct (for_of_returns dirs (ensure_dir root true)) with (acc := ([] : list string, [] : list string)) (w := w)
    as (acc1 & w1 & ->).
  { intros acc x w0. rewrite ensure_dir_shape. apply ensure_generic_dry. }
  apply for_of_returns.
  intros acc x w0. rewrite ensure_file_shape. apply ensure_generic_dry.
Qed.

Lemma ensure_generic_present e op seen made dry acc w :
  is_Some (stat e.2 (fs w)) ->
  exists w', ensure_generic e op seen made dry acc w
             = (Returns (acc.1, acc.2 ++ [e.1]), w')
             /\ fs w' = fs w.
Proof.
  intros H. apply exists_path_true in H. unfold ensure_generic. rewrite H.
  eexists. split; reflexivity.
Qed.

Lemma for_of_present {A} (entry : A -> string * path) (l : list A)
    (body : lists -> A -> M lists) :
  (forall acc x w, is_Some (stat (entry x).2 (fs w)) ->
     exists w', body acc x w = (Returns (acc.1, acc.2 ++ [(entry x).1]), w')
                /\ fs w' = fs w) ->
  forall acc w, all_present (fs w) (map entry l) ->
    exists w', for_of l body acc w
               = (Returns (acc.1, acc.2 ++ map fst (map entry l)), w')
               /\ fs w' = fs w.
Proof.
  intros Hb. induction l as [|x l IH]; intros acc w Hall.
  - cbn. rewrite app_nil_r. destruct acc. eexists. split; reflexivity.
  - inversion Hall as [|? ? Hx Hl]; subst.
    destruct (Hb acc x w Hx) as (w1 & E1 & F1).
    cbn. unfold bind. rewrite E1.
    destruct (IH (acc.1, acc.2 ++ [(entry x).1]) w1) as (w2 & E2 & F2).
    { unfold all_present. rewrite F1. exact Hl. }
    rewrite E2. exists w2. cbn. rewrite <- app_assoc. split; [reflexivity|].
    congruence.
Qed.

(** When every tracked path is there, the loops change nothing and
    report all of them as existing. *)
Lemma loops_all_present root dry w :
  all_present (fs w) (tracked root) ->
  exists wc, loops root dry w = (Returns ([], map fst (tracked root)), wc)
             /\ fs wc = fs w.
Proof.
  unfold tracked, all_present. rewrite Forall_app. intros [Hd Hf].
  unfold loops, bind.
  destruct (for_of_present (dir_entry root) dirs (ensure_dir root dry))
    with (acc := ([] : list string, [] : list string)) (w := w)
    as (w1 & -> & F1); [|exact Hd|].
  { intros acc x w0 Hx. rewrite ensure_dir_shape.
    apply ensure_generic_present, Hx. }
  cbn [fst snd].
  destruct (for_of_present (file_entry root) files (ensure_file root dry))
    with (acc := ([] : list string, [] ++ map fst (map (dir_entry root) dirs)))
         (w := w1)
    as (w2 & -> & F2).
  { intros acc x w0 Hx. rewrite ensure_file_shape.
    apply ensure_generic_present, Hx. }
  { unfold all_present. rewrite F1. exact Hf. }
  exists w2. rewrite map_app. split; [reflexivity|congruence].
Qed.

(** ** Validation comes first *)

(** C4, as the code has it. For every configuration whose resolved
    daily or weekly time (the caller's string when it is not empty,
    else the default) is invalid, [init] throws the error of the first
    invalid one and leaves the world as it was: no directory is
    created, no file is written, nothing is logged. *)
Theorem init_invalid_time_no_mutation (E : env) (opts : Opts.t) (w : world) :
  Vocabulary.invalid_time (resolved_daily opts)
  \/ Vocabulary.invalid_time (resolved_weekly opts) ->
  exists e,
    init E opts w = (Throws e, w)
    /\ (parseTime (resolved_daily opts) = Throws e
        \/ parseTime (resolved_weekly opts) = Throws e).
Proof.
  intros H. rewrite init_result.
  destruct (parseTime (resolved_daily opts)) as [a|e] eqn:Hd.
  - destruct H as [[e He]|[e He]]; [congruence|]. rewrite He. eauto.
  - eauto.
Qed.

Lemma init_invalid_time_no_mutation_witness :
  init Samples.sample_env Samples.daily_at_25 Samples.installed_world
  = (Throws (InvalidHour (Num 25)), Samples.installed_world).
Proof.
  destruct (init_invalid_time_no_mutation Samples.sample_env
              Samples.daily_at_25 Samples.installed_world)
    as (e & -> & [He|He]).
  - left. exists (InvalidHour (Num 25)). reflexivity.
  - injection He as <-. reflexivity.
  - discriminate He.
Defined.

(** C4 as stated fails: the empty string is not a valid time, yet a
    configuration whose daily time is the empty string is initialised
    with the default time, and the workspace is created. *)
Lemma empty_time_is_defaulted :
  InitReflector.Opts.dailyTime Samples.daily_empty = Some ""
  /\ parseTime "" = Throws (InvalidFormat "")
  /\ exists rep w1,
       init Samples.sample_env Samples.daily_empty Samples.installed_world
       = (Returns rep, w1)
       /\ dailyTime rep = "03:30"
       /\ stat ["tmp"; "w"; "memory"] (fs Samples.installed_world) = None
       /\ stat ["tmp"; "w"; "memory"] (fs w1) = Some IsDir
       /\ stat ["tmp"; "w"; "PRINCIPLES.md"] (fs w1)
          = Some (IsFile principlesTemplate).
Proof.
  split; [reflexivity|]. split; [reflexivity|].
  eexists _, _. split; [vm_compute; reflexivity|].
  repeat split; vm_compute; reflexivity.
Qed.

(** ** Existing files are kept *)

(** The report names each tracked path once. *)
Lemma tracked_name_unique root e item :
  In e (tracked root) -> In item files -> e.1 = item.1 ->
  e = file_entry root item.
Proof.
  unfold tracked, dirs, files. cbn [map app In].
  intros He Hi.
  destruct He as [<-|[<-|[<-|[<-|[<-|[<-|[]]]]]]];
    destruct Hi as [<-|[<-|[<-|[]]]]; cbn [fst dir_entry file_entry];
    intros Hn; try discriminate Hn; reflexivity.
Qed.

Lemma file_entry_tracked root item :
  In item files -> In (file_entry root item) (tracked root).
Proof.
  intros Hi. unfold tracked. apply in_or_app. right. apply in_map, Hi.
Qed.

(** C3. For every filesystem in which a tracked file already exists
    under the root, whatever its content, running [init] leaves that
    content as it is, whether the run returns or throws; when it
    returns, the report lists the file as existing and not as
    created. *)
Theorem init_keeps_existing_file (E : env) (opts : Opts.t) (w : world)
    (item : string * string) (c : string) (r : result report) (w1 : world) :
  In item files ->
  stat (path_join (resolved_root E opts) [item.1]) (fs w) = Some (IsFile c) ->
  init E opts w = (r, w1) ->
  stat (path_join (resolved_root E opts) [item.1]) (fs w1) = Some (IsFile c)
  /\ (forall rep, r = Returns rep ->
        In item.1 (existed rep) /\ ~ In item.1 (created rep)).
Proof.
  intros Hi Hc Hrun.
  pose proof (init_hoare E opts (fs w) w eq_refl) as H. rewrite Hrun in H.
  assert (Hex : exists_path (file_entry (resolved_root E opts) item).2 (fs w)
                = true).
  { apply exists_path_true. eexists. exact Hc. }
  destruct r as [rep|e].
  - destruct H as ([K _] & A1 & A2 & _). cbn [fst snd] in A1, A2.
    split; [apply K, Hc|]. intros ? [= <-]. rewrite A1, A2. split.
    + unfold present_names. apply in_map_iff.
      exists (file_entry (resolved_root E opts) item). split; [reflexivity|].
      apply filter_In. split; [apply file_entry_tracked, Hi|exact Hex].
    + unfold absent_names. intros Hin. apply in_map_iff in Hin as (e & He & Hf).
      apply filter_In in Hf as [Ht Hn].
      rewrite (tracked_name_unique _ _ _ Ht Hi He), Hex in Hn. discriminate Hn.
  - destruct H as [[K _] _]. split; [apply K, Hc|]. intros ? [=].
Qed.

Lemma init_keeps_existing_file_witness :
  exists rep w1,
    init Samples.sample_env Samples.no_options Samples.customised_world
    = (Returns rep, w1)
    /\ stat ["tmp"; "w"; "PRINCIPLES.md"] (fs w1)
       = Some (IsFile "# My Custom Principles")
    /\ In "PRINCIPLES.md" (existed rep)
    /\ ~ In "PRINCIPLES.md" (created rep).
Proof.
  eexists _, _. split; [vm_compute; reflexivity|].
  edestruct (init_keeps_existing_file Samples.sample_env Samples.no_options
               Samples.customised_world ("PRINCIPLES.md", principlesTemplate)
               "# My Custom Principles") as [Hc Hr].
  - left. reflexivity.
  - vm_compute. reflexivity.
  - vm_compute. reflexivity.
  - split; [exact Hc|]. apply Hr. reflexivity.
Defined.

(** ** Dry runs *)

(** C6. When the dry-run flag is set, [init] changes nothing in the
    filesystem, whatever the starting state and whether it returns or
    throws; and whenever a run without the flag from the same state
    returns a report, the dry run returns one too, with the same
    [created] and [existed] lists. *)
Theorem init_dry_run (E : env) (opts : Opts.t) (w : world)
    (r : result report) (w1 : world) :
  Opts.dryRun opts = true ->
  init E opts w = (r, w1) ->
  fs w1 = fs w
  /\ (forall rep' w1',
        init E (set_dryRun false opts) w = (Returns rep', w1') ->
        exists rep,
          r = Returns rep
          /\ created rep = created rep' /\ existed rep = existed rep').
Proof.
  intros Hdry Hrun. split.
  - pose proof (init_hoare E opts (fs w) w eq_refl) as H. rewrite Hrun in H.
    destruct r as [rep|e].
    + destruct H as (_ & _ & _ & _ & D). apply D, Hdry.
    + destruct H as (_ & D). apply D, Hdry.
  - intros rep' w1' Hreal.
    (* the real run, phase by phase *)
    destruct (init_returns_inv _ _ _ _ _ Hreal)
      as (acc' & wc' & p & [a Ha] & [a' Ha'] & HL' & HC' & _ & ->).
    change (resolved_daily (set_dryRun false opts)) with (resolved_daily opts)
      in *.
    change (resolved_weekly (set_dryRun false opts)) with (resolved_weekly opts)
      in *.
    change (resolved_root E (set_dryRun false opts)) with (resolved_root E opts)
      in *.
    change (resolved_timezone E (set_dryRun false opts))
      with (resolved_timezone E opts) in *.
    change (Opts.dryRun (set_dryRun false opts)) with false in *.
    change (Opts.skipCron (set_dryRun false opts)) with (Opts.skipCron opts)
      in *.
    pose proof (loops_hoare (fs w) false (resolved_root E opts)
                  (prologue false w).2 (prologue_fs false w)) as HI'.
    rewrite HL' in HI'. destruct HI' as (G' & A1' & A2' & _).
    (* the dry run, phase by phase *)
    destruct (loops_dry_returns (resolved_root E opts) (prologue true w).2)
      as (acc & wc & HL).
    pose proof (loops_hoare (fs w) true (resolved_root E opts)
                  (prologue true w).2 (prologue_fs true w)) as HI.
    rewrite HL in HI. destruct HI as (_ & A1 & A2 & _ & D).
    specialize (D eq_refl).
    assert (HC : (cron_prompts E (Opts.skipCron opts) (resolved_timezone E opts)
                    (resolved_daily opts) (resolved_weekly opts) wc).1
                 = Returns p).
    { eapply cron_prompts_transfer; [|exact HC'].
      intros name c Hn. rewrite D. eapply prompt_read_back; eassumption. }
    rewrite <- Hdry in HL.
    destruct (init_returns_intro E opts w a a' acc wc p Ha Ha' HL HC)
      as (w2 & Hinit & _).
    rewrite Hrun in Hinit. injection Hinit as -> _.
    eexists. split; [reflexivity|]. cbn [created existed].
    split; congruence.
Qed.

Lemma init_dry_run_witness :
  exists rep w1,
    init Samples.sample_env Samples.dry_run Samples.installed_world
    = (Returns rep, w1)
    /\ fs w1 = Samples.installed
    /\ created rep
       = ["memory/"; "memory/reflector/"; "memory/reflector/weekly-summaries/";
          "PRINCIPLES.md"; "memory/reflector/outcomes.jsonl";
          "memory/reflector/principles-history.jsonl"]
    /\ existed rep = [].
Proof.
  eexists _, _. split; [vm_compute; reflexivity|].
  edestruct (init_dry_run Samples.sample_env Samples.dry_run
               Samples.installed_world) as [Hfs Hsame].
  - reflexivity.
  - vm_compute. reflexivity.
  - split; [exact Hfs|].
    edestruct Hsame as (rep & Hr & Hc & He); [vm_compute; reflexivity|].
    injection Hr as <-. split; [exact Hc|exact He].
Defined.

(** ** Running twice *)

Lemma absent_names_none n es :
  Forall (fun e => stat e.2 n = None) es -> absent_names n es = map fst es.
Proof.
  unfold absent_names. induction 1 as [|e es He _ IH]; [reflexivity|].
  cbn. apply exists_path_false in He. rewrite He. cbn. rewrite IH. reflexivity.
Qed.

(** C2, as the code has it. With the dry-run flag off, whenever a first
    run returns, a second run with the same inputs returns too, leaves
    the filesystem exactly as the first run left it (so every file has
    the content it had after the first run), reports nothing as
    created and every tracked path as existing; when none of the
    tracked paths existed before the first run, that list of existing
    paths is the first run's list of created paths. *)
Theorem init_twice (E : env) (opts : Opts.t) (w0 : world)
    (rep1 : report) (w1 : world) :
  Opts.dryRun opts = false ->
  init E opts w0 = (Returns rep1, w1) ->
  exists rep2 w2,
    init E opts w1 = (Returns rep2, w2)
    /\ fs w2 = fs w1
    /\ created rep2 = []
    /\ existed rep2 = map fst (tracked (resolved_root E opts))
    /\ (Forall (fun e => stat e.2 (fs w0) = None)
               (tracked (resolved_root E opts)) ->
        existed rep2 = created rep1).
Proof.
  intros Hreal Hrun.
  destruct (init_returns_inv _ _ _ _ _ Hrun)
    as (acc & wc & p & [a Ha] & [a' Ha'] & HL & HC & Hfs & Hrep).
  pose proof (init_hoare E opts (fs w0) w0 eq_refl) as HI.
  rewrite Hrun in HI. destruct HI as (_ & A1 & _ & Hall & _).
  cbn [fst] in A1. specialize (Hall Hreal).
  destruct (loops_all_present (resolved_root E opts) (Opts.dryRun opts)
              (prologue (Opts.dryRun opts) w1).2) as (wc2 & HL2 & F2).
  { rewrite prologue_fs. exact Hall. }
  rewrite prologue_fs in F2.
  assert (HC2 : (cron_prompts E (Opts.skipCron opts) (resolved_timezone E opts)
                   (resolved_daily opts) (resolved_weekly opts) wc2).1
                = Returns p).
  { eapply cron_prompts_transfer; [|exact HC].
    intros name c _. rewrite F2, Hfs. auto. }
  destruct (init_returns_intro E opts w1 a a' _ wc2 p Ha Ha' HL2 HC2)
    as (w2 & Hinit & Hfs2).
  eexists _, w2. split; [exact Hinit|]. cbn [created existed fst snd].
  split; [congruence|]. split; [reflexivity|]. split; [reflexivity|].
  intros Hnone. rewrite A1. symmetry. apply absent_names_none, Hnone.
Qed.

Lemma init_twice_witness :
  exists rep1 w1 rep2 w2,
    init Samples.sample_env Samples.no_options Samples.installed_world
    = (Returns rep1, w1)
    /\ init Samples.sample_env Samples.no_options w1 = (Returns rep2, w2)
    /\ fs w2 = fs w1
    /\ created rep2 = []
    /\ existed rep2 = created rep1.
Proof.
  eexists _, _.
  edestruct (init_twice Samples.sample_env Samples.no_options
               Samples.installed_world) as (rep2 & w2 & H2 & Hfs & Hc & _ & He).
  - reflexivity.
  - vm_compute. reflexivity.
  - exists rep2, w2. split; [vm_compute; reflexivity|].
    split; [exact H2|]. split; [exact Hfs|]. split; [exact Hc|].
    apply He. repeat constructor.
Defined.

(** C2 as stated fails on two counts.  With the dry-run flag set the
    second run reports the same paths as created as the first one did;
    and when a tracked path existed before the first run, the second
    run's list of existing paths is longer than the first run's list
    of created paths. *)
Lemma second_run_report_differs :
  (exists rep1 w1 rep2 w2,
     init Samples.sample_env Samples.dry_run Samples.installed_world
     = (Returns rep1, w1)
     /\ init Samples.sample_env Samples.dry_run w1 = (Returns rep2, w2)
     /\ created rep2 <> []
     /\ existed rep2 <> created rep1)
  /\ (exists rep1 w1 rep2 w2,
        init Samples.sample_env Samples.no_options Samples.started_world
        = (Returns rep1, w1)
        /\ init Samples.sample_env Samples.no_options w1 = (Returns rep2, w2)
        /\ existed rep1 = ["memory/"]
        /\ existed rep2 <> created rep1).
Proof.
  split.
  - eexists _, _, _, _. split; [vm_compute; reflexivity|].
    split; [vm_compute; reflexivity|]. split; vm_compute; discriminate.
  - eexists _, _, _, _. split; [vm_compute; reflexivity|].
    split; [vm_compute; reflexivity|]. split; [vm_compute; reflexivity|].
    vm_compute. discriminate.
Qed.

End InitProofs.

(* ===================================================================== *)
(** * The outcome log: proofs *)
(* ===================================================================== *)

Module LogProofs.
Import Js Fs Json JsonParse Logic Vocabulary FsProofs LogicProofs LogOutcome.

(** ** Strings *)

Lemma append_cons x a b : String x a +:+ b = String x (a +:+ b).
Proof. reflexivity. Qed.

Lemma append_nil_l a : "" +:+ a = a.
Proof. reflexivity. Qed.

Lemma append_assoc a b c : (a +:+ b) +:+ c = a +:+ b +:+ c.
Proof.
  induction a as [|x a IH]; [reflexivity|].
  rewrite !append_cons, IH. reflexivity.
Qed.

Lemma append_empty_r a : a +:+ "" = a.
Proof.
  induction a as [|x a IH]; [reflexivity|]. rewrite append_cons, IH. reflexivity.
Qed.

Lemma chars_app a b : chars (a +:+ b) = chars a ++ chars b.
Proof.
  induction a as [|x a IH]; [reflexivity|].
  rewrite append_cons. cbn. f_equal. exact IH.
Qed.

(** ** A serialized entry is one line *)

Lemma one_line_app a b : one_line a -> one_line b -> one_line (a +:+ b).
Proof. unfold one_line. rewrite chars_app. apply Forall_app_2. Qed.

Lemma one_line_quote_char c : one_line (quote_char c).
Proof.
  destruct c as [[] [] [] [] [] [] [] []]; vm_compute; repeat constructor.
Qed.

Lemma one_line_quote_body s : one_line (quote_body s).
Proof.
  induction s as [|c s IH]; [constructor|].
  cbn. apply one_line_app; [apply one_line_quote_char|exact IH].
Qed.

Lemma one_line_dquote : one_line dquote.
Proof. repeat constructor. Qed.

Lemma one_line_quote s : one_line (quote s).
Proof.
  unfold quote. repeat apply one_line_app;
    auto using one_line_dquote, one_line_quote_body.
Qed.

Lemma one_line_uint d : one_line (NilEmpty.string_of_uint d).
Proof. induction d; cbn; constructor; try reflexivity; assumption. Qed.

Lemma one_line_nz_uint d : one_line (NilZero.string_of_uint d).
Proof.
  destruct d; [repeat constructor|..]; exact (one_line_uint _).
Qed.

Lemma one_line_string_of_Z z : one_line (string_of_Z z).
Proof.
  unfold string_of_Z, NilZero.string_of_int.
  destruct (Z.to_int z) as [d|d]; [apply one_line_nz_uint|].
  constructor; [reflexivity|apply one_line_nz_uint].
Qed.

Lemma one_line_value v t : stringify_value v = Some t -> one_line t.
Proof.
  destruct v as [| |[]|[|z]|s]; intros [= <-];
    try (repeat constructor; fail).
  - apply one_line_string_of_Z.
  - apply one_line_quote.
Qed.

Lemma one_line_join sep parts :
  one_line sep -> Forall one_line parts -> one_line (join sep parts).
Proof.
  intros Hs. induction 1 as [|a parts Ha Hp IH]; [constructor|].
  destruct parts as [|b parts]; [exact Ha|].
  change (join sep (a :: b :: parts)) with (a +:+ sep +:+ join sep (b :: parts)).
  auto using one_line_app.
Qed.

Lemma one_line_object props : one_line (stringify_object props).
Proof.
  unfold stringify_object.
  apply one_line_app; [repeat constructor|].
  apply one_line_app; [|repeat constructor].
  apply one_line_join; [repeat constructor|].
  induction props as [|kv props IH]; [constructor|].
  cbn. unfold stringify_property at 1.
  destruct (stringify_value kv.2) as [t|] eqn:Hv; [|exact IH].
  constructor; [|exact IH].
  apply one_line_app; [apply one_line_quote|].
  apply one_line_app; [repeat constructor|]. eapply one_line_value, Hv.
Qed.

Lemma one_line_stringify e : one_line (JSON_stringify e).
Proof. apply one_line_object. Qed.

(** ** A serialized entry reads back *)

Lemma lex_run_app st a b :
  lex_run st (a +:+ b) = lex_run st a ≫= (fun st' => lex_run st' b).
Proof.
  revert st. induction a as [|x a IH]; intros st; [reflexivity|].
  rewrite append_cons. cbn. destruct (lex_step st x); [apply IH|reflexivity].
Qed.

(** Inside a string, the text of a code unit reads back as that code
    unit. *)
Lemma lex_quote_char c acc toks :
  lex_run (InString acc, toks) (quote_char c)
  = Some (InString (snoc acc c), toks).
Proof. destruct c as [[] [] [] [] [] [] [] []]; reflexivity. Qed.

Lemma lex_quote_body s : forall acc toks,
  lex_run (InString acc, toks) (quote_body s)
  = Some (InString (acc +:+ s), toks).
Proof.
  induction s as [|c s IH]; intros acc toks.
  - cbn. rewrite append_empty_r. reflexivity.
  - cbn [quote_body]. rewrite lex_run_app, lex_quote_char. cbn.
    rewrite IH. unfold snoc. rewrite append_assoc. reflexivity.
Qed.

Lemma lex_quote s toks :
  lex_run (Outside, toks) (quote s) = Some (Outside, toks ++ [TString s]).
Proof.
  unfold quote. rewrite lex_run_app.
  change (lex_run (Outside, toks) dquote) with (Some (InString "", toks)). cbn.
  rewrite lex_run_app, lex_quote_body. reflexivity.
Qed.

(** Closes a goal that holds by computation once the token list is
    bracketed to the left. *)
Ltac two_tokens :=
  match goal with
  | |- _ = Some (Outside, ?toks ++ [?a; ?b]) =>
      transitivity (Some (Outside, (toks ++ [a]) ++ [b]));
      [reflexivity|rewrite <- app_assoc; reflexivity]
  end.

(** A plain value followed by a comma or a closing brace. *)
Lemma lex_value v t toks (d : ascii) (dt : token) :
  plain v -> stringify_value v = Some t ->
  (d = ","%char /\ dt = TComma) \/ (d = "}"%char /\ dt = TRBrace) ->
  lex_run (Outside, toks) (t +:+ String d "")
  = Some (Outside, toks ++ [value_token v; dt]).
Proof.
  intros Hp Ht Hd.
  destruct v as [| |[]|n|s]; try destruct Hp; injection Ht as <-.
  - destruct Hd as [[-> ->]|[-> ->]]; two_tokens.
  - destruct Hd as [[-> ->]|[-> ->]]; two_tokens.
  - destruct Hd as [[-> ->]|[-> ->]]; two_tokens.
  - rewrite lex_run_app, lex_quote.
    destruct Hd as [[-> ->]|[-> ->]]; two_tokens.
Qed.

Lemma stringify_property_plain kv :
  plain kv.2 ->
  exists t, stringify_value kv.2 = Some t
            /\ stringify_property kv = Some (quote kv.1 +:+ ":" +:+ t).
Proof.
  intros Hp. unfold stringify_property.
  destruct (stringify_value kv.2) as [t|] eqn:Hv; [eauto|].
  destruct kv as [k [| |[]|n|s]]; cbn in *; try discriminate; destruct Hp.
Qed.

(** One member, then what follows it. *)
Lemma lex_member kv t toks d dt :
  plain kv.2 -> stringify_value kv.2 = Some t ->
  (d = ","%char /\ dt = TComma) \/ (d = "}"%char /\ dt = TRBrace) ->
  lex_run (Outside, toks) ((quote kv.1 +:+ ":" +:+ t) +:+ String d "")
  = Some (Outside, toks ++ [TString kv.1; TColon; value_token kv.2; dt]).
Proof.
  intros Hp Ht Hd. rewrite !append_assoc, lex_run_app, lex_quote.
  transitivity (lex_run (Outside, (toks ++ [TString kv.1]) ++ [TColon])
                  (t +:+ String d "")); [reflexivity|].
  rewrite (lex_value _ _ _ _ _ Hp Ht Hd), <- !app_assoc. reflexivity.
Qed.

Lemma lex_members props : forall toks,
  props <> [] -> Forall (fun kv => plain kv.2) props ->
  lex_run (Outside, toks) (join "," (omap stringify_property props) +:+ "}")
  = Some (Outside, toks ++ member_tokens props).
Proof.
  induction props as [|kv props IH]; intros toks Hne Hall; [congruence|].
  inversion Hall as [|? ? Hkv Hrest]; subst.
  destruct (stringify_property_plain kv Hkv) as (t & Hv & Hs).
  cbn [omap list_omap]. rewrite Hs.
  destruct props as [|kv2 props].
  - cbn [omap list_omap join].
    rewrite (lex_member kv t toks "}" TRBrace Hkv Hv); auto.
  - inversion Hrest as [|? ? Hkv2 _]; subst.
    destruct (stringify_property_plain kv2 Hkv2) as (t2 & Hv2 & Hs2).
    cbn [omap list_omap]. rewrite Hs2.
    cbn [omap list_omap] in IH. rewrite Hs2 in IH.
    set (tail := omap stringify_property props) in *.
    assert (Etext :
      join "," ((quote kv.1 +:+ ":" +:+ t)
                :: (quote kv2.1 +:+ ":" +:+ t2) :: tail) +:+ "}"
      = ((quote kv.1 +:+ ":" +:+ t) +:+ String ","%char "")
        +:+ (join "," ((quote kv2.1 +:+ ":" +:+ t2) :: tail) +:+ "}")).
    { change (join "," ((quote kv.1 +:+ ":" +:+ t)
                        :: (quote kv2.1 +:+ ":" +:+ t2) :: tail))
        with ((quote kv.1 +:+ ":" +:+ t) +:+ ","
              +:+ join "," ((quote kv2.1 +:+ ":" +:+ t2) :: tail)).
      rewrite !append_assoc. reflexivity. }
    rewrite Etext.
    rewrite lex_run_app, (lex_member kv t toks "," TComma Hkv Hv) by auto.
    cbn [mbind option_bind]. rewrite IH by (auto; discriminate).
    cbn [member_tokens]. rewrite <- app_assoc. reflexivity.
Qed.

Lemma value_of_token v : plain v -> value_of (value_token v) = Some v.
Proof. destruct v as [| |[]|n|s]; intros []; reflexivity. Qed.

Lemma members_tokens props :
  props <> [] -> Forall (fun kv => plain kv.2) props ->
  members (member_tokens props) = Some props.
Proof.
  induction props as [|[k v] props IH]; intros Hne Hall; [congruence|].
  inversion Hall as [|? ? Hkv Hrest]; subst. cbn in Hkv.
  cbn [member_tokens fst snd app]. cbn [members].
  rewrite (value_of_token v Hkv).
  destruct props as [|kv2 props]; [reflexivity|].
  rewrite IH by (auto; discriminate). reflexivity.
Qed.

(** An object of plain values reads back as written. *)
Lemma parse_stringify_object props :
  props <> [] -> Forall (fun kv => plain kv.2) props ->
  parse_object (stringify_object props) = Some props.
Proof.
  intros Hne Hall. unfold parse_object, tokens, stringify_object.
  change ("{" +:+ join "," (omap stringify_property props) +:+ "}")
    with (String "{"%char (join "," (omap stringify_property props) +:+ "}")).
  cbn [lex_run]. change (lex_step (Outside, []) "{") with (Some (Outside, [TLBrace])).
  cbv iota beta. rewrite (lex_members props [TLBrace] Hne Hall).
  cbn [app]. destruct props as [|kv props]; [congruence|].
  rewrite <- (members_tokens (kv :: props) Hne Hall).
  cbn [member_tokens]. destruct props; reflexivity.
Qed.

Lemma valid_entry_plain e :
  valid_entry e -> Forall (fun kv => plain kv.2) (properties e).
Proof.
  intros ([s1 H1] & [s2 H2] & H3 & (q & H4 & _) & H5 & H6 & [b H7]).
  unfold properties. rewrite H1, H2, H4, H7.
  repeat constructor; cbn;
    match goal with
    | H : text_or_null ?v |- plain ?v => destruct H as [->|[? ->]]; exact I
    end.
Qed.

(** A valid entry reads back from its line. *)
Lemma valid_entry_parses e : valid_entry e -> parses_to (JSON_stringify e) e.
Proof.
  intros He. unfold parses_to, JSON_stringify.
  apply parse_stringify_object; [discriminate|apply valid_entry_plain, He].
Qed.

(** ** The lines of a log *)

Lemma split_on_line l rest :
  one_line l ->
  split_on (ascii_of_nat 10) (l +:+ String (ascii_of_nat 10) rest)
  = l :: split_on (ascii_of_nat 10) rest.
Proof.
  induction l as [|c l IH]; intros Hl; [reflexivity|].
  inversion Hl as [|? ? Hc Hl']; subst. unfold is_newline in Hc.
  rewrite append_cons. cbn [split_on]. rewrite Hc, (IH Hl'). reflexivity.
Qed.

Lemma log_lines_cons l rest :
  one_line l -> l <> "" ->
  log_lines (l +:+ nl +:+ rest) = l :: log_lines rest.
Proof.
  intros Hl Hne. unfold log_lines, nl. rewrite append_cons, append_nil_l.
  rewrite (split_on_line _ _ Hl). cbn [List.filter].
  destruct (String.eqb_spec l ""); [congruence|reflexivity].
Qed.

Lemma stringify_not_empty e : JSON_stringify e <> "".
Proof. discriminate. Qed.

(** The lines of the concatenation of serialized entries. *)
Lemma log_lines_entries es :
  log_lines (fold_right (fun e t => JSON_stringify e +:+ nl +:+ t) "" es)
  = map JSON_stringify es.
Proof.
  induction es as [|e es IH]; [reflexivity|]. cbn [fold_right map].
  rewrite log_lines_cons, IH;
    auto using one_line_stringify, stringify_not_empty.
Qed.

(** ** Appending *)

Lemma log_path_segments root :
  log_path root = (root ++ ["memory"; "reflector"]) ++ ["outcomes.jsonl"].
Proof.
  unfold log_path, path_join. cbn. rewrite <- !app_assoc. reflexivity.
Qed.

Lemma log_dir_segments root :
  dirname (log_path root) = root ++ ["memory"; "reflector"].
Proof. rewrite log_path_segments. apply removelast_last. Qed.

Lemma log_path_not_on_the_way root :
  ~ log_path root `prefix_of` dirname (log_path root).
Proof.
  rewrite log_dir_segments, log_path_segments. intros [k Hk].
  apply (f_equal length) in Hk. rewrite !length_app in Hk. cbn in Hk. lia.
Qed.

Lemma log_dir_not_log root : dirname (log_path root) <> log_path root.
Proof.
  intros Heq. apply (log_path_not_on_the_way root). rewrite Heq. reflexivity.
Qed.

Lemma stat_none_extend p q : forall n,
  stat p n = None -> stat (p ++ q) n = None.
Proof.
  induction p as [|s p IH]; intros n Hn; [discriminate Hn|].
  destruct n as [c|es]; [reflexivity|].
  cbn [app]. rewrite stat_cons_dir in Hn |- *.
  destruct (es !! s) as [c0|]; [apply IH, Hn|reflexivity].
Qed.

(** What [appendEntry] does, step by step. *)
Lemma appendEntry_unfold E e root w :
  let lp := log_path (default (cwd E) root) in
  let line := JSON_stringify e +:+ nl in
  appendEntry E e root w =
    match (if exists_path (dirname lp) (fs w) then inr (fs w)
           else mkdir_p (dirname lp) (fs w)) with
    | inl err => (Throws (StorageFailure err (dirname lp)), w)
    | inr n1 =>
        match append_file lp line n1 with
        | inl err => (Throws (StorageFailure err lp), World n1 (console w))
        | inr n2 => (Returns lp, World n2 (console w))
        end
    end.
Proof.
  intros lp line. unfold appendEntry, bind, existsSync. fold lp. fold line.
  cbn [fst snd]. destruct (exists_path (dirname lp) (fs w)); cbn [negb when].
  - unfold ret, appendFileSync, fs_step.
    destruct (append_file lp line (fs w)); destruct w; reflexivity.
  - unfold mkdirSync_recursive, fs_step.
    destruct (mkdir_p (dirname lp) (fs w)); [reflexivity|].
    unfold appendFileSync, fs_step. cbn [fs console].
    destruct (append_file lp line _); reflexivity.
Qed.

(** Creating the log directory leaves the log as it is. *)
Lemma log_text_after_mkdir root n n1 :
  mkdir_p (dirname (log_path root)) n = inr n1 ->
  content_at (log_path root) n1 = content_at (log_path root) n.
Proof.
  intros Hm. unfold content_at.
  destruct (stat (log_path root) n) as [k|] eqn:H0.
  - rewrite (mkdir_p_keeps _ _ _ _ _ Hm H0). reflexivity.
  - destruct (stat (log_path root) n1) as [k|] eqn:H1; [|reflexivity].
    destruct (mkdir_p_new _ _ _ _ _ Hm H0 H1) as [_ Hp].
    destruct (log_path_not_on_the_way root Hp).
Qed.

(** A returning append: the path returned, the text of the log after
    it, and the shape of the filesystem. *)
Lemma appendEntry_returns E e root w p w' :
  appendEntry E e root w = (Returns p, w') ->
  p = log_path (default (cwd E) root)
  /\ log_text (default (cwd E) root) (fs w')
     = log_text (default (cwd E) root) (fs w) +:+ JSON_stringify e +:+ nl
  /\ stat p (fs w')
     = Some (IsFile (log_text (default (cwd E) root) (fs w')))
  /\ ready_root (default (cwd E) root) (fs w').
Proof.
  rewrite appendEntry_unfold. set (r := default (cwd E) root).
  set (line := JSON_stringify e +:+ nl).
  destruct (if exists_path (dirname (log_path r)) (fs w) then inr (fs w)
            else mkdir_p (dirname (log_path r)) (fs w)) as [err|n1] eqn:H1;
    [discriminate|].
  destruct (append_file (log_path r) line n1) as [err|n2] eqn:H2;
    [discriminate|].
  intros [= <- <-]. cbn [fs].
  assert (Hc : content_at (log_path r) n1 = content_at (log_path r) (fs w)).
  { destruct (exists_path (dirname (log_path r)) (fs w)).
    - injection H1 as <-. reflexivity.
    - apply log_text_after_mkdir, H1. }
  destruct (put_file_at _ _ _ _ H2) as [_ Hat]. rewrite Hc in Hat.
  assert (Ht : log_text r n2 = log_text r (fs w) +:+ line).
  { unfold log_text at 1, content_at at 1. rewrite Hat. reflexivity. }
  split; [reflexivity|]. split; [exact Ht|]. split; [rewrite Ht; exact Hat|].
  split; [|rewrite Hat; discriminate].
  rewrite (put_file_other _ _ _ _ _ H2) by apply log_dir_not_log.
  rewrite log_dir_segments. rewrite log_path_segments in H2.
  eapply put_file_parent, H2.
Qed.

(** An append returns when the root is fresh or ready. *)
Lemma appendEntry_ok E e root w :
  fresh_root (default (cwd E) root) (fs w)
  \/ ready_root (default (cwd E) root) (fs w) ->
  exists w',
    appendEntry E e root w = (Returns (log_path (default (cwd E) root)), w').
Proof.
  rewrite appendEntry_unfold. set (r := default (cwd E) root).
  set (line := JSON_stringify e +:+ nl). intros H.
  assert (H1 : exists n1,
            (if exists_path (dirname (log_path r)) (fs w) then inr (fs w)
             else mkdir_p (dirname (log_path r)) (fs w)) = inr n1
            /\ ready_root r n1).
  { destruct H as [[Hr Hm]|[Hd Hl]].
    - assert (Hx : exists_path (dirname (log_path r)) (fs w) = false).
      { apply exists_path_false. rewrite log_dir_segments.
        apply (stat_none_extend (r ++ ["memory"]) ["reflector"]) in Hm.
        rewrite <- app_assoc in Hm. exact Hm. }
      rewrite Hx, log_dir_segments.
      destruct (mkdir_p_below r "memory" ["reflector"] (fs w) Hr Hm)
        as [n1 Hn1].
      exists n1. split; [exact Hn1|]. split.
      + rewrite log_dir_segments. eapply mkdir_p_made, Hn1.
      + rewrite <- log_dir_segments in Hn1.
        pose proof (log_text_after_mkdir r _ _ Hn1) as Hc.
        unfold content_at in Hc.
        assert (H0 : stat (log_path r) (fs w) = None).
        { rewrite log_path_segments.
          apply (stat_none_extend (r ++ ["memory"])
                   ["reflector"; "outcomes.jsonl"]) in Hm.
          rewrite <- !app_assoc in Hm |- *. exact Hm. }
        rewrite H0 in Hc.
        destruct (stat (log_path r) n1) as [[c|]|] eqn:H1; try discriminate.
        destruct (mkdir_p_new _ _ _ _ _ Hn1 H0 H1) as [_ Hp].
        destruct (log_path_not_on_the_way r Hp).
    - assert (Hx : exists_path (dirname (log_path r)) (fs w) = true).
      { apply exists_path_true. eexists. exact Hd. }
      rewrite Hx. exists (fs w). split; [reflexivity|]. split; assumption. }
  destruct H1 as (n1 & -> & Hd & Hl).
  rewrite log_dir_segments in Hd. rewrite log_path_segments in Hl |- *.
  destruct (put_file_in_dir (fun old => default "" old +:+ line) _
              "outcomes.jsonl" n1 Hd Hl) as [n2 Hn2].
  unfold append_file. rewrite Hn2. eexists. reflexivity.
Qed.

Lemma fresh_root_no_log root n : fresh_root root n -> log_text root n = "".
Proof.
  intros [_ Hm]. unfold log_text, content_at. rewrite log_path_segments.
  apply (stat_none_extend (root ++ ["memory"]) ["reflector"; "outcomes.jsonl"])
    in Hm.
  rewrite <- !app_assoc in Hm |- *. cbn in Hm |- *. rewrite Hm. reflexivity.
Qed.

(** Appending a list of entries to a fresh or ready root. *)
Lemma append_all_from E root es : forall acc w,
  fresh_root (default (cwd E) root) (fs w)
  \/ ready_root (default (cwd E) root) (fs w) ->
  exists w',
    for_of es (fun acc e => bind (appendEntry E e root)
                                 (fun p => ret (acc ++ [p]))) acc w
    = (Returns (acc ++ repeat (log_path (default (cwd E) root)) (length es)), w')
    /\ log_text (default (cwd E) root) (fs w')
       = log_text (default (cwd E) root) (fs w)
         +:+ fold_right (fun e t => JSON_stringify e +:+ nl +:+ t) "" es.
Proof.
  induction es as [|e es IH]; intros acc w H.
  - exists w. cbn. rewrite app_nil_r, append_empty_r. auto.
  - destruct (appendEntry_ok E e root w H) as [w1 H1].
    destruct (appendEntry_returns _ _ _ _ _ _ H1) as (_ & Ht & _ & Hready).
    destruct (IH (acc ++ [log_path (default (cwd E) root)]) w1 (or_intror Hready))
      as (w' & Hrun & Ht').
    exists w'. cbn [for_of]. unfold bind at 1. unfold bind at 1. rewrite H1.
    cbn [ret]. split.
    + rewrite Hrun, <- app_assoc. reflexivity.
    + rewrite Ht', Ht. cbn [fold_right]. rewrite !append_assoc. reflexivity.
Qed.

(** C9. For every entry and root: an append that returns has returned
    the path of the log under the root and has added to the end of the
    log the serialized entry and a line feed, nothing before it being
    changed; the log is then a regular file in an existing directory;
    the serialized entry holds no line feed, so one line was added; and
    the append does return on a fresh root (directory and file are
    created) and on a root whose log directory exists.  Appending N
    entries in sequence to a fresh root returns N times the log path
    and yields a log of exactly N lines, the serialized entries in
    call order, each of which reads back as its entry when the entry
    is valid. *)
Theorem appendEntry_spec (E : env) (root : option path) :
  let r := default (cwd E) root in
  (forall e w p w',
      appendEntry E e root w = (Returns p, w') ->
      p = log_path r
      /\ log_text r (fs w') = log_text r (fs w) +:+ JSON_stringify e +:+ nl
      /\ stat (log_path r) (fs w') = Some (IsFile (log_text r (fs w')))
      /\ stat (dirname (log_path r)) (fs w') = Some IsDir
      /\ one_line (JSON_stringify e))
  /\ (forall e w,
        fresh_root r (fs w) \/ ready_root r (fs w) ->
        exists w', appendEntry E e root w = (Returns (log_path r), w'))
  /\ (forall es w,
        fresh_root r (fs w) ->
        exists ps w',
          append_all E root es w = (Returns ps, w')
          /\ ps = repeat (log_path r) (length es)
          /\ log_lines (log_text r (fs w')) = map JSON_stringify es
          /\ length (log_lines (log_text r (fs w'))) = length es
          /\ Forall (fun e => valid_entry e -> parses_to (JSON_stringify e) e)
                    es).
Proof.
  intros r. split; [|split].
  - intros e w p w' H.
    destruct (appendEntry_returns _ _ _ _ _ _ H) as (-> & Ht & Hs & Hd & _).
    auto using one_line_stringify.
  - intros e w. apply appendEntry_ok.
  - intros es w Hf.
    destruct (append_all_from E root es [] w (or_introl Hf)) as (w' & Hrun & Ht).
    exists (repeat (log_path r) (length es)), w'.
    fold r in Ht. rewrite (fresh_root_no_log _ _ Hf), append_nil_l in Ht.
    split; [exact Hrun|]. split; [reflexivity|].
    rewrite Ht, log_lines_entries. split; [reflexivity|].
    split; [apply length_map|].
    apply Forall_forall. intros e _. apply valid_entry_parses.
Qed.

Lemma appendEntry_spec_witness :
  exists ps w',
    append_all Samples.sample_env None
      [Samples.first_entry; Samples.second_entry] Samples.fresh_world
    = (Returns ps, w')
    /\ ps = [ ["tmp"; "w"; "memory"; "reflector"; "outcomes.jsonl"];
              ["tmp"; "w"; "memory"; "reflector"; "outcomes.jsonl"] ]
    /\ log_lines (log_text ["tmp"; "w"] (fs w'))
       = [JSON_stringify Samples.first_entry;
          JSON_stringify Samples.second_entry].
Proof.
  destruct (proj2 (proj2 (appendEntry_spec Samples.sample_env None))
              [Samples.first_entry; Samples.second_entry] Samples.fresh_world)
    as (ps & w' & Hrun & Hps & Hlines & _).
  - split; reflexivity.
  - exists ps, w'. split; [exact Hrun|]. split; [exact Hps|exact Hlines].
Defined.

End LogProofs.

(* ===================================================================== *)
(** * Initialisation: what a run does to the whole filesystem *)
(* ===================================================================== *)

Module InitExtras.
Import Js Time Fs Logic RunVocabulary FsProofs LogicProofs InitReflector InitProofs.

(** Every run of [init] only grows the filesystem. *)
Lemma init_grows E opts w r w1 :
  init E opts w = (r, w1) ->
  grows (init_news (resolved_root E opts) dirs files) (fs w) (fs w1).
Proof.
  intros Hrun. pose proof (init_hoare E opts (fs w) w eq_refl) as H.
  rewrite Hrun in H. destruct r; apply H.
Qed.

(** X1. Whatever the options and whether it returns or throws, [init]
    removes nothing and rewrites nothing: every path that existed
    before the run, tracked or not, is still there with the same kind
    and, for a file, the same content. *)
Theorem init_keeps_every_path (E : env) (opts : Opts.t) (w : world)
    (r : result report) (w1 : world) (q : path) (k : kind) :
  init E opts w = (r, w1) ->
  stat q (fs w) = Some k ->
  stat q (fs w1) = Some k.
Proof. intros Hrun. apply (init_grows _ _ _ _ _ Hrun). Qed.

Lemma init_keeps_every_path_witness :
  exists r w1,
    init Samples.sample_env Samples.no_options Samples.installed_world = (r, w1)
    /\ stat ["opt"; "reflector"; "prompts"; "daily-review.txt"] (fs w1)
       = Some (IsFile "Reflector daily review").
Proof.
  eexists _, _. split; [vm_compute; reflexivity|].
  eapply (init_keeps_every_path Samples.sample_env Samples.no_options
            Samples.installed_world); vm_compute; reflexivity.
Defined.

(** X2. A path that a run of [init] adds is either a directory on the
    way to one of the three tracked directories (the root and its
    ancestors included), or one of the three tracked files holding its
    default content.  Nothing else appears. *)
Theorem init_adds_only_tracked_paths (E : env) (opts : Opts.t) (w : world)
    (r : result report) (w1 : world) (q : path) (k : kind) :
  init E opts w = (r, w1) ->
  stat q (fs w) = None ->
  stat q (fs w1) = Some k ->
  (k = IsDir
   /\ exists d, In d dirs /\ q `prefix_of` dir_path (resolved_root E opts) d)
  \/ (exists item, In item files
                   /\ q = file_path (resolved_root E opts) item
                   /\ k = IsFile item.2).
Proof. intros Hrun. apply (init_grows _ _ _ _ _ Hrun). Qed.

Lemma init_adds_only_tracked_paths_witness :
  exists r w1,
    init Samples.sample_env Samples.no_options Samples.installed_world = (r, w1)
    /\ exists item,
         In item files
         /\ ["tmp"; "w"; "memory"; "reflector"; "outcomes.jsonl"]
            = file_path ["tmp"; "w"] item
         /\ item.2 = "".
Proof.
  eexists _, _. split; [vm_compute; reflexivity|].
  edestruct (init_adds_only_tracked_paths Samples.sample_env
               Samples.no_options Samples.installed_world)
    with (q := ["tmp"; "w"; "memory"; "reflector"; "outcomes.jsonl"])
         (k := IsFile "")
    as [[Hk _]|(item & Hi & Hq & Hc)].
  - vm_compute. reflexivity.
  - vm_compute. reflexivity.
  - vm_compute. reflexivity.
  - discriminate Hk.
  - exists item. split; [exact Hi|]. split; [exact Hq|]. congruence.
Defined.

(** Two tracked entries at the same place are the same entry. *)
Lemma file_path_inj root item item' :
  In item files -> In item' files ->
  file_path root item' = file_path root item -> item' = item.
Proof.
  unfold files, file_path. cbn [In]. intros Hi Hi'.
  destruct Hi as [<-|[<-|[<-|[]]]]; destruct Hi' as [<-|[<-|[<-|[]]]];
    cbn [fst]; intros Hp; try reflexivity; exfalso; no_prefix Hp.
Qed.

Lemma file_not_on_the_way root item d :
  In item files -> In d dirs ->
  ~ file_path root item `prefix_of` dir_path root d.
Proof.
  unfold files, dirs, file_path, dir_path. cbn [In]. intros Hi Hd Hp.
  destruct Hi as [<-|[<-|[<-|[]]]]; destruct Hd as [<-|[<-|[<-|[]]]];
    cbn [fst] in Hp; no_prefix Hp.
Qed.

Lemma dir_is_no_file root item d :
  In item files -> In d dirs -> dir_path root d <> file_path root item.
Proof.
  unfold files, dirs, file_path, dir_path. cbn [In]. intros Hi Hd Hp.
  destruct Hi as [<-|[<-|[<-|[]]]]; destruct Hd as [<-|[<-|[<-|[]]]];
    cbn [fst] in Hp; no_prefix Hp.
Qed.

Lemma tracked_present root n :
  all_present n (tracked root) ->
  (forall d, In d dirs -> is_Some (stat (dir_path root d) n))
  /\ (forall item, In item files -> is_Some (stat (file_path root item) n)).
Proof.
  unfold all_present, tracked. rewrite Forall_app, !Forall_map, !Forall_forall.
  intros [Hd Hf].
  split; [intros d H; apply Hd, list_elem_of_In, H
         |intros i H; apply Hf, list_elem_of_In, H].
Qed.

(** X3. After a run of [init] that returns with the dry-run flag off,
    every tracked path exists; each tracked file that was missing holds
    exactly its default content (the template for [PRINCIPLES.md], the
    empty text for the two logs), and each tracked directory that was
    missing is a directory. *)
Theorem init_creates_defaults (E : env) (opts : Opts.t) (w : world)
    (rep : report) (w1 : world) :
  Opts.dryRun opts = false ->
  init E opts w = (Returns rep, w1) ->
  (forall d, In d dirs ->
     is_Some (stat (dir_path (resolved_root E opts) d) (fs w1))
     /\ (stat (dir_path (resolved_root E opts) d) (fs w) = None ->
         stat (dir_path (resolved_root E opts) d) (fs w1) = Some IsDir))
  /\ (forall item, In item files ->
       is_Some (stat (file_path (resolved_root E opts) item) (fs w1))
       /\ (stat (file_path (resolved_root E opts) item) (fs w) = None ->
           stat (file_path (resolved_root E opts) item) (fs w1)
           = Some (IsFile item.2))).
Proof.
  intros Hreal Hrun.
  pose proof (init_hoare E opts (fs w) w eq_refl) as H. rewrite Hrun in H.
  destruct H as ([_ N] & _ & _ & Hall & _). specialize (Hall Hreal).
  apply tracked_present in Hall as [Hd Hf]. split.
  - intros d Hin. split; [apply Hd, Hin|]. intros H0.
    destruct (Hd d Hin) as [k Hk]. rewrite Hk. f_equal.
    destruct (N _ _ H0 Hk) as [[-> _]|(item & Hi & Hp & _)]; [reflexivity|].
    destruct (dir_is_no_file _ _ _ Hi Hin Hp).
  - intros item Hin. split; [apply Hf, Hin|]. intros H0.
    destruct (Hf item Hin) as [k Hk]. rewrite Hk. f_equal.
    destruct (N _ _ H0 Hk) as [(_ & d & Hd' & Hp)|(item' & Hi & Hp & ->)].
    + destruct (file_not_on_the_way _ _ _ Hin Hd' Hp).
    + symmetry in Hp. rewrite (file_path_inj _ _ _ Hin Hi Hp). reflexivity.
Qed.

Lemma init_creates_defaults_witness :
  exists rep w1,
    init Samples.sample_env Samples.no_options Samples.installed_world
    = (Returns rep, w1)
    /\ stat ["tmp"; "w"; "PRINCIPLES.md"] (fs w1)
       = Some (IsFile principlesTemplate)
    /\ stat ["tmp"; "w"; "memory"; "reflector"; "weekly-summaries"] (fs w1)
       = Some IsDir.
Proof.
  eexists _, _. split; [vm_compute; reflexivity|].
  edestruct (init_creates_defaults Samples.sample_env Samples.no_options
               Samples.installed_world) as [Hd Hf].
  - reflexivity.
  - vm_compute. reflexivity.
  - split.
    + apply (Hf ("PRINCIPLES.md", principlesTemplate)); [left; reflexivity|].
      vm_compute. reflexivity.
    + apply (Hd "memory/reflector/weekly-summaries");
        [right; right; left; reflexivity|]. vm_compute. reflexivity.
Defined.

(** X4. In every report [init] returns, dry run or not, [created] is
    the list of the tracked names, in layout order, whose path did not
    exist when the run started, and [existed] the list of those whose
    path did. *)
Theorem init_report_sorts_by_presence (E : env) (opts : Opts.t) (w : world)
    (rep : report) (w1 : world) :
  init E opts w = (Returns rep, w1) ->
  created rep = absent_names (fs w) (tracked (resolved_root E opts))
  /\ existed rep = present_names (fs w) (tracked (resolved_root E opts)).
Proof.
  intros Hrun.
  pose proof (init_hoare E opts (fs w) w eq_refl) as H. rewrite Hrun in H.
  destruct H as (_ & A1 & A2 & _). auto.
Qed.

Lemma init_report_sorts_by_presence_witness :
  exists rep w1,
    init Samples.sample_env Samples.no_options Samples.started_world
    = (Returns rep, w1)
    /\ existed rep = ["memory/"]
    /\ created rep
       = ["memory/reflector/"; "memory/reflector/weekly-summaries/";
          "PRINCIPLES.md"; "memory/reflector/outcomes.jsonl";
          "memory/reflector/principles-history.jsonl"].
Proof.
  eexists _, _. split; [vm_compute; reflexivity|].
  edestruct (init_report_sorts_by_presence Samples.sample_env
               Samples.no_options Samples.started_world) as [Hc He].
  - vm_compute. reflexivity.
  - split; [exact He|exact Hc].
Defined.

(** ** When a run returns *)

Lemma prefix_snoc_inv {A} (q l : list A) (x : A) :
  q `prefix_of` l ++ [x] -> q = l ++ [x] \/ q `prefix_of` l.
Proof.
  intros [k Hk]. destruct k as [|y k _] using rev_ind.
  - left. rewrite app_nil_r in Hk. auto.
  - right. rewrite app_assoc in Hk. apply app_inj_tail in Hk as [-> _].
    exists k. reflexivity.
Qed.

(** Directories can be created along a path that no regular file
    blocks. *)
Lemma mkdir_p_ok p : forall n,
  (forall q c, q `prefix_of` p -> stat q n <> Some (IsFile c)) ->
  exists n', mkdir_p p n = inr n'.
Proof.
  induction p as [|s p IH]; intros n Hfree.
  - destruct n as [c|es]; [|eexists; reflexivity].
    destruct (Hfree [] c (prefix_nil _)). reflexivity.
  - destruct n as [c|es].
    { destruct (Hfree [] c (prefix_nil _)). reflexivity. }
    cbn [mkdir_p]. destruct (IH (default (Dir ∅) (es !! s))) as [n' ->];
      [|eexists; reflexivity].
    intros q c Hq Hs. destruct (es !! s) as [ch|] eqn:Es; cbn in Hs.
    + apply (Hfree (s :: q) c (prefix_cons _ _ _ Hq)).
      rewrite stat_cons_dir, Es. exact Hs.
    + apply stat_empty_dir in Hs as [_ Hk]. discriminate Hk.
Qed.

(** What lies above an existing path is a directory. *)
Lemma stat_prefix_is_dir p q : forall n k,
  q <> [] -> stat (p ++ q) n = Some k -> stat p n = Some IsDir.
Proof.
  induction p as [|s p IH]; intros n k Hq Hs.
  - destruct q as [|x q]; [congruence|]. destruct n; [discriminate Hs|reflexivity].
  - destruct n as [c|es]; [discriminate Hs|]. cbn [app] in Hs.
    rewrite stat_cons_dir in Hs |- *.
    destruct (es !! s) as [ch|]; [|discriminate Hs]. cbn in *. eapply IH; eauto.
Qed.

Lemma unobstructed_grows root (news : path -> kind -> Prop) n n' :
  (forall q k, news q k -> forall c, k <> IsFile c) ->
  grows news n n' -> unobstructed root n -> unobstructed root n'.
Proof.
  intros Hnews [K N] U q c Hq Hs.
  destruct (stat q n) as [k|] eqn:H0.
  - rewrite (K _ _ H0) in Hs. injection Hs as ->. exact (U q c Hq H0).
  - exact (Hnews _ _ (N _ _ H0 Hs) c eq_refl).
Qed.

(** A step of a real run that cannot throw. *)
Lemma ensure_generic_safe (I : node -> Prop) e op seen made acc :
  (forall n, I n -> stat e.2 n = None -> exists n', op n = inr n' /\ I n') ->
  hoare (fun w => I (fs w)) (ensure_generic e op seen made false acc)
        (fun _ w => I (fs w)) (fun _ => False).
Proof.
  intros Hop w Hw. unfold ensure_generic.
  destruct (exists_path e.2 (fs w)) eqn:Hx; [exact Hw|].
  apply exists_path_false in Hx. destruct (Hop _ Hw Hx) as (n' & -> & Hn').
  exact Hn'.
Qed.

Lemma dir_prefixes root d q :
  In d dirs -> q `prefix_of` dir_path root d ->
  q = dir_path root d \/ q `prefix_of` (root ++ ["memory"; "reflector"]).
Proof.
  unfold dirs, dir_path. cbn [In]. intros [<-|[<-|[<-|[]]]] Hq.
  - rewrite dir1_path in Hq |- *. apply prefix_snoc_inv in Hq as [->|Hq];
      [auto|right; apply prefix_app_r, Hq].
  - rewrite dir2_path in Hq. auto.
  - rewrite dir3_path in Hq |- *.
    change (root ++ ["memory"; "reflector"; "weekly-summaries"])
      with (root ++ ["memory"; "reflector"] ++ ["weekly-summaries"]) in Hq |- *.
    rewrite app_assoc in Hq |- *. apply prefix_snoc_inv in Hq as [->|Hq]; auto.
Qed.

Lemma dirs_loop_safe root acc :
  hoare (fun w => unobstructed root (fs w))
        (for_of dirs (ensure_dir root false) acc)
        (fun _ w => unobstructed root (fs w)) (fun _ => False).
Proof.
  apply (hoare_for_of (fun _ _ w => unobstructed root (fs w)) (fun _ => False)).
  intros done x rest acc' Hl.
  eapply hoare_ext; [intros w; apply ensure_dir_shape|].
  apply (ensure_generic_safe (unobstructed root)).
  intros n U H0. cbn [dir_entry snd] in H0 |- *.
  assert (Hin : In x dirs) by (rewrite Hl; apply in_or_app; right; left; auto).
  destruct (mkdir_p_ok (path_join root [x]) n) as [n' Hn'].
  { intros q c Hq Hs. destruct (dir_prefixes root x q Hin Hq) as [->|Hq'].
    - unfold dir_path in Hs. congruence.
    - exact (U q c Hq' Hs). }
  exists n'. split; [exact Hn'|].
  eapply unobstructed_grows; [|apply grows_mkdir, Hn'|exact U].
  intros q k [-> _] c. discriminate.
Qed.

Lemma file_parent root item :
  In item files ->
  exists d name,
    file_path root item = d ++ [name]
    /\ (d = root \/ d = root ++ ["memory"; "reflector"]).
Proof.
  unfold files, file_path. cbn [In]. intros [<-|[<-|[<-|[]]]]; cbn [fst].
  - exists root, "PRINCIPLES.md". rewrite file1_path. auto.
  - exists (root ++ ["memory"; "reflector"]), "outcomes.jsonl".
    rewrite file2_path, <- app_assoc. auto.
  - exists (root ++ ["memory"; "reflector"]), "principles-history.jsonl".
    rewrite file3_path, <- app_assoc. auto.
Qed.

Lemma files_loop_safe root acc :
  hoare (fun w => parents_ready root (fs w))
        (for_of files (ensure_file root false) acc)
        (fun _ w => parents_ready root (fs w)) (fun _ => False).
Proof.
  apply (hoare_for_of (fun _ _ w => parents_ready root (fs w)) (fun _ => False)).
  intros done x rest acc' Hl.
  eapply hoare_ext; [intros w; apply ensure_file_shape|].
  apply (ensure_generic_safe (parents_ready root)).
  intros n [Hr Hm] H0. cbn [file_entry snd] in H0 |- *.
  assert (Hin : In x files) by (rewrite Hl; apply in_or_app; right; left; auto).
  destruct (file_parent root x Hin) as (d & name & Hp & Hd).
  unfold file_path in Hp. rewrite Hp in H0 |- *.
  assert (Hdir : stat d n = Some IsDir) by (destruct Hd as [->| ->]; assumption).
  destruct (put_file_in_dir (fun _ => x.2) d name n Hdir) as [n' Hn'];
    [congruence|].
  exists n'. split; [exact Hn'|].
  split; rewrite (put_file_other _ _ _ _ _ Hn'); auto; intros Heq;
    rewrite <- Heq in H0; congruence.
Qed.

(** Both loops of a real run return when nothing blocks the way. *)
Lemma loops_return_unobstructed root w :
  unobstructed root (fs w) ->
  exists acc wc, loops root false w = (Returns acc, wc).
Proof.
  intros U. unfold loops, bind.
  pose proof (dirs_loop_safe root ([], []) w U) as Hsafe.
  pose proof (dirs_loop_hoare (fs w) false root w eq_refl) as Hinv.
  destruct (for_of dirs (ensure_dir root false) ([], []) w) as [[acc1|e] wb];
    [|destruct Hsafe].
  destruct Hinv as (_ & _ & _ & Hall & _). specialize (Hall eq_refl).
  assert (Hws : is_Some (stat (root ++ ["memory"; "reflector"; "weekly-summaries"])
                              (fs wb))).
  { unfold all_present, dirs in Hall. cbn [map] in Hall.
    inversion Hall as [|? ? _ H2]; subst. inversion H2 as [|? ? _ H3]; subst.
    inversion H3 as [|? ? H4 _]; subst. cbn [dir_entry snd] in H4.
    rewrite dir3_path in H4. exact H4. }
  destruct Hws as [k Hk].
  assert (Hready : parents_ready root (fs wb)).
  { split.
    - apply (stat_prefix_is_dir root
               ["memory"; "reflector"; "weekly-summaries"] _ k); [discriminate|].
      exact Hk.
    - apply (stat_prefix_is_dir (root ++ ["memory"; "reflector"])
               ["weekly-summaries"] _ k); [discriminate|].
      rewrite <- app_assoc. exact Hk. }
  pose proof (files_loop_safe root acc1 wb Hready) as Hsafe2.
  destruct (for_of files (ensure_file root false) acc1 wb) as [[acc2|e] wc];
    [eauto|destruct Hsafe2].
Qed.





(** Checks a bounded statement about the prefixes of a concrete path. *)
Ltac each_prefix Hk Hs :=
  cbn in Hk;
  repeat match type of Hk with
  | _ :: _ = ?q ++ _ =>
      destruct q as [|? ?];
      [vm_compute in Hs; discriminate Hs|cbn in Hk; injection Hk as <- Hk]
  | [] = ?q ++ _ =>
      destruct q as [|? ?]; [vm_compute in Hs; discriminate Hs|discriminate Hk]
  end.


(** X6. The prompts are loaded after the workspace is written.  With
    the dry-run flag off, the prompts wanted, valid times and nothing
    in the way, a daily prompt that cannot be read makes [init] throw
    the storage failure of that file, and every tracked path exists
    when it does: the call fails with the workspace created. *)
Theorem init_prompt_failure_comes_late (E : env) (opts : Opts.t) (w : world) :
  Opts.dryRun opts = false ->
  Opts.skipCron opts = false ->
  times_valid opts ->
  unobstructed (resolved_root E opts) (fs w) ->
  (forall c, read_file (prompt_file E "daily-review.txt") (fs w) <> inr c) ->
  exists code w1,
    init E opts w
    = (Throws (StorageFailure code (prompt_file E "daily-review.txt")), w1)
    /\ (forall d, In d dirs ->
          is_Some (stat (dir_path (resolved_root E opts) d) (fs w1)))
    /\ (forall item, In item files ->
          is_Some (stat (file_path (resolved_root E opts) item) (fs w1))).
Proof.
  intros Hreal Hcron [[a Ha] [a' Ha']] U Hno.
  destruct (loops_return_unobstructed (resolved_root E opts)
              (prologue false w).2) as (acc & wc & HL).
  { rewrite prologue_fs. exact U. }
  pose proof (loops_hoare (fs w) false (resolved_root E opts)
                (prologue false w).2 (prologue_fs _ w)) as HI.
  rewrite HL in HI. destruct HI as (G & _ & _ & Hall & _).
  specialize (Hall eq_refl). apply tracked_present in Hall as [Hd Hf].
  destruct (read_file (prompt_file E "daily-review.txt") (fs wc))
    as [code|c] eqn:Hread.
  - exists code, wc. split; [|split; assumption].
    rewrite init_result, Ha, Ha', Hreal, HL, Hcron.
    unfold cron_prompts, bind, loadPrompt, readFileSync. cbn [negb].
    fold (prompt_file E "daily-review.txt"). rewrite Hread. reflexivity.
  - destruct (Hno c).
    eapply prompt_read_back; [exact G|left; reflexivity|exact Hread].
Qed.

Lemma init_prompt_failure_comes_late_witness :
  exists code w1,
    init MoreSamples.no_prompts_env Samples.no_options Samples.installed_world
    = (Throws (StorageFailure code
                 ["usr"; "lib"; "reflector"; "prompts"; "daily-review.txt"]),
       w1)
    /\ is_Some (stat ["tmp"; "w"; "PRINCIPLES.md"] (fs w1)).
Proof.
  destruct (init_prompt_failure_comes_late MoreSamples.no_prompts_env
              Samples.no_options Samples.installed_world)
    as (code & w1 & Hrun & _ & Hf).
  - reflexivity.
  - reflexivity.
  - split; eexists; reflexivity.
  - intros q c [k Hk] Hs. each_prefix Hk Hs.
  - intros c Hc. vm_compute in Hc. discriminate Hc.
  - exists code, w1. split; [exact Hrun|].
    apply (Hf ("PRINCIPLES.md", principlesTemplate)). left. reflexivity.
Defined.

(** ** What the report says about the schedule *)

Lemma cron_prompts_inv E tz d wk w p :
  (cron_prompts E false tz d wk w).1 = Returns p ->
  exists c1 c2 dc wc,
    read_file (prompt_file E "daily-review.txt") (fs w) = inr c1
    /\ read_file (prompt_file E "weekly-refinement.txt") (fs w) = inr c2
    /\ timeToCron d "daily" = Returns dc
    /\ timeToCron wk "weekly" = Returns wc
    /\ p = Some (Prompts (Schedule dc tz c1) (Schedule wc tz c2)).
Proof.
  unfold cron_prompts, bind, loadPrompt, readFileSync. cbn [negb].
  fold (prompt_file E "daily-review.txt").
  fold (prompt_file E "weekly-refinement.txt").
  destruct (read_file (prompt_file E "daily-review.txt") (fs w)) as [|c1];
    [discriminate|].
  destruct (read_file (prompt_file E "weekly-refinement.txt") (fs w)) as [|c2];
    [discriminate|].
  destruct (timeToCron d "daily") as [dc|]; cbn; [|discriminate].
  destruct (timeToCron wk "weekly") as [wc|]; cbn; [|discriminate].
  intros [= <-]. eauto 10.
Qed.

(** X7. A returned report carries no schedule when the prompts are
    skipped.  Otherwise it carries, for the daily and the weekly
    review, the cron expression [timeToCron] derives from the report's
    own time, the report's timezone, and the text of the prompt file as
    it is on disk when the run ends. *)
Theorem init_schedule_payload (E : env) (opts : Opts.t) (w : world)
    (rep : report) (w1 : world) :
  init E opts w = (Returns rep, w1) ->
  if Opts.skipCron opts then prompts rep = None
  else exists p,
      prompts rep = Some p
      /\ timeToCron (dailyTime rep) "daily" = Returns (cron (daily p))
      /\ timeToCron (weeklyTime rep) "weekly" = Returns (cron (weekly p))
      /\ sched_timezone (daily p) = timezone rep
      /\ sched_timezone (weekly p) = timezone rep
      /\ read_file (prompt_file E "daily-review.txt") (fs w1)
         = inr (prompt (daily p))
      /\ read_file (prompt_file E "weekly-refinement.txt") (fs w1)
         = inr (prompt (weekly p)).
Proof.
  intros Hrun.
  destruct (init_returns_inv _ _ _ _ _ Hrun)
    as (acc & wc & p & _ & _ & _ & HC & Hfs & ->).
  cbn [prompts dailyTime weeklyTime timezone].
  destruct (Opts.skipCron opts).
  - cbn in HC. congruence.
  - apply cron_prompts_inv in HC as (c1 & c2 & dc & wcr & R1 & R2 & T1 & T2 & ->).
    eexists. split; [reflexivity|]. cbn. rewrite Hfs. auto 10.
Qed.

Lemma init_schedule_payload_witness :
  exists rep w1 p,
    init Samples.sample_env Samples.no_options Samples.installed_world
    = (Returns rep, w1)
    /\ prompts rep = Some p
    /\ timeToCron "03:30" "daily" = Returns (cron (daily p))
    /\ sched_timezone (weekly p) = "Asia/Bangkok".
Proof.
  eexists _, _.
  pose proof (init_schedule_payload Samples.sample_env Samples.no_options
                Samples.installed_world) as H.
  edestruct H as (p & Hp & Hd & _ & _ & Hz & _).
  - vm_compute. reflexivity.
  - exists p. split; [vm_compute; reflexivity|].
    split; [exact Hp|]. split; [exact Hd|exact Hz].
Defined.

End InitExtras.

(* ===================================================================== *)
(** * The outcome logger: more properties *)
(* ===================================================================== *)

Module LogExtras.
Import Js Fs Vocabulary LogVocabulary Logic RunVocabulary.
Import FsProofs LogicProofs EntryProofs LogProofs LogOutcome InitExtras.

(** ** The entry [buildEntry] returns *)

Lemma trim_end_cons c s :
  trim_end (String c s)
  = match trim_end s with
    | EmptyString => if is_space c then EmptyString else String c EmptyString
    | t => String c t
    end.
Proof. reflexivity. Qed.

Lemma trim_end_idem s : trim_end (trim_end s) = trim_end s.
Proof.
  induction s as [|c s IH]; [reflexivity|].
  rewrite trim_end_cons. destruct (trim_end s) as [|d t] eqn:Ht.
  - destruct (is_space c) eqn:Hc; [reflexivity|].
    rewrite trim_end_cons. cbn [trim_end]. rewrite Hc. reflexivity.
  - rewrite trim_end_cons, IH. reflexivity.
Qed.

Lemma trim_end_head c s :
  is_space c = false -> exists t, trim_end (String c s) = String c t.
Proof.
  intros Hc. rewrite trim_end_cons. destruct (trim_end s); [rewrite Hc|]; eauto.
Qed.

(** Trimming twice is trimming once. *)
Lemma trim_idem s : trim (trim s) = trim s.
Proof.
  unfold trim.
  destruct (decide (Forall (fun c => is_space c = true) (chars s))) as [Hb|Hn].
  - rewrite (trim_start_blank s Hb). reflexivity.
  - destruct (trim_start_not_blank s Hn) as (c & t & -> & Hc).
    destruct (trim_end_head c t Hc) as [t' Ht]. rewrite Ht.
    cbn [trim_start]. rewrite Hc, <- Ht. apply trim_end_idem.
Qed.

Lemma task_guard_inv v : task_guard v = false -> task_accepted v.
Proof.
  intros G. destruct (task_accepted_or_rejected v) as [H|H]; [exact H|].
  rewrite (task_guard_rejected v H) in G. discriminate G.
Qed.

Lemma quality_guard_inv v : quality_guard v = false -> quality_known v.
Proof.
  unfold quality_guard. intros G. apply orb_false_elim in G as [_ G].
  apply negb_false_iff in G. destruct v as [| | | |s]; try discriminate G.
  exists s. split; [reflexivity|].
  unfold QUALITY_TYPES_has in G. apply existsb_exists in G as (x & Hx & Ex).
  apply String.eqb_eq in Ex. subst x. exact Hx.
Qed.

Lemma buildEntry_inv E opts e :
  buildEntry E opts = Returns e ->
  task_accepted (Opts.task opts) /\ quality_known (Opts.quality opts).
Proof.
  unfold buildEntry. fold (task_guard (Opts.task opts)).
  fold (quality_guard (Opts.quality opts)). intros H.
  destruct (task_guard (Opts.task opts)) eqn:G1; [discriminate H|].
  destruct (quality_guard (Opts.quality opts)) eqn:G2; [discriminate H|].
  split; [apply task_guard_inv, G1|apply quality_guard_inv, G2].
Qed.

Lemma js_or_null v : null_or_truthy (js_or v JNull).
Proof.
  unfold js_or, null_or_truthy. destruct (truthy v) eqn:T; auto.
Qed.

(** X8. Whatever the options hold, an entry [buildEntry] returns has a
    task that is a non-empty string without white space at either end,
    one of the five qualities, optional fields that are [null] or
    truthy (never [undefined], never the empty string), a timestamp
    that is the caller's truthy value or the clock's, and a flag that
    is [false] or truthy. *)
Theorem buildEntry_entry_shape (E : env) (opts : Opts.t) (e : entry) :
  buildEntry E opts = Returns e ->
  (exists t, task e = JStr t /\ t <> "" /\ trim t = t)
  /\ quality_known (outputQuality e)
  /\ (timestamp e = JStr (now_iso E) \/ truthy (timestamp e) = true)
  /\ null_or_truthy (channel e)
  /\ null_or_truthy (delta e)
  /\ null_or_truthy (lesson e)
  /\ (principleCandidate e = JBool false
      \/ truthy (principleCandidate e) = true).
Proof.
  intros H. destruct (buildEntry_inv _ _ _ H) as [Ht Hq].
  rewrite (buildEntry_accepted E opts Ht Hq) in H. injection H as <-.
  cbn [task outputQuality timestamp channel delta lesson principleCandidate].
  destruct Ht as (s & Es & Hs). rewrite Es. cbn [method_trim].
  split; [|split; [|split; [|split; [|split; [|split]]]]].
  - exists (trim s). split; [reflexivity|]. split; [|apply trim_idem].
    intros Ht. apply Hs, trim_empty_iff, Ht.
  - exact Hq.
  - unfold js_or. destruct (truthy (Opts.timestamp opts)) eqn:T; auto.
  - apply js_or_null.
  - apply js_or_null.
  - apply js_or_null.
  - unfold js_or. destruct (truthy (Opts.principleCandidate opts)) eqn:T; [auto|].
    destruct (strict_eq (Opts.quality opts) (JStr "correction")); auto.
Qed.

Lemma buildEntry_entry_shape_witness :
  exists e,
    buildEntry Samples.sample_env MoreSamples.praise_options = Returns e
    /\ task e = JStr "Draft email"
    /\ null_or_truthy (delta e).
Proof.
  eexists. split; [vm_compute; reflexivity|]. split; [reflexivity|].
  refine (proj1 (proj2 (proj2 (proj2 (proj2
    (buildEntry_entry_shape Samples.sample_env MoreSamples.praise_options
       _ _)))))).
  vm_compute. reflexivity.
Defined.

(** ** Reading the last line back *)

Lemma split_on_nonempty sep s : split_on sep s <> [].
Proof.
  destruct s as [|c s]; cbn; [discriminate|].
  destruct (Ascii.eqb c sep); [discriminate|].
  destruct (split_on sep s); discriminate.
Qed.

Lemma split_on_app sep a b :
  split_on sep (a +:+ String sep b) = split_on sep a ++ split_on sep b.
Proof.
  induction a as [|c a IH].
  - rewrite append_nil_l. cbn. rewrite Ascii.eqb_refl. reflexivity.
  - rewrite append_cons. cbn [split_on]. rewrite IH.
    destruct (Ascii.eqb c sep); [reflexivity|].
    destruct (split_on sep a) as [|x xs] eqn:Ha;
      [destruct (split_on_nonempty _ _ Ha)|reflexivity].
Qed.

Lemma split_on_one_line l :
  one_line l -> split_on (ascii_of_nat 10) l = [l].
Proof.
  induction l as [|c l IH]; intros H; [reflexivity|].
  inversion H as [|? ? Hc Hl]; subst. cbn [split_on].
  unfold is_newline in Hc. rewrite Hc, (IH Hl). reflexivity.
Qed.

Lemma log_lines_app a b :
  log_lines (a +:+ nl +:+ b) = log_lines a ++ log_lines b.
Proof.
  unfold log_lines, nl. rewrite append_cons, append_nil_l, split_on_app.
  apply List.filter_app.
Qed.

(** A line appended to a terminated log is its last line. *)
Lemma log_lines_append old l :
  terminated old -> one_line l -> l <> "" ->
  log_lines (old +:+ l +:+ nl) = log_lines old ++ [l].
Proof.
  intros Ht Hl Hn.
  assert (Hone : log_lines (l +:+ nl) = [l]).
  { rewrite <- (append_empty_r nl), (log_lines_cons l "" Hl Hn). reflexivity. }
  destruct Ht as [->|[t ->]].
  - rewrite append_nil_l. exact Hone.
  - rewrite append_assoc, log_lines_app, Hone.
    rewrite <- (append_empty_r nl), log_lines_app.
    cbn. rewrite app_nil_r. reflexivity.
Qed.

Lemma log_unfold E opts e w :
  buildEntry E opts = Returns e ->
  log E opts w =
    match appendEntry E e (Opts.root opts) w with
    | (Returns _, w') => (Returns e, w')
    | (Throws err, w') => (Throws err, w')
    end.
Proof.
  intros H. unfold log, bind. rewrite H. cbn.
  destruct (appendEntry E e (Opts.root opts) w) as [[p|err] w']; reflexivity.
Qed.

Lemma log_returns_inv E opts w e w' :
  log E opts w = (Returns e, w') ->
  buildEntry E opts = Returns e
  /\ exists p, appendEntry E e (Opts.root opts) w = (Returns p, w').
Proof.
  intros H. destruct (buildEntry E opts) as [e0|err] eqn:Hb.
  - rewrite (log_unfold _ _ _ _ Hb) in H.
    destruct (appendEntry E e0 (Opts.root opts) w) as [[p|err] w1] eqn:Ha;
      [|discriminate H].
    injection H as -> ->. eauto.
  - unfold log, bind in H. rewrite Hb in H. discriminate H.
Qed.

Lemma textual_valid E opts e :
  textual opts -> buildEntry E opts = Returns e -> valid_entry e.
Proof.
  intros (Hts & Hc & Hd & Hl & Hp) H.
  destruct (buildEntry_inv _ _ _ H) as [Ht Hq].
  rewrite (buildEntry_accepted E opts Ht Hq) in H. injection H as <-.
  unfold valid_entry.
  cbn [task outputQuality timestamp channel delta lesson principleCandidate].
  assert (Hopt : forall v, text_or_absent v -> text_or_null (js_or v JNull)).
  { intros v [->|[s ->]]; [left; reflexivity|].
    unfold js_or. destruct (truthy (JStr s)); [right; exists s|left]; reflexivity. }
  split; [|split; [|split; [|split; [|split; [|split]]]]]; auto.
  - destruct Hts as [->|[s ->]]; [eexists; reflexivity|].
    unfold js_or. destruct (truthy (JStr s)); eexists; reflexivity.
  - destruct Ht as (s & -> & _). eexists. reflexivity.
  - destruct Hp as [->|[b ->]]; [eexists; reflexivity|].
    unfold js_or. destruct b; eexists; reflexivity.
Qed.

(** X9. With optional properties of the expected types, a call of [log]
    that returns on a log that is empty or ends with a line feed adds
    one line, the last one, to the lines of the log; [JSON.parse] of
    that line gives the fields of the returned entry, and the log ends
    with a line feed again. *)
Theorem log_line_reads_back (E : env) (opts : Opts.t) (w : world)
    (e : entry) (w' : world) :
  let r := default (cwd E) (Opts.root opts) in
  textual opts ->
  terminated (log_text r (fs w)) ->
  log E opts w = (Returns e, w') ->
  log_lines (log_text r (fs w'))
  = log_lines (log_text r (fs w)) ++ [JSON_stringify e]
  /\ parses_to (JSON_stringify e) e
  /\ terminated (log_text r (fs w')).
Proof.
  intros r Hx Ht Hrun.
  apply log_returns_inv in Hrun as (Hb & p & Ha).
  apply appendEntry_returns in Ha as (_ & Htext & _). fold r in Htext.
  rewrite Htext. split; [|split].
  - apply log_lines_append;
      [exact Ht|apply one_line_stringify|apply stringify_not_empty].
  - apply valid_entry_parses. eapply textual_valid; eassumption.
  - right. exists (log_text r (fs w) +:+ JSON_stringify e).
    rewrite append_assoc. reflexivity.
Qed.

Lemma log_line_reads_back_witness :
  exists e w',
    log Samples.sample_env MoreSamples.praise_options Samples.fresh_world
    = (Returns e, w')
    /\ log_lines (log_text ["tmp"; "w"] (fs w')) = [JSON_stringify e]
    /\ parses_to (JSON_stringify e) e.
Proof.
  eexists _, _. split; [vm_compute; reflexivity|].
  edestruct (log_line_reads_back Samples.sample_env MoreSamples.praise_options
               Samples.fresh_world) as (Hl & Hp & _).
  - repeat split; try (left; reflexivity); right; eexists; reflexivity.
  - left. reflexivity.
  - vm_compute. reflexivity.
  - split; [exact Hl|exact Hp].
Defined.

(** ** When the append returns, and what it touches *)









(** X12. A returning [appendEntry] prints nothing and touches the log
    only: every other path keeps its kind and content, and the paths it
    adds are the log file and the directories on the way to it. *)
Theorem appendEntry_touches_the_log_only (E : env) (e : entry)
    (root : option path) (w : world) (p : path) (w' : world) :
  let lp := log_path (default (cwd E) root) in
  appendEntry E e root w = (Returns p, w') ->
  console w' = console w
  /\ (forall q k, q <> lp -> stat q (fs w) = Some k -> stat q (fs w') = Some k)
  /\ (forall q k, stat q (fs w) = None -> stat q (fs w') = Some k ->
        q = lp \/ (k = IsDir /\ q `prefix_of` dirname lp)).
Proof.
  intros lp Hrun. pose proof (appendEntry_unfold E e root w) as U. cbv zeta in U.
  rewrite Hrun in U. fold lp in U.
  assert (Hstep : exists n1 n2,
    (n1 = fs w \/ mkdir_p (dirname lp) (fs w) = inr n1)
    /\ append_file lp (JSON_stringify e +:+ nl) n1 = inr n2
    /\ w' = World n2 (console w)).
  { destruct (exists_path (dirname lp) (fs w)).
    - destruct (append_file lp (JSON_stringify e +:+ nl) (fs w)) as [c|n2] eqn:Ha;
        [discriminate U|].
      injection U as _ ->. eauto 10.
    - destruct (mkdir_p (dirname lp) (fs w)) as [c|n1] eqn:Hmk; [discriminate U|].
      destruct (append_file lp (JSON_stringify e +:+ nl) n1) as [c|n2] eqn:Ha;
        [discriminate U|].
      injection U as _ ->. eauto 10. }
  destruct Hstep as (n1 & n2 & H1 & H2 & ->). cbn [fs console].
  unfold append_file in H2. split; [reflexivity|]. split.
  - intros q k Hq Hs. rewrite (put_file_other _ _ _ _ q H2 Hq).
    destruct H1 as [->|Hmk]; [exact Hs|]. eapply mkdir_p_keeps; eassumption.
  - intros q k Hno Hs. destruct (decide (q = lp)) as [->|Hq]; [auto|right].
    rewrite (put_file_other _ _ _ _ q H2 Hq) in Hs.
    destruct H1 as [->|Hmk]; [congruence|]. eapply mkdir_p_new; eassumption.
Qed.

Lemma appendEntry_touches_the_log_only_witness :
  exists p w',
    appendEntry Samples.sample_env Samples.first_entry None
      Samples.installed_world = (Returns p, w')
    /\ stat ["opt"; "reflector"; "prompts"; "daily-review.txt"] (fs w')
       = Some (IsFile "Reflector daily review").
Proof.
  eexists _, _. split; [vm_compute; reflexivity|].
  edestruct (appendEntry_touches_the_log_only Samples.sample_env
               Samples.first_entry None Samples.installed_world)
    as (_ & Hkeep & _).
  - vm_compute. reflexivity.
  - apply Hkeep; [discriminate|]. vm_compute. reflexivity.
Defined.

End LogExtras.

(* ===================================================================== *)
(** * Cron expressions: more properties *)
(* ===================================================================== *)

Module TimeExtras.
Import Js Time Fs Vocabulary TimeProofs LogProofs.

Lemma small_number_field n :
  0 <= n <= 59 ->
  split_on " " (string_of_Z n) = [string_of_Z n]
  /\ parseInt (string_of_Z n) = Num n.
Proof.
  intros Hn.
  assert (Hnat : exists k : nat, n = Z.of_nat k /\ (k < 60)%nat)
    by (exists (Z.to_nat n); lia).
  destruct Hnat as (k & -> & Hk).
  do 60 (destruct k as [|k]; [split; vm_compute; reflexivity|]). lia.
Qed.

(** X16. Whatever the frequency word, a cron expression [timeToCron]
    returns has five fields separated by single spaces: the minute and
    the hour, in 0-59 and 0-23, written so that [parseInt] reads them
    back (a leading zero of the time is dropped), two stars, and the
    day of the week, which is [0] for the frequency [weekly] and a star
    for every other frequency word. *)
Theorem timeToCron_fields (time freq c : string) :
  timeToCron time freq = Returns c ->
  exists H M,
    parseTime time = Returns (Num H, Num M)
    /\ 0 <= H <= 23 /\ 0 <= M <= 59
    /\ split_on " " c
       = [string_of_Z M; string_of_Z H; "*"; "*";
          if String.eqb freq "weekly" then "0" else "*"]
    /\ parseInt (string_of_Z M) = Num M
    /\ parseInt (string_of_Z H) = Num H.
Proof.
  unfold timeToCron. intros Hc.
  destruct (parseTime time) as [[h m]|e] eqn:Hp; [|discriminate Hc].
  destruct (parseTime_returns _ _ _ Hp) as (H & M & -> & -> & HH & HM).
  exists H, M. cbn [string_of_jsnum] in Hc.
  destruct (small_number_field M HM) as [SM PM].
  destruct (small_number_field H) as [SH PH]; [lia|].
  repeat split; try assumption; try apply HH; try apply HM.
  destruct (String.eqb freq "weekly"); injection Hc as <-.
  - change (split_on " " (string_of_Z M +:+ String " "
              (string_of_Z H +:+ String " " "* * 0"))
            = [string_of_Z M; string_of_Z H; "*"; "*"; "0"]).
    rewrite !LogExtras.split_on_app, SM, SH. reflexivity.
  - change (split_on " " (string_of_Z M +:+ String " "
              (string_of_Z H +:+ String " " "* * *"))
            = [string_of_Z M; string_of_Z H; "*"; "*"; "*"]).
    rewrite !LogExtras.split_on_app, SM, SH. reflexivity.
Qed.

Lemma timeToCron_fields_witness :
  exists c,
    timeToCron "09:05" "monthly" = Returns c
    /\ split_on " " c = ["5"; "9"; "*"; "*"; "*"].
Proof.
  eexists. split; [vm_compute; reflexivity|].
  destruct (timeToCron_fields "09:05" "monthly" "5 9 * * *")
    as (H & M & Hp & _ & _ & Hs & _).
  - vm_compute. reflexivity.
  - injection Hp as <- <-. exact Hs.
Defined.

End TimeExtras.

(* ===================================================================== *)
(** * The command line of log-outcome.js *)
(* ===================================================================== *)

Module CliExtras.
Import Js Fs Vocabulary LogVocabulary Logic RunVocabulary Cli CliVocabulary.
Import FsProofs LogicProofs EntryProofs LogProofs LogOutcome.

(** ** The argument loop of log-outcome.js *)

Lemma log_loop_cons a rest opts :
  LogOutcomeCli.parse_loop (a :: rest) opts =
    let after := match rest with
                 | _ :: r => LogOutcomeCli.parse_loop r
                 | [] => cret
                 end in
    if String.eqb a "--task"
    then after (LogOutcomeCli.set_task (next_value rest) opts)
    else if String.eqb a "--quality"
    then after (LogOutcomeCli.set_quality (next_value rest) opts)
    else if String.eqb a "--delta"
    then after (LogOutcomeCli.set_delta (next_value rest) opts)
    else if String.eqb a "--lesson"
    then after (LogOutcomeCli.set_lesson (next_value rest) opts)
    else if String.eqb a "--channel"
    then after (LogOutcomeCli.set_channel (next_value rest) opts)
    else if String.eqb a "--principle-candidate"
    then LogOutcomeCli.parse_loop rest
           (LogOutcomeCli.set_principleCandidate (JBool true) opts)
    else if String.eqb a "--help" || String.eqb a "-h"
    then cbind (console_log LogOutcomeCli.help) (fun _ => process_exit 0)
    else cbind (console_error ("Unknown option: " +:+ a))
               (fun _ => process_exit 1).
Proof. reflexivity. Qed.

Lemma log_loop_item a rest opts :
  LogOutcomeCli.parse_loop (log_arg_words a ++ rest) opts
  = LogOutcomeCli.parse_loop rest (log_assign opts a).
Proof. destruct a as [[] v|]; reflexivity. Qed.

Lemma log_loop_items items : forall rest opts,
  LogOutcomeCli.parse_loop (log_words items ++ rest) opts
  = LogOutcomeCli.parse_loop rest (fold_left log_assign items opts).
Proof.
  induction items as [|a items IH]; intros rest opts; [reflexivity|].
  unfold log_words. cbn [flat_map fold_left]. rewrite <- app_assoc.
  rewrite log_loop_item. apply IH.
Qed.

Lemma log_field_assign o opts a :
  log_field o (log_assign opts a)
  = match a with
    | Valued o' v => if log_option_eqb o o' then JStr v else log_field o opts
    | Candidate => log_field o opts
    end.
Proof. destruct a as [[] v|], o; reflexivity. Qed.

Lemma log_field_fold o items : forall opts,
  log_field o (fold_left log_assign items opts)
  = fold_left (fun acc a =>
                 match a with
                 | Valued o' v => if log_option_eqb o o' then JStr v else acc
                 | Candidate => acc
                 end) items (log_field o opts).
Proof.
  induction items as [|a items IH]; intros opts; [reflexivity|].
  cbn [fold_left]. rewrite IH, log_field_assign. reflexivity.
Qed.

Lemma log_flag_fold items : forall opts,
  Opts.principleCandidate (fold_left log_assign items opts)
  = if flagged items then JBool true else Opts.principleCandidate opts.
Proof.
  induction items as [|a items IH]; intros opts; [reflexivity|].
  cbn [fold_left flagged existsb]. fold (flagged items). rewrite IH.
  destruct a as [[] v|]; cbn [orb]; try reflexivity.
  destruct (flagged items); reflexivity.
Qed.

Lemma log_rest_fold items : forall opts,
  Opts.timestamp (fold_left log_assign items opts) = Opts.timestamp opts
  /\ Opts.root (fold_left log_assign items opts) = Opts.root opts.
Proof.
  induction items as [|a items IH]; intros opts; [auto|].
  cbn [fold_left]. destruct (IH (log_assign opts a)) as [-> ->].
  destruct a as [[] v|]; auto.
Qed.

(** X13. On a well-formed command line (options each followed by a
    word, and the flag, in any order and number) [parseArgs] of
    log-outcome.js returns without printing: each option holds the word
    that followed its last occurrence, taken as it is even when it
    looks like an option; an option that was not given is undefined;
    the flag is [true] when given and undefined otherwise, never
    [false]; the timestamp and the root are never set; a channel that
    is missing or empty is replaced by a non-empty OPENCLAW_CHANNEL. *)
Theorem log_parseArgs_well_formed (S : shell) (items : list log_arg)
    (p : process) :
  exists opts,
    LogOutcomeCli.parseArgs S (Some (log_words items)) p = (Value opts, p)
    /\ (forall o, o <> OChannel -> log_field o opts = given o items)
    /\ (truthy (given OChannel items) = true ->
        Opts.channel opts = given OChannel items)
    /\ (truthy (given OChannel items) = false ->
        forall c, OPENCLAW_CHANNEL S = Some c -> c <> "" ->
                  Opts.channel opts = JStr c)
    /\ (truthy (given OChannel items) = false ->
        OPENCLAW_CHANNEL S = None \/ OPENCLAW_CHANNEL S = Some "" ->
        Opts.channel opts = given OChannel items)
    /\ Opts.principleCandidate opts
       = (if flagged items then JBool true else JUndefined)
    /\ Opts.timestamp opts = JUndefined
    /\ Opts.root opts = None.
Proof.
  set (o0 := fold_left log_assign items LogOutcomeCli.no_options).
  assert (Hf : forall o, log_field o o0 = given o items)
    by (intros o; unfold o0, given; rewrite log_field_fold; destruct o;
        reflexivity).
  assert (Hc : Opts.channel o0 = given OChannel items) by apply (Hf OChannel).
  pose proof (log_flag_fold items LogOutcomeCli.no_options) as Hp.
  destruct (log_rest_fold items LogOutcomeCli.no_options) as [Ht Hr].
  fold o0 in Hp, Ht, Hr.
  assert (Hrun : LogOutcomeCli.parse_loop (log_words items)
                   LogOutcomeCli.no_options p = (Value o0, p)).
  { rewrite <- (app_nil_r (log_words items)), log_loop_items. reflexivity. }
  assert (Hpa : LogOutcomeCli.parseArgs S (Some (log_words items)) p
    = (Value (if negb (truthy (given OChannel items))
                 && negb (String.eqb (default "" (OPENCLAW_CHANNEL S)) "")
              then LogOutcomeCli.set_channel
                     (JStr (default "" (OPENCLAW_CHANNEL S))) o0
              else o0), p)).
  { unfold LogOutcomeCli.parseArgs, cbind. cbn [from_option id].
    rewrite Hrun, Hc.
    destruct (_ && _); reflexivity. }
  eexists. split; [exact Hpa|]. clear Hpa Hrun.
  assert (Hsame : (forall o, o <> OChannel -> log_field o o0 = given o items)
                  /\ Opts.principleCandidate o0
                     = (if flagged items then JBool true else JUndefined)
                  /\ Opts.timestamp o0 = JUndefined /\ Opts.root o0 = None)
    by auto.
  destruct (truthy (given OChannel items)) eqn:T; cbn [negb andb].
  - destruct Hsame as (H1 & H2 & H3 & H4).
    repeat split; auto; intros; discriminate.
  - destruct (OPENCLAW_CHANNEL S) as [c|] eqn:Ec; cbn [from_option id].
    + destruct (String.eqb_spec c "") as [->|Hne]; cbn [negb].
      * destruct Hsame as (H1 & H2 & H3 & H4).
        repeat split; auto; try (intros; discriminate).
        intros _ c [= <-] Hc'. destruct Hc'. reflexivity.
      * destruct Hsame as (H1 & H2 & H3 & H4).
        split; [intros o Ho; rewrite <- (H1 o Ho); destruct o; try reflexivity;
                destruct Ho; reflexivity|].
        split; [intros; discriminate|].
        split; [intros _ c' [= <-] _; reflexivity|].
        split; [intros _ [H|H]; [discriminate H|injection H as ->;
                                                destruct Hne; reflexivity]|].
        auto.
    + destruct Hsame as (H1 & H2 & H3 & H4).
      repeat split; auto; intros; discriminate.
Qed.

Lemma log_parseArgs_well_formed_witness :
  exists opts,
    LogOutcomeCli.parseArgs (Shell [] (Some "telegram"))
      (Some ["--task"; "--help"; "--quality"; "edit"; "--task"; "Draft"])
      (Process Samples.fresh_world [])
    = (Value opts, Process Samples.fresh_world [])
    /\ Opts.task opts = JStr "Draft"
    /\ Opts.channel opts = JStr "telegram".
Proof.
  destruct (log_parseArgs_well_formed (Shell [] (Some "telegram"))
              [Valued OTask "--help"; Valued OQuality "edit"; Valued OTask "Draft"]
              (Process Samples.fresh_world []))
    as (opts & Hrun & Hf & _ & Hc & _).
  exists opts. split; [exact Hrun|]. split.
  - apply (Hf OTask). discriminate.
  - apply Hc; [reflexivity|reflexivity|discriminate].
Defined.

(** ** Any command line *)








Lemma parse_outcome_more {A} known help args args' p (good good' : A -> Prop) r p' :
  (forall a, In a args -> In a args') ->
  (forall o, good o -> good' o) ->
  parse_outcome known help args p good r p' ->
  parse_outcome known help args' p good' r p'.
Proof.
  intros Hin Hg. destruct r as [o|c|e]; cbn; [| |auto].
  - intros [-> H]. auto.
  - intros [H|(-> & a & Ha & Hk & ->)]; [auto|right; eauto 10].
Qed.




(** ** The main body of log-outcome.js *)



Lemma log_main_exit E S p c p' :
  LogOutcomeCli.parseArgs S None p = (Exit c, p') ->
  LogOutcomeCli.main E S p = (Exit c, p').
Proof.
  intros Hp. unfold LogOutcomeCli.main, cbind at 1. rewrite Hp. reflexivity.
Qed.

Lemma log_parse_stops S items a rest p :
  process_argv S = log_words items ++ a :: rest ->
  (a = "--help" \/ a = "-h" ->
   LogOutcomeCli.parseArgs S None p = (Exit 0, printed LogOutcomeCli.help p))
  /\ (~ In a log_known_words ->
      LogOutcomeCli.parseArgs S None p
      = (Exit 1, complained ("Unknown option: " +:+ a) p)).
Proof.
  intros Hargv. unfold LogOutcomeCli.parseArgs, cbind. cbn [from_option id].
  rewrite Hargv, log_loop_items, log_loop_cons. cbv zeta. split.
  - intros [->| ->]; reflexivity.
  - cbn [log_known_words In]. intros Hn.
    repeat match goal with
    | |- context [String.eqb a ?s] =>
        destruct (String.eqb_spec a s) as [Heq|_];
        [destruct Hn; rewrite Heq; tauto|]
    end.
    reflexivity.
Qed.

(** X14. The first word in option position that is not an option stops
    log-outcome.js with status 1 and the one line
    [Unknown option: <word>] on standard error; [--help] or [-h] there
    stops it with status 0 and the usage text on standard output.  In
    both cases nothing is logged, whatever the options before and after
    say. *)
Theorem log_main_stops_at_bad_option (E : env) (S : shell) (p : process)
    (items : list log_arg) (a : string) (rest : list string) :
  process_argv S = log_words items ++ a :: rest ->
  (a = "--help" \/ a = "-h" ->
   LogOutcomeCli.main E S p = (Exit 0, printed LogOutcomeCli.help p))
  /\ (~ In a log_known_words ->
      LogOutcomeCli.main E S p
      = (Exit 1, complained ("Unknown option: " +:+ a) p)).
Proof.
  intros Hargv. destruct (log_parse_stops S items a rest p Hargv) as [H0 H1].
  split; intros H; apply log_main_exit; auto.
Qed.

Lemma log_main_stops_at_bad_option_witness :
  LogOutcomeCli.main Samples.sample_env
    (Shell ["--task"; "Draft"; "--quality"; "praise"; "--verbose"] None)
    (Process Samples.fresh_world [])
  = (Exit 1, Process Samples.fresh_world ["Unknown option: --verbose"]).
Proof.
  apply (proj2 (log_main_stops_at_bad_option Samples.sample_env
                  (Shell ["--task"; "Draft"; "--quality"; "praise"; "--verbose"]
                         None)
                  (Process Samples.fresh_world [])
                  [Valued OTask "Draft"; Valued OQuality "praise"]
                  "--verbose" [] eq_refl)).
  cbn [log_known_words In]. intros H.
  repeat (destruct H as [H|H]; [discriminate H|]). exact H.
Defined.




End CliExtras.

(* ===================================================================== *)
(** * The command line of init-reflector.js *)
(* ===================================================================== *)

Module InitCliExtras.
Import Js Fs Time Vocabulary Logic RunVocabulary Cli CliVocabulary.
Import FsProofs LogicProofs InitReflector InitProofs CliExtras.

(** ** The argument loop of init-reflector.js *)

Lemma init_loop_cons a rest opts :
  InitReflectorCli.parse_loop (a :: rest) opts =
    let after := match rest with
                 | _ :: r => InitReflectorCli.parse_loop r
                 | [] => cret
                 end in
    if String.eqb a "--dry-run"
    then InitReflectorCli.parse_loop rest (InitReflectorCli.set_dryRun opts)
    else if String.eqb a "--skip-cron"
    then InitReflectorCli.parse_loop rest (InitReflectorCli.set_skipCron opts)
    else if String.eqb a "--timezone"
    then after (InitReflectorCli.set_timezone (next_string rest) opts)
    else if String.eqb a "--daily-time"
    then after (InitReflectorCli.set_dailyTime (next_string rest) opts)
    else if String.eqb a "--weekly-time"
    then after (InitReflectorCli.set_weeklyTime (next_string rest) opts)
    else if String.eqb a "--help" || String.eqb a "-h"
    then cbind (console_log InitReflectorCli.help) (fun _ => process_exit 0)
    else cbind (console_error ("Unknown option: " +:+ a))
               (fun _ => process_exit 1).
Proof. reflexivity. Qed.

Lemma init_loop_item a rest opts :
  InitReflectorCli.parse_loop (init_arg_words a ++ rest) opts
  = InitReflectorCli.parse_loop rest (init_assign opts a).
Proof. destruct a as [[] v| |]; reflexivity. Qed.

Lemma init_loop_items items : forall rest opts,
  InitReflectorCli.parse_loop (init_words items ++ rest) opts
  = InitReflectorCli.parse_loop rest (fold_left init_assign items opts).
Proof.
  induction items as [|a items IH]; intros rest opts; [reflexivity|].
  unfold init_words. cbn [flat_map fold_left]. rewrite <- app_assoc.
  rewrite init_loop_item. apply IH.
Qed.

Lemma init_assign_fold items : forall opts,
  fold_left init_assign items opts
  = Opts.Make (Opts.root opts)
      (Opts.dryRun opts
       || existsb (fun a => match a with DryRun => true | _ => false end) items)
      (Opts.skipCron opts
       || existsb (fun a => match a with SkipCron => true | _ => false end) items)
      (fold_left (fun acc a =>
                    match a with
                    | Setting o' v => if init_option_eqb OTimezone o' then Some v else acc
                    | _ => acc
                    end) items (Opts.timezone opts))
      (fold_left (fun acc a =>
                    match a with
                    | Setting o' v => if init_option_eqb ODailyTime o' then Some v else acc
                    | _ => acc
                    end) items (Opts.dailyTime opts))
      (fold_left (fun acc a =>
                    match a with
                    | Setting o' v => if init_option_eqb OWeeklyTime o' then Some v else acc
                    | _ => acc
                    end) items (Opts.weeklyTime opts)).
Proof.
  induction items as [|a items IH]; intros opts.
  - destruct opts as [r d s tz dt wt]. cbn. rewrite !orb_false_r. reflexivity.
  - cbn [fold_left existsb]. rewrite IH.
    destruct a as [[] v| |]; cbn; rewrite ?orb_true_r; reflexivity.
Qed.

(** X17. On a well-formed command line (the two flags, and the three
    settings each followed by a word, in any order and number)
    [parseArgs] of init-reflector.js returns without printing: each
    flag is set exactly when it occurs, each setting holds the word
    that followed its last occurrence, and the root is never set, so
    that the command line always initialises the current directory. *)
Theorem init_parseArgs_well_formed (S : shell) (items : list init_arg)
    (p : process) :
  InitReflectorCli.parseArgs S (Some (init_words items)) p
  = (Value (Opts.Make None (asks_dry_run items) (asks_skip_cron items)
              (setting OTimezone items) (setting ODailyTime items)
              (setting OWeeklyTime items)), p).
Proof.
  unfold InitReflectorCli.parseArgs. cbn [from_option id].
  rewrite <- (app_nil_r (init_words items)), init_loop_items, init_assign_fold.
  reflexivity.
Qed.

(** ** Any command line *)

Lemma init_loop_outcome : forall n args opts p r p',
  (length args <= n)%nat ->
  InitReflectorCli.parse_loop args opts p = (r, p') ->
  parse_outcome init_known_words InitReflectorCli.help args p
    (fun o => Opts.root o = Opts.root opts) r p'.
Proof.
  induction n as [|n IH]; intros args opts p r p' Hlen Hrun.
  - destruct args; [|cbn in Hlen; lia]. injection Hrun as <- <-. cbn. auto.
  - destruct args as [|a rest]; [injection Hrun as <- <-; cbn; auto|].
    cbn [length] in Hlen. rewrite init_loop_cons in Hrun. cbv zeta in Hrun.
    assert (Hafter : forall opts1,
      Opts.root opts1 = Opts.root opts ->
      match rest with
      | _ :: r0 => InitReflectorCli.parse_loop r0
      | [] => cret
      end opts1 p = (r, p') ->
      parse_outcome init_known_words InitReflectorCli.help (a :: rest) p
        (fun o => Opts.root o = Opts.root opts) r p').
    { intros opts1 Hr H. destruct rest as [|v r0].
      - injection H as <- <-. cbn. auto.
      - apply IH in H; [|cbn [length] in Hlen; lia].
        eapply parse_outcome_more; [| |exact H].
        + intros x Hx. right. right. exact Hx.
        + intros o H2. congruence. }
    assert (Hnext : forall opts1,
      Opts.root opts1 = Opts.root opts ->
      InitReflectorCli.parse_loop rest opts1 p = (r, p') ->
      parse_outcome init_known_words InitReflectorCli.help (a :: rest) p
        (fun o => Opts.root o = Opts.root opts) r p').
    { intros opts1 Hr H. apply IH in H; [|lia].
      eapply parse_outcome_more; [| |exact H].
      - intros x Hx. right. exact Hx.
      - intros o H2. congruence. }
    destruct (String.eqb_spec a "--dry-run") as [_|N1];
      [apply Hnext in Hrun; auto|].
    destruct (String.eqb_spec a "--skip-cron") as [_|N2];
      [apply Hnext in Hrun; auto|].
    destruct (String.eqb_spec a "--timezone") as [_|N3];
      [apply Hafter in Hrun; auto|].
    destruct (String.eqb_spec a "--daily-time") as [_|N4];
      [apply Hafter in Hrun; auto|].
    destruct (String.eqb_spec a "--weekly-time") as [_|N5];
      [apply Hafter in Hrun; auto|].
    destruct (String.eqb_spec a "--help") as [_|N7];
      [injection Hrun as <- <-; left; auto|].
    destruct (String.eqb_spec a "-h") as [_|N8];
      [injection Hrun as <- <-; left; auto|].
    injection Hrun as <- <-. right. split; [reflexivity|].
    exists a. split; [left; reflexivity|]. split; [|reflexivity].
    cbn [init_known_words In]. intuition congruence.
Qed.

Lemma init_main_after_parse E S p opts :
  InitReflectorCli.parseArgs S None p = (Value opts, p) ->
  InitReflectorCli.main E S p =
    match init E opts (proc_world p) with
    | (Returns rep, w') => (Value rep, Process w' (stderr p))
    | (Throws err, w') => (Uncaught err, Process w' (stderr p))
    end.
Proof.
  intros Hp. unfold InitReflectorCli.main, cbind. rewrite Hp. reflexivity.
Qed.

(** X18. However init-reflector.js is called, nothing that existed is
    lost or changed.  When it returns, the report is about the current
    directory, nothing went to standard error and, unless it was a dry
    run, every tracked path exists there.  When it exits, the
    filesystem is as it was: with status 0 after the usage text, or
    with status 1 after the one line [Unknown option: <word>] on
    standard error for a word of the command line that is no option.
    An exception of [init] is not caught and leaves nothing on
    standard error. *)
Theorem init_main_outcomes (E : env) (S : shell) (p : process)
    (r : step report) (p' : process) :
  InitReflectorCli.main E S p = (r, p') ->
  (forall q k, stat q (disk p) = Some k -> stat q (disk p') = Some k)
  /\ match r with
     | Value rep =>
         stderr p' = stderr p
         /\ root rep = cwd E
         /\ (dryRun rep = false -> all_present (disk p') (tracked (cwd E)))
     | Exit c =>
         disk p' = disk p
         /\ ((c = 0 /\ p' = printed InitReflectorCli.help p)
             \/ (c = 1 /\ exists a,
                   In a (process_argv S) /\ ~ In a init_known_words
                   /\ p' = complained ("Unknown option: " +:+ a) p))
     | Uncaught _ => stderr p' = stderr p
     end.
Proof.
  intros Hrun.
  destruct (InitReflectorCli.parseArgs S None p) as [r0 p0] eqn:Hp.
  pose proof Hp as Ho. unfold InitReflectorCli.parseArgs in Ho.
  cbn [from_option id] in Ho.
  apply (init_loop_outcome _ _ _ _ _ _ (le_n _)) in Ho.
  destruct r0 as [opts|c|e0]; cbn in Ho.
  - destruct Ho as [-> Hroot].
    rewrite (init_main_after_parse E S p opts Hp) in Hrun.
    pose proof (init_hoare E opts (fs (proc_world p)) (proc_world p) eq_refl)
      as HI.
    destruct (init E opts (proc_world p)) as [[rep|err] w'] eqn:Hinit;
      injection Hrun as <- <-; unfold disk; cbn [proc_world stderr].
    + destruct HI as ([K _] & _ & _ & Hall & _). split; [exact K|].
      split; [reflexivity|].
      destruct (init_returns_inv _ _ _ _ _ Hinit)
        as (acc & wc & pr & _ & _ & _ & _ & _ & ->).
      cbn [root dryRun]. unfold resolved_root in *. rewrite Hroot in *.
      split; [reflexivity|]. exact Hall.
    + destruct HI as ([K _] & _). split; [exact K|reflexivity].
  - unfold InitReflectorCli.main, cbind in Hrun. rewrite Hp in Hrun.
    injection Hrun as <- <-.
    destruct Ho as [[-> ->]|(-> & a & Ha & Hk & ->)].
    + split; [auto|]. split; [reflexivity|]. left. auto.
    + split; [auto|]. split; [reflexivity|]. right. eauto 10.
  - destruct Ho.
Qed.

Lemma init_main_outcomes_witness :
  exists rep p',
    InitReflectorCli.main Samples.sample_env (Shell ["--skip-cron"] None)
      (Process Samples.fresh_world [])
    = (Value rep, p')
    /\ root rep = ["tmp"; "w"]
    /\ is_Some (stat ["tmp"; "w"; "PRINCIPLES.md"] (disk p')).
Proof.
  eexists _, _. split; [vm_compute; reflexivity|].
  edestruct (init_main_outcomes Samples.sample_env (Shell ["--skip-cron"] None)
               (Process Samples.fresh_world [])) as (_ & H).
  - vm_compute. reflexivity.
  - destruct H as (_ & Hroot & Hall). split; [exact Hroot|].
    specialize (Hall eq_refl). unfold all_present in Hall.
    rewrite Forall_forall in Hall.
    apply (Hall ("PRINCIPLES.md", ["tmp"; "w"; "PRINCIPLES.md"])).
    apply list_elem_of_In. vm_compute. auto 10.
Defined.





End InitCliExtras.

(* ===================================================================== *)
(** * What initialisation prints *)
(* ===================================================================== *)

Module InitOutputExtras.
Import Js Fs Time Vocabulary Logic RunVocabulary OutputVocabulary.
Import FsProofs LogicProofs InitReflector InitProofs.

Lemma exists_same (news : path -> kind -> Prop) n0 n q :
  grows news n0 n -> (forall k, ~ news q k) ->
  exists_path q n = exists_path q n0.
Proof.
  intros G Hfresh. destruct (exists_path q n0) eqn:H0.
  - apply exists_path_true in H0 as [k Hk]. apply exists_path_true.
    exists k. apply G, Hk.
  - apply exists_path_false in H0. apply exists_path_false.
    destruct (stat q n) as [k|] eqn:Hk; [|reflexivity].
    destruct (Hfresh k). eapply G; eassumption.
Qed.

Lemma ensure_generic_console e op seen made dry acc w :
  console (ensure_generic e op seen made dry acc w).2
  = console w ++ [if exists_path e.2 (fs w) then seen else made].
Proof.
  unfold ensure_generic. destruct (exists_path e.2 (fs w)); [reflexivity|].
  destruct dry; [reflexivity|]. destruct (op (fs w)); reflexivity.
Qed.

(** A step of a loop, with what it prints. *)
Lemma ensure_generic_printing n0 dry (news news_e news' : path -> kind -> Prop)
    es e op seen made acc c0 lines :
  (forall k, ~ news e.2 k) ->
  (forall q k, news q k -> news' q k) ->
  (forall q k, news_e q k -> news' q k) ->
  (forall n n', stat e.2 n = None -> op n = inr n' ->
     grows news_e n n' /\ is_Some (stat e.2 n')) ->
  hoare (fun w => run_inv n0 dry news es acc w /\ console w = c0 ++ lines)
        (ensure_generic e op seen made dry acc)
        (fun a w => run_inv n0 dry news' (es ++ [e]) a w
                    /\ console w
                       = c0 ++ lines
                         ++ [if exists_path e.2 n0 then seen else made])
        (fun _ => True).
Proof.
  intros Hfresh Hw He Hop w [HI Hc].
  pose proof (ensure_generic_hoare n0 dry news news_e news' es e op seen made
                acc Hfresh Hw He Hop w HI) as H.
  pose proof (ensure_generic_console e op seen made dry acc w) as Hcon.
  destruct (ensure_generic e op seen made dry acc w) as [[a|err] w'];
    [|exact I].
  split; [exact H|]. cbn [snd] in Hcon. rewrite Hcon, Hc, <- app_assoc.
  rewrite (exists_same news n0 (fs w) e.2); [reflexivity|apply HI|exact Hfresh].
Qed.

Lemma dirs_loop_printing n0 dry root c0 :
  hoare (fun w => fs w = n0 /\ console w = c0)
        (for_of dirs (ensure_dir root dry) ([], []))
        (fun acc w =>
           run_inv n0 dry (init_news root dirs []) (map (dir_entry root) dirs)
             acc w
           /\ console w
              = c0 ++ map (path_line n0) (map (dir_entry root) dirs))
        (fun _ => True).
Proof.
  eapply hoare_conseq;
    [apply (hoare_for_of
              (fun done acc w =>
                 run_inv n0 dry (init_news root done [])
                   (map (dir_entry root) done) acc w
                 /\ console w
                    = c0 ++ map (path_line n0) (map (dir_entry root) done))
              (fun _ => True))| | |].
  - intros done x rest acc Hl.
    eapply hoare_ext; [intros w; apply ensure_dir_shape|].
    rewrite !map_app. cbn [map].
    eapply hoare_conseq;
      [eapply (ensure_generic_printing n0 dry (init_news root done [])
                 (fun q k => k = IsDir /\ q `prefix_of` path_join root [x])
                 (init_news root (done ++ [x]) []))
      |intros w H; exact H
      |intros a w [H1 H2]; split; [exact H1|]; rewrite H2; unfold path_line;
       cbn [dir_entry fst snd];
       destruct (exists_path (path_join root [x]) n0); reflexivity
      |auto].
    + intros k. eapply dirs_fresh, Hl.
    + intros q k. apply init_news_mono; [|auto].
      intros d Hd. apply in_or_app. auto.
    + intros q k [-> Hp]. left. split; [reflexivity|]. exists x.
      split; [apply in_or_app; right; left; reflexivity|exact Hp].
    + intros n n' _ Hm. split; [apply grows_mkdir, Hm|].
      exists IsDir. cbn. eapply mkdir_p_made, Hm.
  - intros w [<- ->]. split; [|cbn; rewrite app_nil_r; reflexivity].
    split; [apply grows_refl|].
    split; [reflexivity|]. split; [reflexivity|].
    split; [intros _; constructor|reflexivity].
  - auto.
  - auto.
Qed.

Lemma files_loop_printing n0 dry root acc c0 :
  hoare (fun w =>
           run_inv n0 dry (init_news root dirs []) (map (dir_entry root) dirs)
             acc w
           /\ console w
              = c0 ++ map (path_line n0) (map (dir_entry root) dirs))
        (for_of files (ensure_file root dry) acc)
        (fun acc' w =>
           run_inv n0 dry (init_news root dirs files) (tracked root) acc' w
           /\ console w = c0 ++ map (path_line n0) (tracked root))
        (fun _ => True).
Proof.
  eapply hoare_conseq;
    [apply (hoare_for_of
              (fun done acc' w =>
                 run_inv n0 dry (init_news root dirs done)
                   (map (dir_entry root) dirs ++ map (file_entry root) done)
                   acc' w
                 /\ console w
                    = c0 ++ map (path_line n0)
                              (map (dir_entry root) dirs
                               ++ map (file_entry root) done))
              (fun _ => True))| | |].
  - intros done x rest acc' Hl.
    eapply hoare_ext; [intros w; apply ensure_file_shape|].
    rewrite (map_app (file_entry root)), app_assoc. cbn [map].
    rewrite (map_app (path_line n0)). cbn [map].
    eapply hoare_conseq;
      [eapply (ensure_generic_printing n0 dry (init_news root dirs done)
                 (fun q k => q = path_join root [x.1] /\ k = IsFile x.2)
                 (init_news root dirs (done ++ [x])))
      |intros w H; exact H
      |intros a w [H1 H2]; split; [exact H1|];
       rewrite H2, ?map_app, <- ?app_assoc; cbn [map]; unfold path_line;
       cbn [file_entry fst snd];
       destruct (exists_path (path_join root [x.1]) n0); reflexivity
      |auto].
    + intros k. eapply files_fresh, Hl.
    + intros q k. apply init_news_mono; [auto|].
      intros d Hd. apply in_or_app. auto.
    + intros q k [-> ->]. right. exists x.
      split; [apply in_or_app; right; left; reflexivity|auto].
    + intros n n' Hn Hm. split; [apply (grows_put_new _ _ _ _ Hm Hn)|].
      destruct (put_file_at _ _ _ _ Hm) as [_ Hat]. eexists. exact Hat.
  - cbn [map]. rewrite app_nil_r. auto.
  - auto.
  - auto.
Qed.

Lemma loops_printing n0 dry root c0 :
  hoare (fun w => fs w = n0 /\ console w = c0) (loops root dry)
        (fun _ w => console w = c0 ++ map (path_line n0) (tracked root))
        (fun _ => True).
Proof.
  unfold loops. eapply hoare_bind; [apply dirs_loop_printing|].
  intros acc.
  eapply hoare_conseq; [apply (files_loop_printing n0 dry root acc c0)| | |];
    [auto|intros a w [_ H]; exact H|auto].
Qed.

Lemma prologue_console dry w :
  console (prologue dry w).2 = console w ++ banner dry.
Proof.
  unfold prologue, bind, banner. cbn. destruct dry; cbn; [|reflexivity].
  rewrite <- app_assoc. reflexivity.
Qed.

Lemma bind_console {A B} (m : M A) (k : A -> M B) w :
  (exists t, console (m w).2 = console w ++ t) ->
  (forall a w1, exists t, console (k a w1).2 = console w1 ++ t) ->
  exists t, console (bind m k w).2 = console w ++ t.
Proof.
  intros [t Ht] Hk. unfold bind. destruct (m w) as [[a|e] w1]; cbn [snd] in *.
  - destruct (Hk a w1) as [t' Ht']. exists (t ++ t').
    rewrite Ht', Ht, app_assoc. reflexivity.
  - eauto.
Qed.

Lemma cron_prompts_console E skip tz d wk w :
  exists t, console (cron_prompts E skip tz d wk w).2 = console w ++ t.
Proof.
  assert (Hnil : forall w0 : world, exists t, console w0 = console w0 ++ t)
    by (intros w0; exists []; rewrite app_nil_r; reflexivity).
  unfold cron_prompts. destruct skip; cbn [negb].
  - apply bind_console; [eexists; reflexivity|]. intros _ w1. apply Hnil.
  - unfold loadPrompt.
    repeat (apply bind_console;
            [first [eexists; reflexivity
                   |unfold readFileSync; destruct (read_file _ _); apply Hnil
                   |destruct (timeToCron _ _); apply Hnil]
            |intros ? ?]).
    apply Hnil.
Qed.

(** X21. A run of [init] that returns has printed, after what was on
    the console: the opening line, followed by the dry-run notice
    exactly when it is a dry run; then one line for each tracked path,
    the three directories and then the three files, saying [exists]
    when the path was there before the run and [create] when it was
    not, dry run or not; then the lines about the schedule; and the
    five closing lines last. *)
Theorem init_prints_one_line_per_path (E : env) (opts : Opts.t) (w : world)
    (rep : report) (w1 : world) :
  init E opts w = (Returns rep, w1) ->
  exists about_cron,
    console w1
    = console w ++ banner (dryRun rep)
      ++ map (path_line (fs w)) (tracked (root rep))
      ++ about_cron ++ closing.
Proof.
  intros Hrun. rewrite init_result in Hrun.
  destruct (parseTime (resolved_daily opts)); [|discriminate Hrun].
  destruct (parseTime (resolved_weekly opts)); [|discriminate Hrun].
  pose proof (loops_printing (fs w) (Opts.dryRun opts) (resolved_root E opts)
                (console (prologue (Opts.dryRun opts) w).2)
                (prologue (Opts.dryRun opts) w).2
                (conj (prologue_fs _ w) eq_refl)) as HL.
  destruct (loops _ _ _) as [[acc|e] wc]; [|discriminate Hrun].
  destruct (cron_prompts_console E (Opts.skipCron opts)
              (resolved_timezone E opts) (resolved_daily opts)
              (resolved_weekly opts) wc) as [t Ht].
  destruct (cron_prompts _ _ _ _ _ wc) as [[p|e] wd]; [|discriminate Hrun].
  injection Hrun as <- <-. cbn [snd dryRun root] in *.
  exists t. change (console (epilogue wd).2) with (console wd ++ closing).
  rewrite Ht, HL, prologue_console, <- !app_assoc. reflexivity.
Qed.

Lemma init_prints_one_line_per_path_witness :
  exists rep w1,
    init Samples.sample_env Samples.dry_run Samples.started_world
    = (Returns rep, w1)
    /\ firstn 5 (console w1)
       = [ "Initializing Reflector system..." +:+ nl;
           "(dry run - no changes will be written)" +:+ nl;
           "  exists  memory/";
           "  create  memory/reflector/";
           "  create  memory/reflector/weekly-summaries/" ].
Proof.
  eexists _, _. split; [vm_compute; reflexivity|].
  edestruct (init_prints_one_line_per_path Samples.sample_env Samples.dry_run
               Samples.started_world) as [t Ht].
  - vm_compute. reflexivity.
  - rewrite Ht. vm_compute. reflexivity.
Defined.

End InitOutputExtras.
